(** * Reorganization planner of the anime file manager (ImportPage.tsx)

    A shallow embedding of the planning code of [src/pages/ImportPage.tsx]:
    [extractSubtitleSuffix], [parseFilenames], [applyMetadata] and the
    rename-map construction of [processFiles], together with the JavaScript
    string primitives these functions rely on; then of the code around it:
    the intake of files ([handleFileSelect], [handleFiles], [removeFile],
    [editFileName]), the searches ([parseFilenames], [handleManualSearch]),
    the handlers that plan again ([selectAnimeMetadata],
    [updateFileNameTemplate]), the stored configuration ([loadConfig],
    [saveCurrentSettings], [autoSaveConfig]) and [truncateText] of
    [utils/formatters].

    Modelling conventions.
    - A JavaScript string is its sequence of UTF-16 code units, [list N].
      String literals of the source are written [js "..."].
    - A JavaScript [number] holding an integer is a [Z]; the embedding is
      exact for magnitudes below 2^53 (every episode index, year and season
      the page can produce from realistic input).
    - An optional field ([x?: T], also [null] coming from the backend) is an
      [option].  Truthiness is written out: a string is truthy when it is
      non-empty, a number when it is non-zero.
    - [String.prototype.localeCompare] belongs to the host runtime; it is a
      parameter of the development.  ECMA-262 requires it to be a consistent
      comparison function, which is the only property ever assumed of it.
    - The elements of the [files] array are distinct objects (they are built
      by object literals or deserialised from the backend), so the in-place
      assignments [updatedFiles[i].metadata = ...] are list updates at [i].
      The loops read [name], [parsed] and [file_type] of a file and write
      [metadata] and [new_name] only, so the items carry the files as they
      were when the arrays were built.
    - [subtitleGroups] is an object literal used as a dictionary.  Its own
      keys are kept as an association list in insertion order;
      [Object.keys] lists integer-like keys first, which changes the order
      in which the groups are visited but not what is written, the groups
      writing to disjoint indices.  A key that object literals inherit
      ("constructor", "toString", ...) makes the grouping throw a
      [TypeError]: [applyMetadata] is partial and returns an [option].
    - The Tauri backend is available and the calls of one function are not
      interleaved with other updates of the page state.
    - [String.prototype.toLowerCase] belongs to the host as well and is a
      parameter wherever the code calls it.
    - A state setter of the page takes effect with the next render: within
      one handler every read of the state gives the value of the render the
      handler was created in.
    - The backend keeps the configuration it is given: what [load_config]
      answers is what [save_config] was last called with. *)

From Stdlib Require Import ZArith NArith Lia String Ascii Decimal.
From stdpp Require Import base list numbers sorting gmap.

Open Scope N_scope.

Abbreviation jsstring := (list N).

(** ** JavaScript strings *)

Module JS.

(** The code units of an ASCII literal. *)
Fixpoint js (s : string) : jsstring :=
  match s with
  | EmptyString => []
  | String a r => N_of_ascii a :: js r
  end.

(** Truthiness of a string / of an optional string. *)
Definition truthy (s : jsstring) : bool :=
  match s with [] => false | _ => true end.

Definition truthy_opt (o : option jsstring) : bool :=
  match o with Some s => truthy s | None => false end.

(** [a || b] on an optional string with a string default. *)
Definition or_else (o : option jsstring) (d : jsstring) : jsstring :=
  match o with
  | Some s => if truthy s then s else d
  | None => d
  end.

Definition eqb (a b : jsstring) : bool := bool_decide (a = b).

(** [s.startsWith(p)] *)
Fixpoint startsWith (s p : jsstring) {struct p} : bool :=
  match p, s with
  | [], _ => true
  | _ :: _, [] => false
  | c :: p', d :: s' => (c =? d) && startsWith s' p'
  end.

(** [s.endsWith(p)] *)
Definition endsWith (s p : jsstring) : bool :=
  startsWith (rev s) (rev p).

(** First occurrence of [p] in [s] (the position [s.indexOf(p)] finds):
    the text before it and the text after it. *)
Fixpoint findFirst (p s : jsstring) : option (jsstring * jsstring) :=
  if startsWith s p then Some ([], drop (length p) s)
  else match s with
       | [] => None
       | c :: s' =>
           match findFirst p s' with
           | Some (before, after) => Some (c :: before, after)
           | None => None
           end
       end.

(** GetSubstitution of ECMA-262 for a string pattern (no captures):
    [$$] is a dollar sign, [$&] the matched text, [$`] the text before the
    match and [$'] the text after it; every other unit stands for itself. *)
Fixpoint getSubstitution (matched before after repl : jsstring) : jsstring :=
  match repl with
  | [] => []
  | c :: r =>
      if c =? 36 then
        match r with
        | d :: r' =>
            if d =? 36 then 36 :: getSubstitution matched before after r'
            else if d =? 38 then matched ++ getSubstitution matched before after r'
            else if d =? 96 then before ++ getSubstitution matched before after r'
            else if d =? 39 then after ++ getSubstitution matched before after r'
            else c :: getSubstitution matched before after r
        | [] => [c]
        end
      else c :: getSubstitution matched before after r
  end.

(** [s.replace(p, repl)] with a string pattern: first occurrence only. *)
Definition replace (s p repl : jsstring) : jsstring :=
  match findFirst p s with
  | Some (before, after) =>
      before ++ getSubstitution p before after repl ++ after
  | None => s
  end.

(** The class [\s] of regular expressions, which is also what
    [String.prototype.trim] strips (WhiteSpace and LineTerminator). *)
Definition isWhiteSpace (c : N) : bool :=
  ((9 <=? c) && (c <=? 13)) || (c =? 32) || (c =? 160) || (c =? 5760)
  || ((8192 <=? c) && (c <=? 8202)) || (c =? 8232) || (c =? 8233)
  || (c =? 8239) || (c =? 8287) || (c =? 12288) || (c =? 65279).

(** [s.replace(/\s+/g, ' ')]: [inRun] tells that the previous unit was
    white space, whose run has already been replaced. *)
Fixpoint collapseFrom (inRun : bool) (s : jsstring) : jsstring :=
  match s with
  | [] => []
  | c :: r =>
      if isWhiteSpace c
      then (if inRun then collapseFrom true r else 32 :: collapseFrom true r)
      else c :: collapseFrom false r
  end.

Definition collapseWhiteSpace (s : jsstring) : jsstring :=
  collapseFrom false s.

Fixpoint trimStart (s : jsstring) : jsstring :=
  match s with
  | c :: r => if isWhiteSpace c then trimStart r else s
  | [] => []
  end.

Definition trimEnd (s : jsstring) : jsstring := rev (trimStart (rev s)).

Definition trim (s : jsstring) : jsstring := trimEnd (trimStart s).

(** [s.split(sep)] for a one-unit separator: never the empty array. *)
Fixpoint split (sep : N) (s : jsstring) : list jsstring :=
  match s with
  | [] => [[]]
  | c :: r =>
      if c =? sep then [] :: split sep r
      else match split sep r with
           | seg :: segs => (c :: seg) :: segs
           | [] => [[c]]
           end
  end.

Definition isDigit (c : N) : bool := (48 <=? c) && (c <=? 57).

Fixpoint takeWhile (p : N → bool) (s : jsstring) : jsstring :=
  match s with
  | c :: r => if p c then c :: takeWhile p r else []
  | [] => []
  end.

Fixpoint dropWhile (p : N → bool) (s : jsstring) : jsstring :=
  match s with
  | c :: r => if p c then dropWhile p r else s
  | [] => []
  end.

(** Decimal digits of a number and back. *)
Fixpoint uintDigits (d : Decimal.uint) : jsstring :=
  match d with
  | Nil => []
  | D0 r => 48 :: uintDigits r
  | D1 r => 49 :: uintDigits r
  | D2 r => 50 :: uintDigits r
  | D3 r => 51 :: uintDigits r
  | D4 r => 52 :: uintDigits r
  | D5 r => 53 :: uintDigits r
  | D6 r => 54 :: uintDigits r
  | D7 r => 55 :: uintDigits r
  | D8 r => 56 :: uintDigits r
  | D9 r => 57 :: uintDigits r
  end.

(** [n.toString()] for an integer [n]. *)
Definition toString (n : Z) : jsstring :=
  match Z.to_int n with
  | Decimal.Pos d => uintDigits d
  | Decimal.Neg d => 45 :: uintDigits d
  end.

(** [parseInt(s)] for a non-empty run of decimal digits [s] (the value
    itself; a JavaScript number holds it exactly below 2^53). *)
Definition parseInt (s : jsstring) : Z :=
  fold_left (λ acc c, 10 * acc + (Z.of_N c - 48))%Z s 0%Z.

(** [s.padStart(width, fill)] for a one-unit [fill]. *)
Definition padStart (s : jsstring) (width : nat) (fill : N) : jsstring :=
  replicate (width - length s) fill ++ s.

(** Truthiness of an optional number. *)
Definition truthy_num (o : option Z) : bool :=
  match o with Some n => negb (n =? 0)%Z | None => false end.

End JS.

Import JS.

(** ** Data model (the interfaces of ImportPage.tsx) *)

Module ParsedFilename.
Record t := mk {
  anime_title : jsstring;
  episode_number : option Z;
  season : option Z;
  group : option jsstring;
  resolution : option jsstring;
  video_codec : option jsstring;
  audio_codec : option jsstring
}.
End ParsedFilename.

Module AnimeInfo.
Record t := mk {
  title : jsstring;
  title_romaji : option jsstring;
  title_english : option jsstring;
  episode : option Z;
  season : option Z;
  year : option Z;
  format : option jsstring
}.
End AnimeInfo.

Module AniListResponse.
Record Title := mkTitle {
  romaji : option jsstring;
  english : option jsstring;
  native : option jsstring
}.
Record CoverImage := mkCover {
  large : option jsstring;
  medium : option jsstring
}.
Record t := mk {
  id : Z;
  title : Title;
  format : option jsstring;
  episodes : option Z;
  season_year : option Z;
  cover_image : option CoverImage
}.
End AniListResponse.

Module FileInfo.
Record t := mk {
  path : jsstring;
  name : jsstring;
  size : Z;
  file_type : jsstring;
  is_video : bool;
  is_subtitle : bool;
  parsed : option ParsedFilename.t;
  metadata : option AnimeInfo.t;
  new_name : option jsstring
}.

(** [file.parsed = p] *)
Definition set_parsed (p : ParsedFilename.t) (f : t) : t :=
  mk (path f) (name f) (size f) (file_type f) (is_video f) (is_subtitle f)
     (Some p) (metadata f) (new_name f).

(** [file.metadata = info; file.new_name = newName] *)
Definition set_plan (info : AnimeInfo.t) (newName : jsstring) (f : t) : t :=
  mk (path f) (name f) (size f) (file_type f) (is_video f) (is_subtitle f)
     (parsed f) (Some info) (Some newName).
End FileInfo.

(** The naming state of the page: the four templates and the two flags. *)
Module Naming.
Record t := mk {
  fileNameTemplate : jsstring;
  subtitleSuffix : jsstring;
  folderTemplate : jsstring;
  seasonFolderTemplate : jsstring;
  organizeBySeasons : bool;
  createAnimeFolders : bool
}.
End Naming.

(** An element of [videoFiles]: the file and its index in [updatedFiles]. *)
Record Indexed := mkIndexed {
  file : FileInfo.t;
  originalIndex : nat
}.

(** An element of [subtitleFiles]: the same with the extracted suffix. *)
Record Suffixed := mkSuffixed {
  item : Indexed;
  suffix : jsstring
}.

(** ** extractSubtitleSuffix and the grouping key *)

(** [extractSubtitleSuffix]: the second-to-last dot segment when the name has
    at least three segments, the empty string otherwise. *)
Definition extractSubtitleSuffix (filename : jsstring) : jsstring :=
  let parts := split 46 filename in
  if bool_decide (3 ≤ length parts)%nat
  then default [] (parts !! (length parts - 2)%nat)
  else [].

(** [item.suffix || 'default'] *)
Definition groupKeyOf (sfx : jsstring) : jsstring :=
  if truthy sfx then sfx else js "default".

(** The subtitle classifier: grouping key of a file name. *)
Definition classify (filename : jsstring) : jsstring :=
  groupKeyOf (extractSubtitleSuffix filename).

(** Property names every object literal inherits from [Object.prototype].
    [groups[suffix]] is truthy for them although the key was never stored. *)
Definition objectPrototypeKeys : list jsstring :=
  [ js "constructor"; js "hasOwnProperty"; js "isPrototypeOf";
    js "propertyIsEnumerable"; js "toLocaleString"; js "toString";
    js "valueOf"; js "__proto__"; js "__defineGetter__";
    js "__defineSetter__"; js "__lookupGetter__"; js "__lookupSetter__" ].

Definition inherited (key : jsstring) : bool :=
  bool_decide (key ∈ objectPrototypeKeys).

(** [groups[key].push(it)] on the own keys, kept in insertion order; a key
    not yet present is created with the one-element array. *)
Fixpoint pushGroup (key : jsstring) (it : Suffixed)
    (groups : list (jsstring * list Suffixed)) : list (jsstring * list Suffixed) :=
  match groups with
  | [] => [(key, [it])]
  | (k, members) :: rest =>
      if eqb k key then (k, members ++ [it]) :: rest
      else (k, members) :: pushGroup key it rest
  end.

(** One step of the [reduce] of lines 501-508.  For an inherited key the
    guard [!groups[suffix]] is false, no array is created, and
    [groups[suffix].push] is not a function: the call throws ([None]). *)
Definition groupStep (groups : list (jsstring * list Suffixed)) (it : Suffixed)
    : option (list (jsstring * list Suffixed)) :=
  let key := groupKeyOf (suffix it) in
  if inherited key then None else Some (pushGroup key it groups).

Fixpoint groupReduce (items : list Suffixed)
    (groups : list (jsstring * list Suffixed))
    : option (list (jsstring * list Suffixed)) :=
  match items with
  | [] => Some groups
  | it :: rest =>
      match groupStep groups it with
      | Some groups' => groupReduce rest groups'
      | None => None
      end
  end.

(** ** Regular-expression fallbacks *)

(** [name.match(/[Ss](\d+)/)]: the first capture of the leftmost match. *)
Fixpoint seasonMatch (s : jsstring) : option jsstring :=
  match s with
  | [] => None
  | c :: r =>
      if ((c =? 83) || (c =? 115))
         && match r with d :: _ => isDigit d | [] => false end
      then Some (takeWhile isDigit r)
      else seasonMatch r
  end.

Definition notClosing (c : N) : bool := negb (c =? 93).

(** [name.match(/\[([^\]]+)\]/)]: the first capture of the leftmost match. *)
Fixpoint groupMatch (s : jsstring) : option jsstring :=
  match s with
  | [] => None
  | c :: r =>
      if c =? 91 then
        match takeWhile notClosing r, dropWhile notClosing r with
        | (_ :: _) as body, _ :: _ => Some body
        | _, _ => groupMatch r
        end
      else groupMatch r
  end.

(** The variables [groupName] and [seasonNumber] of both loops of
    [applyMetadata] (lines 521-544 and 608-626).  The resolution match of
    the video loop (lines 535-537) has an empty body. *)
Definition techInfo (f : FileInfo.t) : option jsstring * option Z :=
  match FileInfo.parsed f with
  | Some p => (ParsedFilename.group p, ParsedFilename.season p)
  | None =>
      (groupMatch (FileInfo.name f),
       match seasonMatch (FileInfo.name f) with
       | Some digits => Some (parseInt digits)
       | None => None
       end)
  end.

(** ** Name generation *)

(** [animeData.title.romaji || animeData.title.english ||
     animeData.title.native || "Unknown"] *)
Definition displayTitle (animeData : AniListResponse.t) : jsstring :=
  let t := AniListResponse.title animeData in
  or_else (AniListResponse.romaji t)
    (or_else (AniListResponse.english t)
       (or_else (AniListResponse.native t) (js "Unknown"))).

(** The [animeInfo] object literal of lines 546-554 and 628-636. *)
Definition mkAnimeInfo (animeData : AniListResponse.t) (episodeNumber : Z)
    (seasonNumber : option Z) : AnimeInfo.t :=
  AnimeInfo.mk
    (displayTitle animeData)
    (AniListResponse.romaji (AniListResponse.title animeData))
    (AniListResponse.english (AniListResponse.title animeData))
    (Some episodeNumber)
    (Some (if truthy_num seasonNumber then default 1%Z seasonNumber else 1%Z))
    (AniListResponse.season_year animeData)
    (AniListResponse.format animeData).

(** Lines 560-587 (and 642-669): the placeholder substitutions followed by
    the white-space clean-up, applied to the starting template [newName]. *)
Definition fillTemplate (newName : jsstring) (animeInfo : AnimeInfo.t)
    (episodeNumber : Z) (seasonNumber : option Z) (groupName : option jsstring)
    : jsstring :=
  let newName := replace newName (js "{title}") (AnimeInfo.title animeInfo) in
  let newName := replace newName (js "{title_romaji}")
      (or_else (AnimeInfo.title_romaji animeInfo) (AnimeInfo.title animeInfo)) in
  let newName := replace newName (js "{title_english}")
      (or_else (AnimeInfo.title_english animeInfo) (AnimeInfo.title animeInfo)) in
  let newName := replace newName (js "{episode}")
      (padStart (toString episodeNumber) 2 48) in
  let newName := replace newName (js "{episode:02}")
      (padStart (toString episodeNumber) 2 48) in
  let newName := replace newName (js "{episode:03}")
      (padStart (toString episodeNumber) 3 48) in
  let newName :=
    if truthy_num seasonNumber
    then replace newName (js "{season}") (toString (default 1%Z seasonNumber))
    else replace newName (js "{season}") (js "1") in
  let newName :=
    if truthy_num (AnimeInfo.year animeInfo)
    then replace newName (js "{year}")
           (toString (default 0%Z (AnimeInfo.year animeInfo)))
    else replace newName (js "{year}") [] in
  let newName :=
    if truthy_opt groupName
    then replace newName (js "{group}") (default [] groupName)
    else replace newName (js "{group}") [] in
  trim (collapseWhiteSpace newName).

(** Lines 590-593 (and 678-681): the extension. *)
Definition withExtension (newName file_type : jsstring) : jsstring :=
  let newName := replace newName (js "{ext}") file_type in
  if endsWith newName (46 :: file_type) then newName
  else newName ++ 46 :: file_type.

(** The new name of a video file (lines 559-595), from the values of the
    loop variables. *)
Definition videoNewName (template : jsstring) (animeInfo : AnimeInfo.t)
    (episodeNumber : Z) (seasonNumber : option Z) (groupName : option jsstring)
    (file_type : jsstring) : jsstring :=
  withExtension
    (fillTemplate template animeInfo episodeNumber seasonNumber groupName)
    file_type.

(** The new name of a subtitle file of the group [key] (lines 641-683). *)
Definition subtitleNewName (template subtitleSuffix key : jsstring)
    (animeInfo : AnimeInfo.t) (episodeNumber : Z) (seasonNumber : option Z)
    (groupName : option jsstring) (file_type : jsstring) : jsstring :=
  let newName :=
    fillTemplate (template ++ subtitleSuffix) animeInfo episodeNumber
      seasonNumber groupName in
  let newName :=
    if truthy key && negb (eqb key (js "default"))
    then replace newName (js "{ext}") (key ++ js ".{ext}")
    else newName in
  withExtension newName file_type.

(** [list.forEach((x, i) => ...)] threading the state the callback mutates;
    [i] is the index of the first element. *)
Fixpoint forEachFrom {A St : Type} (body : St → A → nat → St) (l : list A)
    (i : nat) (s : St) : St :=
  match l with
  | [] => s
  | x :: r => forEachFrom body r (S i) (body s x i)
  end.

(** Code-unit order, an instance of a consistent comparison function used
    to run the planner on concrete inputs. *)
Fixpoint codeUnitCompare (a b : jsstring) : Z :=
  match a, b with
  | [], [] => 0%Z
  | [], _ :: _ => (-1)%Z
  | _ :: _, [] => 1%Z
  | c :: a', d :: b' =>
      if c <? d then (-1)%Z else if d <? c then 1%Z else codeUnitCompare a' b'
  end.

(** A consistent comparison function in the sense of ECMA-262 (23.1.3.30):
    its sign is antisymmetric and "not greater" is transitive. *)
Record Consistent (cmp : jsstring → jsstring → Z) : Prop := {
  cmp_flip : ∀ a b, (cmp a b < 0 ↔ 0 < cmp b a)%Z;
  cmp_trans : ∀ a b c, (cmp a b ≤ 0 → cmp b c ≤ 0 → cmp a c ≤ 0)%Z
}.

Section Planner.

(** [String.prototype.localeCompare] of the host. *)
Variable localeCompare : jsstring → jsstring → Z.

(** The backend command [parse_anime_filename]: the outcome of the call
    made in turn [i] of the loop of [parseFilenames], [None] for a rejected
    call. *)
Variable parse_anime_filename : nat → jsstring → option ParsedFilename.t.

(** [l.sort((a, b) => nameOf(a).localeCompare(nameOf(b)))]: the stable
    sort, which a consistent comparison function determines uniquely. *)
Fixpoint insertByName {A : Type} (nameOf : A → jsstring) (x : A)
    (l : list A) : list A :=
  match l with
  | [] => [x]
  | y :: r =>
      if (localeCompare (nameOf x) (nameOf y) <=? 0)%Z then x :: l
      else y :: insertByName nameOf x r
  end.

Definition sortByName {A : Type} (nameOf : A → jsstring) (l : list A)
    : list A :=
  foldr (insertByName nameOf) [] l.

Definition videoName (v : Indexed) : jsstring := FileInfo.name (file v).
Definition subtitleName (s : Suffixed) : jsstring :=
  FileInfo.name (file (item s)).

(** Lines 486-489. *)
Definition videoFiles (files : list FileInfo.t) : list Indexed :=
  sortByName videoName
    (filter (λ v, FileInfo.is_video (file v) = true)
       (imap (λ i f, mkIndexed f i) files)).

(** Lines 492-498. *)
Definition subtitleFiles (files : list FileInfo.t) : list Suffixed :=
  filter (λ s, FileInfo.is_subtitle (file (item s)) = true)
    (imap (λ i f, mkSuffixed (mkIndexed f i)
                    (extractSubtitleSuffix (FileInfo.name f))) files).

(** Lines 501-513: the groups with their members sorted, [None] when the
    reduce throws. *)
Definition subtitleGroups (files : list FileInfo.t)
    : option (list (jsstring * list Suffixed)) :=
  match groupReduce (subtitleFiles files) [] with
  | Some groups =>
      Some ((λ g, (g.1, sortByName subtitleName g.2)) <$> groups)
  | None => None
  end.

Variable naming : Naming.t.
Variable animeData : AniListResponse.t.

(** What one turn of the loop over the sorted videos computes (lines
    516-594): the [animeInfo] object and the new name. *)
Definition videoPlan (f : FileInfo.t) (sortedIndex : nat)
    : AnimeInfo.t * jsstring :=
  let episodeNumber := Z.of_nat (sortedIndex + 1) in
  let animeInfo := mkAnimeInfo animeData episodeNumber (techInfo f).2 in
  (animeInfo,
   videoNewName (Naming.fileNameTemplate naming) animeInfo episodeNumber
     (techInfo f).2 (techInfo f).1 (FileInfo.file_type f)).

(** Body of the loop over the sorted videos (lines 516-596). *)
Definition videoBody (updatedFiles : list FileInfo.t) (v : Indexed)
    (sortedIndex : nat) : list FileInfo.t :=
  let plan := videoPlan (file v) sortedIndex in
  alter (FileInfo.set_plan plan.1 plan.2) (originalIndex v) updatedFiles.

(** What one turn of the loop over the subtitle group [key] computes
    (lines 603-681). *)
Definition subtitlePlan (key : jsstring) (f : FileInfo.t) (groupIndex : nat)
    : AnimeInfo.t * jsstring :=
  let episodeNumber := Z.of_nat (groupIndex + 1) in
  let animeInfo := mkAnimeInfo animeData episodeNumber (techInfo f).2 in
  (animeInfo,
   subtitleNewName (Naming.fileNameTemplate naming)
     (Naming.subtitleSuffix naming) key animeInfo episodeNumber
     (techInfo f).2 (techInfo f).1 (FileInfo.file_type f)).

(** Body of the loop over one subtitle group (lines 603-685). *)
Definition subtitleBody (key : jsstring) (updatedFiles : list FileInfo.t)
    (s : Suffixed) (groupIndex : nat) : list FileInfo.t :=
  let plan := subtitlePlan key (file (item s)) groupIndex in
  alter (FileInfo.set_plan plan.1 plan.2) (originalIndex (item s))
    updatedFiles.

(** Lines 600-686: the groups one after the other. *)
Definition subtitlePass (groups : list (jsstring * list Suffixed))
    (updatedFiles : list FileInfo.t) : list FileInfo.t :=
  foldl (λ fs g, forEachFrom (subtitleBody g.1) g.2 0%nat fs)
    updatedFiles groups.

(** [applyMetadata]: the array handed to [setFiles], or [None] when the
    grouping throws, which happens before any file is written. *)
Definition applyMetadata (files : list FileInfo.t)
    : option (list FileInfo.t) :=
  match subtitleGroups files with
  | Some groups =>
      Some (subtitlePass groups
              (forEachFrom videoBody (videoFiles files) 0%nat files))
  | None => None
  end.

(** The working set after a call of [applyMetadata]. *)
Definition filesAfter (files : list FileInfo.t) : list FileInfo.t :=
  default files (applyMetadata files).

(** [updatedFiles.findIndex(pred)] *)
Fixpoint findIndex (pred : FileInfo.t → bool) (l : list FileInfo.t)
    : option nat :=
  match l with
  | [] => None
  | f :: r => if pred f then Some 0%nat else S <$> findIndex pred r
  end.

(** Turn [i] of the loop of [parseFilenames] (lines 391-411): a rejected
    parse is caught and leaves the array as it is. *)
Definition parseStep (updatedFiles : list FileInfo.t) (video : FileInfo.t)
    (i : nat) : list FileInfo.t :=
  match parse_anime_filename i (FileInfo.name video) with
  | Some parsed =>
      match findIndex (λ f, eqb (FileInfo.path f) (FileInfo.path video))
              updatedFiles with
      | Some fileIndex => alter (FileInfo.set_parsed parsed) fileIndex updatedFiles
      | None => updatedFiles
      end
  | None => updatedFiles
  end.

(** [parseFilenames] on an available backend: the array given to [setFiles]. *)
Definition parseFilenames (files : list FileInfo.t) : list FileInfo.t :=
  forEachFrom parseStep (filter (λ f, FileInfo.is_video f = true) files)
    0%nat files.

(** ** The rename map of [processFiles] *)

(** Lines 785-795. *)
Definition animeFolderName (animeInfo : AnimeInfo.t) : jsstring :=
  let animeFolder := Naming.folderTemplate naming in
  let animeFolder := replace animeFolder (js "{title}") (AnimeInfo.title animeInfo) in
  let animeFolder := replace animeFolder (js "{title_romaji}")
      (or_else (AnimeInfo.title_romaji animeInfo) (AnimeInfo.title animeInfo)) in
  let animeFolder := replace animeFolder (js "{title_english}")
      (or_else (AnimeInfo.title_english animeInfo) (AnimeInfo.title animeInfo)) in
  if truthy_num (AnimeInfo.year animeInfo)
  then replace animeFolder (js "{year}")
         (toString (default 0%Z (AnimeInfo.year animeInfo)))
  else replace (replace animeFolder (js " ({year})") []) (js "({year})") [].

(** Lines 801-804 (and 813-816). *)
Definition seasonFolderName (season : Z) : jsstring :=
  let seasonFolder := Naming.seasonFolderTemplate naming in
  let seasonFolder := replace seasonFolder (js "{season}") (toString season) in
  let seasonFolder := replace seasonFolder (js "{season:02}")
      (padStart (toString season) 2 48) in
  replace seasonFolder (js "{season:03}") (padStart (toString season) 3 48).

(** [file.metadata?.season] when it is truthy. *)
Definition knownSeason (f : FileInfo.t) : option Z :=
  match FileInfo.metadata f with
  | Some m => if truthy_num (AnimeInfo.season m) then AnimeInfo.season m else None
  | None => None
  end.

(** Lines 781-822: the target path of a file whose new name is [newName]. *)
Definition targetPath (animeInfo : AnimeInfo.t) (f : FileInfo.t)
    (newName : jsstring) : jsstring :=
  if Naming.createAnimeFolders naming then
    let targetPath := animeFolderName animeInfo in
    let targetPath :=
      match knownSeason f with
      | Some s =>
          if Naming.organizeBySeasons naming
          then targetPath ++ 47 :: seasonFolderName s
          else targetPath
      | None => targetPath
      end in
    targetPath ++ 47 :: newName
  else
    match knownSeason f with
    | Some s =>
        if Naming.organizeBySeasons naming
        then seasonFolderName s ++ 47 :: newName
        else newName
    | None => newName
    end.

(** [file.new_name] when it is truthy. *)
Definition plannedName (f : FileInfo.t) : option jsstring :=
  match FileInfo.new_name f with
  | Some n => if truthy n then Some n else None
  | None => None
  end.

(** Lines 769-835: [renameMap], keyed by source path. *)
Definition renameMap (files : list FileInfo.t) : gmap jsstring jsstring :=
  match list_find (λ f, is_Some (FileInfo.metadata f)) files with
  | Some (_, fileWithMetadata) =>
      match FileInfo.metadata fileWithMetadata with
      | Some animeInfo =>
          foldl (λ m f,
                   match plannedName f with
                   | Some n => <[FileInfo.path f := targetPath animeInfo f n]> m
                   | None => m
                   end) ∅ files
      | None => ∅
      end
  | None =>
      foldl (λ m f,
               match plannedName f with
               | Some n => <[FileInfo.path f := n]> m
               | None => m
               end) ∅ files
  end.

End Planner.

(** ** Notions used in the statements *)

(** [x] does not come after [y] in the order of the names. *)
Definition notAfter (cmp : jsstring → jsstring → Z) {A : Type}
    (nameOf : A → jsstring) (x y : A) : Prop :=
  (cmp (nameOf x) (nameOf y) ≤ 0)%Z.

(** The array stored under [key], empty when the key is not an own key. *)
Fixpoint membersOf (key : jsstring) (groups : list (jsstring * list Suffixed))
    : list Suffixed :=
  match groups with
  | [] => []
  | (k, members) :: rest => if eqb k key then members else membersOf key rest
  end.

(** No subtitle of the working set is grouped under a property name that
    object literals inherit: the grouping of [applyMetadata] does not throw. *)
Definition keysAccepted (files : list FileInfo.t) : bool :=
  forallb (λ f, negb (FileInfo.is_subtitle f
                      && inherited (classify (FileInfo.name f)))) files.

(** A freshly selected file, as [handleFileSelect] builds it (size 0, no
    parse hint, no plan yet), in the directory [/anime]. *)
Definition selected (name file_type : jsstring) (is_video is_subtitle : bool)
    : FileInfo.t :=
  FileInfo.mk (js "/anime/" ++ name) name 0%Z file_type is_video is_subtitle
    None None None.

(** A metadata candidate that only has a romaji title. *)
Definition candidate (romaji : jsstring) : AniListResponse.t :=
  AniListResponse.mk 1%Z (AniListResponse.mkTitle (Some romaji) None None)
    None None None None.

(** The naming state the page starts with (lines 106-116), with the
    file-name and folder templates given. *)
Definition namingWith (fileNameTemplate folderTemplate : jsstring) : Naming.t :=
  Naming.mk fileNameTemplate (js ".chs") folderTemplate (js "Season {season}")
    true true.

(** A cleaned name: its only white-space units are single spaces strictly
    inside the name. *)
Definition Cleaned (s : jsstring) : Prop :=
  (∀ c, c ∈ s → isWhiteSpace c = true → c = 32)
  ∧ (∀ i, s !! i = Some 32 → s !! S i ≠ Some 32)
  ∧ (∀ c, head s = Some c → isWhiteSpace c = false)
  ∧ (∀ c, last s = Some c → isWhiteSpace c = false).

(** Every white-space unit of [s] is a space that does not follow another
    white-space unit; [afterSpace] tells what precedes [s]. *)
Fixpoint spaced (afterSpace : bool) (s : jsstring) : Prop :=
  match s with
  | [] => True
  | c :: r =>
      (isWhiteSpace c = true → c = 32 ∧ afterSpace = false)
      ∧ spaced (isWhiteSpace c) r
  end.

(** A decimal numeral, possibly signed or zero-padded. *)
Definition numeral (s : jsstring) : Prop :=
  Forall (λ c, isDigit c = true ∨ c = 45) s.

(** [e] written with at least [width] digits, zeros in front. *)
Definition zeroPadded (width : nat) (e : Z) : jsstring :=
  replicate (width - length (toString e)) 48 ++ toString e.

(** A selected video that [parseFilenames] has given a parse hint with the
    episode number [episode] and nothing else. *)
Definition hinted (name file_type title : jsstring) (episode : Z) : FileInfo.t :=
  FileInfo.mk (js "/anime/" ++ name) name 0%Z file_type true false
    (Some (ParsedFilename.mk title (Some episode) None None None None None))
    None None.

(** The planned episode number of a file, when it has one. *)
Definition plannedEpisode (f : FileInfo.t) : option Z :=
  match FileInfo.metadata f with
  | Some info => AnimeInfo.episode info
  | None => None
  end.

(** The season policy, stated on its own: with a parse hint, the season of
    the hint; without one, the digits after the first S of the name that is
    followed by digits; 1 when that gives nothing or zero. *)
Definition assignedSeason (f : FileInfo.t) : Z :=
  match FileInfo.parsed f with
  | Some hint =>
      match ParsedFilename.season hint with
      | Some n => if (n =? 0)%Z then 1%Z else n
      | None => 1%Z
      end
  | None =>
      match seasonMatch (FileInfo.name f) with
      | Some digits =>
          if (parseInt digits =? 0)%Z then 1%Z else parseInt digits
      | None => 1%Z
      end
  end.

(** The release-group policy, stated on its own: with a parse hint, the
    group of the hint; without one, the first non-empty bracketed token of
    the name. *)
Definition assignedGroup (f : FileInfo.t) : option jsstring :=
  match FileInfo.parsed f with
  | Some hint => ParsedFilename.group hint
  | None => groupMatch (FileInfo.name f)
  end.

(** Two files with the same name and the same role. *)
Definition sameRole (f f' : FileInfo.t) : Prop :=
  FileInfo.name f = FileInfo.name f'
  ∧ FileInfo.is_video f = FileInfo.is_video f'
  ∧ FileInfo.is_subtitle f = FileInfo.is_subtitle f'.

(** Two files from which the loops of [applyMetadata] read the same values. *)
Definition sameInputs (f f' : FileInfo.t) : Prop :=
  sameRole f f'
  ∧ FileInfo.parsed f = FileInfo.parsed f'
  ∧ FileInfo.file_type f = FileInfo.file_type f'.

(** A plan for one file: nothing, or the two fields a loop writes. *)
Definition applyPlan (plan : option (AnimeInfo.t * jsstring)) (f : FileInfo.t)
    : FileInfo.t :=
  match plan with
  | Some (info, newName) => FileInfo.set_plan info newName f
  | None => f
  end.

(** The item of another working set at the same index. *)
Definition retarget (files' : list FileInfo.t) (v : Indexed) : Indexed :=
  mkIndexed (default (file v) (files' !! originalIndex v)) (originalIndex v).

Definition retargetSuffixed (files' : list FileInfo.t) (s : Suffixed)
    : Suffixed :=
  mkSuffixed (retarget files' (item s)) (suffix s).

(** The same groups over other items. *)
Definition mapGroups (h : Suffixed → Suffixed)
    (groups : list (jsstring * list Suffixed)) : list (jsstring * list Suffixed) :=
  (λ g : jsstring * list Suffixed, (g.1, h <$> g.2)) <$> groups.

(** A video after turn [sortedIndex] of the video loop, a subtitle after
    turn [groupIndex] of the loop of the group [key]. *)
Definition plannedVideo (naming : Naming.t) (animeData : AniListResponse.t)
    (f : FileInfo.t) (sortedIndex : nat) : FileInfo.t :=
  FileInfo.set_plan (videoPlan naming animeData f sortedIndex).1
    (videoPlan naming animeData f sortedIndex).2 f.

Definition plannedSubtitle (naming : Naming.t) (animeData : AniListResponse.t)
    (key : jsstring) (f : FileInfo.t) (groupIndex : nat) : FileInfo.t :=
  FileInfo.set_plan (subtitlePlan naming animeData key f groupIndex).1
    (subtitlePlan naming animeData key f groupIndex).2 f.

(** What turn [c] of [parseFilenames] does to the file it is about. *)
Definition hintOf (parse : nat → jsstring → option ParsedFilename.t)
    (v : Indexed) (c : nat) (f : FileInfo.t) : FileInfo.t :=
  match parse c (FileInfo.name (file v)) with
  | Some parsed => FileInfo.set_parsed parsed f
  | None => f
  end.

(** The videos of the working set with their indices, in array order. *)
Definition indexedVideos (files : list FileInfo.t) : list Indexed :=
  filter (λ v, FileInfo.is_video (file v) = true)
    (imap (λ i f, mkIndexed f i) files).

(** The index a subtitle item writes to. *)
Definition subtitleIndex (s : Suffixed) : nat := originalIndex (item s).

(** The target a file with the new name [n] is mapped to by [processFiles]:
    below the folder of the first file of the working set that has
    metadata, the bare new name when no file has any. *)
Definition targetOf (naming : Naming.t) (files : list FileInfo.t)
    (f : FileInfo.t) (n : jsstring) : jsstring :=
  match list_find (λ f, is_Some (FileInfo.metadata f)) files with
  | Some (_, fileWithMetadata) =>
      match FileInfo.metadata fileWithMetadata with
      | Some animeInfo => targetPath naming animeInfo f n
      | None => n
      end
  | None => n
  end.

(** The anime folder of a candidate: the folder template filled with the
    titles and the year of the candidate. *)
Definition animeFolderOf (naming : Naming.t) (animeData : AniListResponse.t)
    : jsstring :=
  animeFolderName naming (mkAnimeInfo animeData 1%Z None).

(** The directory part of the target of a planned file. *)
Definition plannedFolder (naming : Naming.t) (animeData : AniListResponse.t)
    (f : FileInfo.t) : jsstring :=
  (if Naming.createAnimeFolders naming
   then animeFolderOf naming animeData ++ [47] else [])
  ++ (if Naming.organizeBySeasons naming
      then seasonFolderName naming (assignedSeason f) ++ [47] else []).

(** [file.new_name = newName] *)
Definition set_new_name (newName : jsstring) (f : FileInfo.t) : FileInfo.t :=
  FileInfo.mk (FileInfo.path f) (FileInfo.name f) (FileInfo.size f)
    (FileInfo.file_type f) (FileInfo.is_video f) (FileInfo.is_subtitle f)
    (FileInfo.parsed f) (FileInfo.metadata f) (Some newName).

(** [editFileName] (lines 895-899): the assignment throws when [index] is
    not an index of the array, and the working set is then not replaced. *)
Definition editFileName (index : nat) (newName : jsstring)
    (files : list FileInfo.t) : option (list FileInfo.t) :=
  match files !! index with
  | Some _ => Some (alter (set_new_name newName) index files)
  | None => None
  end.

(** A file that one of the loops of [applyMetadata] visits. *)
Definition hasRole (f : FileInfo.t) : bool :=
  FileInfo.is_video f || FileInfo.is_subtitle f.

(** ** Intake of files: [handleFileSelect], [handleFiles], [removeFile] *)

(** The separators of the regular expression [/[/\\]/]. *)
Definition isPathSeparator (c : N) : bool := (c =? 47) || (c =? 92).

(** [s.split(re)] for a regular expression [re] that matches exactly the
    single units satisfying [isSep]: never the empty array. *)
Fixpoint splitWhere (isSep : N → bool) (s : jsstring) : list jsstring :=
  match s with
  | [] => [[]]
  | c :: r =>
      if isSep c then [] :: splitWhere isSep r
      else match splitWhere isSep r with
           | seg :: segs => (c :: seg) :: segs
           | [] => [[c]]
           end
  end.

(** [parts.join(sep)] *)
Definition join (sep : jsstring) (parts : list jsstring) : jsstring :=
  match parts with
  | [] => []
  | p :: rest => p ++ mjoin ((λ q, sep ++ q) <$> rest)
  end.

(** [parts.pop() || ''] *)
Definition popOrEmpty (parts : list jsstring) : jsstring :=
  default [] (last parts).

(** [path.split(/[/\\]/).pop() || ''] (line 257). *)
Definition baseName (path : jsstring) : jsstring :=
  popOrEmpty (splitWhere isPathSeparator path).

(** [path.split(/[/\\]/).slice(0, -1).join('/')] (line 748). *)
Definition sourceDir (path : jsstring) : jsstring :=
  let parts := splitWhere isPathSeparator path in
  join [47] (take (length parts - 1) parts).

Definition videoExtensions : list jsstring :=
  [js "mkv"; js "mp4"; js "avi"; js "mov"; js "mka"].

Definition subtitleExtensions : list jsstring :=
  [js "ass"; js "srt"; js "vtt"].

(** A dropped [File]: its name, its size and the path the webview may
    have attached to it. *)
Record DroppedFile := mkDropped {
  dropped_name : jsstring;
  dropped_size : Z;
  dropped_path : option jsstring
}.

Section Intake.

(** [String.prototype.toLowerCase] of the host. *)
Variable toLowerCase : jsstring → jsstring.

(** [name.split('.').pop()?.toLowerCase() || ''] (lines 258 and 289). *)
Definition extensionOf (name : jsstring) : jsstring :=
  match last (split 46 name) with
  | Some seg => if truthy (toLowerCase seg) then toLowerCase seg else []
  | None => []
  end.

(** The object literal of lines 262-269. *)
Definition fileOfPath (path : jsstring) : FileInfo.t :=
  let name := baseName path in
  let extension := extensionOf name in
  FileInfo.mk path name 0%Z extension
    (bool_decide (extension ∈ videoExtensions))
    (bool_decide (extension ∈ subtitleExtensions))
    None None None.

(** [handleFileSelect] (lines 238-281) once the dialog has answered:
    [None] for a cancelled dialog. *)
Definition handleFileSelect (selected : option (list jsstring))
    (prev : list FileInfo.t) : list FileInfo.t :=
  match selected with
  | Some (p :: ps) => prev ++ (fileOfPath <$> (p :: ps))
  | _ => prev
  end.

(** One turn of the loop of [handleFiles] (lines 288-311): what is pushed. *)
Definition acceptDropped (d : DroppedFile) : option FileInfo.t :=
  let extension := extensionOf (dropped_name d) in
  let is_video := bool_decide (extension ∈ videoExtensions) in
  let is_subtitle := bool_decide (extension ∈ subtitleExtensions) in
  if is_video || is_subtitle then
    let filePath := or_else (dropped_path d) [] in
    if truthy filePath
    then Some (FileInfo.mk filePath (dropped_name d) (dropped_size d)
                 extension is_video is_subtitle None None None)
    else None
  else None.

(** [handleFiles] (lines 285-319). *)
Definition handleFiles (fileList : list DroppedFile) (prev : list FileInfo.t)
    : list FileInfo.t :=
  match omap acceptDropped fileList with
  | [] => prev
  | newFiles => prev ++ newFiles
  end.

End Intake.

(** [removeFile] (lines 339-341): [prev.filter((_, i) => i !== index)]. *)
Definition removeFile (index : nat) (prev : list FileInfo.t)
    : list FileInfo.t :=
  (filter (λ x, x.1 ≠ index) (imap (λ i f, (i, f)) prev)).*2.

(** A path with every backslash turned into a slash. *)
Definition slashed (path : jsstring) : jsstring :=
  (λ c, if isPathSeparator c then 47 else c) <$> path.

(** Lower case of the letters A-Z, an instance of [toLowerCase] on ASCII
    names. *)
Definition asciiLower (s : jsstring) : jsstring :=
  (λ c, if (65 <=? c) && (c <=? 90) then c + 32 else c) <$> s.

(** ** The stored configuration: [loadConfig], [saveCurrentSettings],
    [autoSaveConfig] *)

(** The interface [AppConfig].  [subtitle_template] is optional;
    [create_anime_folders] is optional in what the backend may send, the
    page testing it with [!== false]. *)
Module AppConfig.
Record t := mk {
  output_directory : jsstring;
  naming_template : jsstring;
  subtitle_template : option jsstring;
  folder_template : jsstring;
  season_folder_template : jsstring;
  organize_by_season : bool;
  create_anime_folders : option bool;
  use_romaji_names : bool;
  create_season_folders : bool;
  anilist_enabled : bool;
  tmdb_enabled : bool;
  concurrent_limit : Z;
  log_level : jsstring
}.
End AppConfig.

(** [s.includes(p)] *)
Definition includes (s p : jsstring) : bool :=
  match findFirst p s with Some _ => true | None => false end.

(** [s.replace(/\{ext\}$/, '')]: the pattern can only match the last five
    units of [s]. *)
Definition stripExtPlaceholder (s : jsstring) : jsstring :=
  if endsWith s (js "{ext}") then take (length s - 5) s else s.

(** Lines 171-178 of [loadConfig]: the subtitle suffix taken from the
    stored templates. *)
Definition loadedSubtitleSuffix (appConfig : AppConfig.t) : jsstring :=
  let subtitleTemplate :=
    or_else (AppConfig.subtitle_template appConfig)
      (js "{title_romaji} - S{season}E{episode:02}.chs") in
  let baseTemplate := AppConfig.naming_template appConfig in
  if includes subtitleTemplate (stripExtPlaceholder baseTemplate)
  then
    let suffix :=
      replace subtitleTemplate (stripExtPlaceholder baseTemplate) [] in
    if truthy suffix then suffix else js ".chs"
  else js ".chs".

(** [loadConfig] (lines 155-194) on an answer of the backend: the naming
    state of the page. *)
Definition loadConfig (appConfig : AppConfig.t) : Naming.t :=
  Naming.mk
    (AppConfig.naming_template appConfig)
    (loadedSubtitleSuffix appConfig)
    (AppConfig.folder_template appConfig)
    (if truthy (AppConfig.season_folder_template appConfig)
     then AppConfig.season_folder_template appConfig
     else js "Season {season}")
    (AppConfig.organize_by_season appConfig)
    (match AppConfig.create_anime_folders appConfig with
     | Some false => false
     | _ => true
     end).

(** The object [updatedConfig] of [saveCurrentSettings] (lines 874-882) and,
    before the overrides, of [autoSaveConfig] (lines 952-961). *)
Definition savedConfig (config : AppConfig.t) (naming : Naming.t)
    (outputDir : option jsstring) : AppConfig.t :=
  AppConfig.mk
    (or_else outputDir (AppConfig.output_directory config))
    (Naming.fileNameTemplate naming)
    (Some (Naming.fileNameTemplate naming ++ Naming.subtitleSuffix naming))
    (Naming.folderTemplate naming)
    (Naming.seasonFolderTemplate naming)
    (Naming.organizeBySeasons naming)
    (AppConfig.create_anime_folders config)
    (AppConfig.use_romaji_names config)
    (AppConfig.create_season_folders config)
    (AppConfig.anilist_enabled config)
    (AppConfig.tmdb_enabled config)
    (AppConfig.concurrent_limit config)
    (AppConfig.log_level config).

(** The configuration [updateFileNameTemplate] stores (lines 902-906):
    [autoSaveConfig({ naming_template: template })], the other fields coming
    from the state of the render in which the template was edited. *)
Definition savedAfterTemplateEdit (config : AppConfig.t) (naming : Naming.t)
    (outputDir : option jsstring) (template : jsstring) : AppConfig.t :=
  let c := savedConfig config naming outputDir in
  AppConfig.mk
    (AppConfig.output_directory c)
    template
    (AppConfig.subtitle_template c)
    (AppConfig.folder_template c)
    (AppConfig.season_folder_template c)
    (AppConfig.organize_by_season c)
    (AppConfig.create_anime_folders c)
    (AppConfig.use_romaji_names c)
    (AppConfig.create_season_folders c)
    (AppConfig.anilist_enabled c)
    (AppConfig.tmdb_enabled c)
    (AppConfig.concurrent_limit c)
    (AppConfig.log_level c).

(** ** The search started by [parseFilenames] *)

(** Turn [i] of the loop of [parseFilenames] (lines 391-411) on the whole
    state of the loop: [updatedFiles], [parsedCount], [firstAnimeTitle]. *)
Definition parseTurn (parse : nat → jsstring → option ParsedFilename.t)
    (st : list FileInfo.t * nat * jsstring) (video : FileInfo.t) (i : nat)
    : list FileInfo.t * nat * jsstring :=
  let '(updatedFiles, parsedCount, firstAnimeTitle) := st in
  match parse i (FileInfo.name video) with
  | Some parsed =>
      match findIndex (λ f, eqb (FileInfo.path f) (FileInfo.path video))
              updatedFiles with
      | Some fileIndex =>
          (alter (FileInfo.set_parsed parsed) fileIndex updatedFiles,
           S parsedCount,
           if negb (truthy firstAnimeTitle)
              && truthy (ParsedFilename.anime_title parsed)
           then ParsedFilename.anime_title parsed
           else firstAnimeTitle)
      | None => st
      end
  | None => st
  end.

(** The loop of lines 391-411 from its initial state. *)
Definition parseRun (parse : nat → jsstring → option ParsedFilename.t)
    (files : list FileInfo.t) : list FileInfo.t * nat * jsstring :=
  forEachFrom (parseTurn parse)
    (filter (λ f, FileInfo.is_video f = true) files) 0%nat
    (files, 0%nat, []).

(** Lines 416-422: the title [searchAnimeMetadata] is called with, [None]
    when no search is started. *)
Definition searchedTitle (parse : nat → jsstring → option ParsedFilename.t)
    (files : list FileInfo.t) : option jsstring :=
  let '(_, parsedCount, firstAnimeTitle) := parseRun parse files in
  if bool_decide (0 < parsedCount)%nat && truthy firstAnimeTitle
  then Some firstAnimeTitle
  else None.

(** The titles of the accepted parses, in the order of the calls; [i] is
    the turn of the first video. *)
Fixpoint parsedTitles (parse : nat → jsstring → option ParsedFilename.t)
    (videos : list FileInfo.t) (i : nat) : list jsstring :=
  match videos with
  | [] => []
  | video :: rest =>
      match parse i (FileInfo.name video) with
      | Some parsed =>
          ParsedFilename.anime_title parsed :: parsedTitles parse rest (S i)
      | None => parsedTitles parse rest (S i)
      end
  end.

(** ** Handlers that plan again: [selectAnimeMetadata],
    [updateFileNameTemplate] *)

(** The part of the page state these handlers read and write.  A state
    setter takes effect with the next render: the rest of the handler, and
    the [applyMetadata] it calls, still read the state of the render the
    handler belongs to. *)
Module Page.
Record t := mk {
  naming : Naming.t;
  files : list FileInfo.t;
  selectedAnimeId : option Z;
  animeSearchResults : list AniListResponse.t
}.
End Page.

(** [animeSearchResults.find(anime => anime.id === animeId)] *)
Definition findAnime (results : list AniListResponse.t) (animeId : Z)
    : option AniListResponse.t :=
  snd <$> list_find (λ anime, AniListResponse.id anime = animeId) results.

(** [setFileNameTemplate(template)] *)
Definition setFileNameTemplate (template : jsstring) (naming : Naming.t)
    : Naming.t :=
  Naming.mk template (Naming.subtitleSuffix naming)
    (Naming.folderTemplate naming) (Naming.seasonFolderTemplate naming)
    (Naming.organizeBySeasons naming) (Naming.createAnimeFolders naming).

Section Handlers.

Variable localeCompare : jsstring → jsstring → Z.

(** [selectAnimeMetadata] (lines 720-726): the state of the next render. *)
Definition selectAnimeMetadata (animeId : Z) (st : Page.t) : Page.t :=
  match findAnime (Page.animeSearchResults st) animeId with
  | Some selected =>
      Page.mk (Page.naming st)
        (filesAfter localeCompare (Page.naming st) selected (Page.files st))
        (Some animeId) (Page.animeSearchResults st)
  | None => st
  end.

(** [updateFileNameTemplate] (lines 902-915): the state of the next
    render.  The call of [applyMetadata] reads the template of the current
    render. *)
Definition updateFileNameTemplate (template : jsstring) (st : Page.t)
    : Page.t :=
  Page.mk (setFileNameTemplate template (Page.naming st))
    (match Page.selectedAnimeId st with
     | Some animeId =>
         match findAnime (Page.animeSearchResults st) animeId with
         | Some selected =>
             filesAfter localeCompare (Page.naming st) selected
               (Page.files st)
         | None => Page.files st
         end
     | None => Page.files st
     end)
    (Page.selectedAnimeId st) (Page.animeSearchResults st).

(** [searchAnimeMetadata] (lines 432-459) once the backend has answered
    with [results]: the first result is selected and applied. *)
Definition searchAnimeMetadata (results : list AniListResponse.t)
    (st : Page.t) : Page.t :=
  match results with
  | first :: _ =>
      Page.mk (Page.naming st)
        (filesAfter localeCompare (Page.naming st) first (Page.files st))
        (Some (AniListResponse.id first)) results
  | [] =>
      Page.mk (Page.naming st) (Page.files st) (Page.selectedAnimeId st)
        results
  end.

End Handlers.

(** ** [truncateText] (utils/formatters) *)

(** [truncateText(text, maxLength)] for an integer [maxLength]:
    [substring] clamps a negative end to 0. *)
Definition truncateText (text : jsstring) (maxLength : Z) : jsstring :=
  if (Z.of_nat (length text) <=? maxLength)%Z then text
  else take (Z.to_nat maxLength) text ++ js "...".

(** ** [handleManualSearch] *)

(** Lines 462-469: the query handed to [searchAnimeMetadata], [None] when
    the handler refuses the input. *)
Definition manualSearchQuery (input : jsstring) : option jsstring :=
  if truthy (trim input) then Some (trim input) else None.

(** The naming state with another season-folder template. *)
Definition setSeasonFolderTemplate (template : jsstring) (naming : Naming.t)
    : Naming.t :=
  Naming.mk (Naming.fileNameTemplate naming) (Naming.subtitleSuffix naming)
    (Naming.folderTemplate naming) template
    (Naming.organizeBySeasons naming) (Naming.createAnimeFolders naming).

(** Two files that differ at most in the plan ([metadata], [new_name]). *)
Definition samePlanless (f f' : FileInfo.t) : Prop :=
  FileInfo.path f' = FileInfo.path f
  ∧ FileInfo.name f' = FileInfo.name f
  ∧ FileInfo.size f' = FileInfo.size f
  ∧ FileInfo.file_type f' = FileInfo.file_type f
  ∧ FileInfo.is_video f' = FileInfo.is_video f
  ∧ FileInfo.is_subtitle f' = FileInfo.is_subtitle f
  ∧ FileInfo.parsed f' = FileInfo.parsed f.

(** Two files that differ at most in the parse hint. *)
Definition sameUnparsed (f f' : FileInfo.t) : Prop :=
  FileInfo.path f' = FileInfo.path f
  ∧ FileInfo.name f' = FileInfo.name f
  ∧ FileInfo.size f' = FileInfo.size f
  ∧ FileInfo.file_type f' = FileInfo.file_type f
  ∧ FileInfo.is_video f' = FileInfo.is_video f
  ∧ FileInfo.is_subtitle f' = FileInfo.is_subtitle f
  ∧ FileInfo.metadata f' = FileInfo.metadata f
  ∧ FileInfo.new_name f' = FileInfo.new_name f.

(** A subtitle suffix without braces and white space, as ".chs". *)
Definition plainSuffix (sfx : jsstring) : Prop :=
  Forall (λ c, c ≠ 123 ∧ c ≠ 125 ∧ isWhiteSpace c = false) sfx.

(** The texts substituted for the title and group placeholders hold no
    dollar sign (which [String.prototype.replace] reads as a pattern). *)
Definition dollarFree (info : AnimeInfo.t) (groupName : option jsstring)
    : Prop :=
  (36 ∉ AnimeInfo.title info)
  ∧ (36 ∉ default [] (AnimeInfo.title_romaji info))
  ∧ (36 ∉ default [] (AnimeInfo.title_english info))
  ∧ (36 ∉ default [] groupName).

(** A comparison that does not tell the case of the ASCII letters apart, as
    the first level of a collation of the host: an instance of a consistent
    comparison function that is not the code-unit order. *)
Definition caseBlindCompare (a b : jsstring) : Z :=
  codeUnitCompare (asciiLower a) (asciiLower b).

(** * Properties *)

(** ** In-place updates performed by a [forEach] *)

Section ForEach.
Context {A B : Type} (idx : A → nat) (g : A → nat → B → B).

Implicit Types (l : list A) (s : list B).

Lemma forEachFrom_length l k0 s :
  length (forEachFrom (λ s x k, alter (g x k) (idx x) s) l k0 s) = length s.
Proof.
  revert k0 s. induction l as [|x l IH]; intros k0 s; simpl; [done|].
  rewrite IH. apply length_alter.
Qed.

Lemma forEachFrom_other l k0 s i :
  i ∉ idx <$> l →
  forEachFrom (λ s x k, alter (g x k) (idx x) s) l k0 s !! i = s !! i.
Proof.
  revert k0 s. induction l as [|x l IH]; intros k0 s Hi; simpl; [done|].
  rewrite fmap_cons in Hi. apply not_elem_of_cons in Hi as [Hne Hi].
  rewrite IH by done. by rewrite list_lookup_alter_ne.
Qed.

Lemma forEachFrom_hit l k0 s k x :
  NoDup (idx <$> l) → l !! k = Some x →
  forEachFrom (λ s x k, alter (g x k) (idx x) s) l k0 s !! idx x
  = g x (k0 + k)%nat <$> s !! idx x.
Proof.
  revert k0 s k. induction l as [|y l IH]; intros k0 s k Hnd Hk; [done|].
  rewrite fmap_cons in Hnd. apply NoDup_cons in Hnd as [Hy Hnd].
  destruct k as [|k]; simpl in *.
  - injection Hk as ->. rewrite forEachFrom_other by done.
    rewrite list_lookup_alter_eq. by rewrite Nat.add_0_r.
  - rewrite (IH (S k0) _ k) by done.
    assert (idx y ≠ idx x) as Hne.
    { intros Heq. apply Hy. rewrite Heq. apply list_elem_of_fmap_2.
      by eapply list_elem_of_lookup_2. }
    rewrite list_lookup_alter_ne by done.
    by replace (S k0 + k)%nat with (k0 + S k)%nat by lia.
Qed.
End ForEach.

(** ** The stable sort *)

Section Sorting.
Variable localeCompare : jsstring → jsstring → Z.
Context {A : Type} (nameOf : A → jsstring).

Lemma insertByName_perm x l :
  insertByName localeCompare nameOf x l ≡ₚ x :: l.
Proof.
  induction l as [|y l IH]; simpl; [done|].
  case_match; [done|]. rewrite IH. apply Permutation_swap.
Qed.

Lemma sortByName_perm l : sortByName localeCompare nameOf l ≡ₚ l.
Proof.
  induction l as [|x l IH]; simpl; [done|].
  rewrite insertByName_perm. by rewrite IH.
Qed.

Lemma sortByName_length l :
  length (sortByName localeCompare nameOf l) = length l.
Proof. apply Permutation_length, sortByName_perm. Qed.

Hypothesis consistent : Consistent localeCompare.

Lemma notAfter_total x y :
  ¬ notAfter localeCompare nameOf x y → notAfter localeCompare nameOf y x.
Proof.
  unfold notAfter. intros H.
  destruct consistent as [Hflip _].
  assert (0 < localeCompare (nameOf x) (nameOf y))%Z as H1 by lia.
  apply Hflip in H1. lia.
Qed.

Lemma notAfter_trans x y z :
  notAfter localeCompare nameOf x y →
  notAfter localeCompare nameOf y z →
  notAfter localeCompare nameOf x z.
Proof. unfold notAfter. destruct consistent as [_ Ht]. apply Ht. Qed.

Lemma insertByName_sorted x l :
  StronglySorted (notAfter localeCompare nameOf) l →
  StronglySorted (notAfter localeCompare nameOf) (insertByName localeCompare nameOf x l).
Proof.
  induction 1 as [|y l Hs IH Hall]; simpl.
  - repeat constructor.
  - destruct (Z.leb_spec (localeCompare (nameOf x) (nameOf y)) 0) as [Hle|Hgt].
    + constructor; [by constructor|].
      constructor; [done|].
      eapply Forall_impl; [exact Hall|].
      intros z Hz. by eapply notAfter_trans.
    + constructor; [done|].
      rewrite insertByName_perm. constructor; [|done].
      apply notAfter_total. unfold notAfter. lia.
Qed.

Lemma sortByName_sorted l :
  StronglySorted (notAfter localeCompare nameOf) (sortByName localeCompare nameOf l).
Proof.
  induction l as [|x l IH]; simpl; [constructor|].
  by apply insertByName_sorted.
Qed.
End Sorting.

(** ** The sorted videos and the subtitle groups *)

Lemma NoDup_fmap_filter {A B : Type} (f : A → B) (P : A → Prop)
    `{!∀ x, Decision (P x)} (l : list A) :
  NoDup (f <$> l) → NoDup (f <$> filter P l).
Proof.
  induction l as [|x l IH]; [done|].
  rewrite fmap_cons, NoDup_cons. intros [Hx Hnd].
  rewrite filter_cons. case_decide; [|by apply IH].
  rewrite fmap_cons, NoDup_cons. split; [|by apply IH].
  intros Hin. apply Hx. apply list_elem_of_fmap in Hin as (y & -> & Hy).
  apply list_elem_of_filter in Hy as [_ Hy]. by apply list_elem_of_fmap_2.
Qed.

Lemma set_plan_set_plan i1 n1 i2 n2 f :
  FileInfo.set_plan i1 n1 (FileInfo.set_plan i2 n2 f) = FileInfo.set_plan i1 n1 f.
Proof. by destruct f. Qed.

Section Groups.

Implicit Types (groups : list (jsstring * list Suffixed)) (key : jsstring).

Lemma eqb_true a b : eqb a b = true ↔ a = b.
Proof. unfold eqb. apply bool_decide_eq_true. Qed.

Lemma eqb_false a b : eqb a b = false ↔ a ≠ b.
Proof. unfold eqb. apply bool_decide_eq_false. Qed.

Lemma membersOf_push key k it groups :
  membersOf key (pushGroup k it groups) =
    if decide (key = k) then membersOf key groups ++ [it]
    else membersOf key groups.
Proof.
  induction groups as [|[k' m] groups IH]; simpl.
  - destruct (eqb k key) eqn:E.
    + apply eqb_true in E as ->. by rewrite decide_True.
    + apply eqb_false in E. by rewrite decide_False.
  - destruct (eqb k' k) eqn:E1; simpl.
    + apply eqb_true in E1 as ->.
      destruct (eqb k key) eqn:E2.
      * apply eqb_true in E2 as ->. by rewrite decide_True.
      * apply eqb_false in E2. by rewrite decide_False.
    + apply eqb_false in E1.
      destruct (eqb k' key) eqn:E2; [|done].
      apply eqb_true in E2 as ->. by rewrite decide_False.
Qed.

Lemma keys_push k it groups :
  (pushGroup k it groups).*1 =
    if decide (k ∈ groups.*1) then groups.*1 else groups.*1 ++ [k].
Proof.
  induction groups as [|[k' m] groups IH]; [done|].
  cbn [pushGroup]. rewrite fmap_cons. cbn [fst].
  destruct (eqb k' k) eqn:E; rewrite fmap_cons; cbn [fst].
  - apply eqb_true in E as ->. rewrite decide_True; [done|]. left.
  - apply eqb_false in E. rewrite IH.
    destruct (decide (k ∈ groups.*1)) as [Hin|Hout].
    + rewrite decide_True; [done|]. by right.
    + rewrite decide_False; [done|].
      intros [?|?]%elem_of_cons; congruence.
Qed.

Lemma keys_push_NoDup k it groups :
  NoDup groups.*1 → NoDup (pushGroup k it groups).*1.
Proof.
  intros Hnd. rewrite keys_push. case_decide; [done|].
  apply NoDup_app. split_and!; [done| |apply NoDup_singleton].
  intros x Hx ->%list_elem_of_singleton. done.
Qed.

Lemma concat_push k it groups :
  mjoin (pushGroup k it groups).*2 ≡ₚ it :: mjoin groups.*2.
Proof.
  induction groups as [|[k' m] groups IH]; simpl; [done|].
  destruct (eqb k' k); simpl.
  - rewrite <- (assoc_L (++)). simpl.
    by rewrite <- Permutation_middle.
  - rewrite IH. by rewrite <- Permutation_middle.
Qed.

Lemma membersOf_elem key members groups :
  NoDup groups.*1 → (key, members) ∈ groups → membersOf key groups = members.
Proof.
  induction groups as [|[k' m] groups IH]; simpl; intros Hnd Hin.
  - by apply elem_of_nil in Hin.
  - apply NoDup_cons in Hnd as [Hk Hnd].
    apply elem_of_cons in Hin as [Heq|Hin].
    + injection Heq as <- <-. by rewrite (proj2 (eqb_true _ _)).
    + destruct (eqb k' key) eqn:E.
      * apply eqb_true in E as ->. exfalso. apply Hk.
        by apply (list_elem_of_fmap_2 fst) in Hin.
      * by apply IH.
Qed.

Lemma groupReduce_Some items groups :
  Forall (λ s, inherited (groupKeyOf (suffix s)) = false) items →
  is_Some (groupReduce items groups).
Proof.
  revert groups. induction items as [|it items IH]; intros groups Hall; simpl.
  - by eexists.
  - apply Forall_cons in Hall as [Hit Hall].
    unfold groupStep. rewrite Hit. by apply IH.
Qed.

Lemma groupReduce_inv items groups groups' :
  groupReduce items groups = Some groups' →
  NoDup groups.*1 →
  NoDup groups'.*1
  ∧ mjoin groups'.*2 ≡ₚ items ++ mjoin groups.*2
  ∧ (∀ key, membersOf key groups' =
       membersOf key groups
       ++ filter (λ s, groupKeyOf (suffix s) = key) items)
  ∧ (∀ key, key ∈ groups'.*1 →
       key ∈ groups.*1 ∨ key ∈ (groupKeyOf ∘ suffix) <$> items).
Proof.
  revert groups. induction items as [|it items IH]; intros groups; simpl.
  - intros [= <-] Hnd. split_and!; [done|done| |by left].
    intros key. by rewrite filter_nil, (right_id_L [] (++)).
  - unfold groupStep.
    destruct (inherited (groupKeyOf (suffix it))); [done|].
    intros Hred Hnd.
    destruct (IH _ Hred (keys_push_NoDup _ _ _ Hnd)) as (H1 & H2 & H3 & H4).
    split_and!; [done| | |].
    + rewrite H2, concat_push. by rewrite <- Permutation_middle.
    + intros key. rewrite H3, membersOf_push, filter_cons.
      destruct (decide (key = groupKeyOf (suffix it))) as [->|Hne].
      * rewrite decide_True by done. by rewrite <- (assoc_L (++)).
      * by rewrite decide_False by done.
    + intros key Hk. destruct (H4 key Hk) as [Hk'|Hk'].
      * rewrite keys_push in Hk'. case_decide; [by left|].
        apply elem_of_app in Hk' as [?| ->%list_elem_of_singleton]; [by left|].
        right. simpl. apply elem_of_cons. by left.
      * right. simpl. apply elem_of_cons. by right.
Qed.

End Groups.

(** ** What [applyMetadata] writes, file by file *)

Section PlannerFacts.

Variable localeCompare : jsstring → jsstring → Z.
Variable naming : Naming.t.
Variable animeData : AniListResponse.t.

Implicit Types (files : list FileInfo.t) (v : Indexed) (s : Suffixed).

Lemma indexed_indices files :
  originalIndex <$> imap (λ i f, mkIndexed f i) files = seq 0 (length files).
Proof.
  rewrite fmap_imap.
  rewrite (imap_ext _ (λ i _, id i)) by done.
  rewrite imap_seq_0. apply list_fmap_id.
Qed.

Lemma suffixed_indices files :
  subtitleIndex <$> imap (λ i f, mkSuffixed (mkIndexed f i)
      (extractSubtitleSuffix (FileInfo.name f))) files
  = seq 0 (length files).
Proof.
  rewrite fmap_imap.
  rewrite (imap_ext _ (λ i _, id i)) by done.
  rewrite imap_seq_0. apply list_fmap_id.
Qed.

Lemma videoFiles_elem files v :
  v ∈ videoFiles localeCompare files ↔
  files !! originalIndex v = Some (file v) ∧ FileInfo.is_video (file v) = true.
Proof.
  unfold videoFiles. rewrite sortByName_perm, list_elem_of_filter.
  rewrite elem_of_lookup_imap. split.
  - intros [Hv (i & f & -> & Hf)]. done.
  - intros [Hl Hv]. split; [done|].
    exists (originalIndex v), (file v). by destruct v.
Qed.

Lemma videoFiles_NoDup files :
  NoDup (originalIndex <$> videoFiles localeCompare files).
Proof.
  unfold videoFiles. rewrite sortByName_perm.
  apply NoDup_fmap_filter. rewrite indexed_indices. apply NoDup_seq.
Qed.

Lemma subtitleFiles_elem files s :
  s ∈ subtitleFiles files ↔
  files !! subtitleIndex s = Some (file (item s))
  ∧ FileInfo.is_subtitle (file (item s)) = true
  ∧ suffix s = extractSubtitleSuffix (FileInfo.name (file (item s))).
Proof.
  unfold subtitleFiles. rewrite list_elem_of_filter, elem_of_lookup_imap. split.
  - intros [Hs (i & f & -> & Hf)]. done.
  - intros (Hl & Hs & Hx). split; [done|].
    exists (subtitleIndex s), (file (item s)). split; [|done].
    destruct s as [[f i] x]. simpl in *. by rewrite Hx.
Qed.

Lemma subtitleFiles_NoDup files :
  NoDup (subtitleIndex <$> subtitleFiles files).
Proof.
  unfold subtitleFiles.
  apply NoDup_fmap_filter. rewrite suffixed_indices. apply NoDup_seq.
Qed.

(** The video loop. *)
Lemma videoPass_hit files k v :
  videoFiles localeCompare files !! k = Some v →
  forEachFrom (videoBody naming animeData) (videoFiles localeCompare files)
    0%nat files !! originalIndex v
  = Some (plannedVideo naming animeData (file v) k).
Proof.
  intros Hk.
  assert (files !! originalIndex v = Some (file v)) as Hv.
  { by apply videoFiles_elem, list_elem_of_lookup_2 with k. }
  pose proof (forEachFrom_hit originalIndex
    (λ x j, FileInfo.set_plan (videoPlan naming animeData (file x) j).1
              (videoPlan naming animeData (file x) j).2)
    _ 0%nat files k v (videoFiles_NoDup files) Hk) as H.
  rewrite Hv in H. exact H.
Qed.

Lemma videoPass_other files i :
  (∀ f, files !! i = Some f → FileInfo.is_video f = false) →
  forEachFrom (videoBody naming animeData) (videoFiles localeCompare files)
    0%nat files !! i
  = files !! i.
Proof.
  intros Hi.
  apply (forEachFrom_other originalIndex
    (λ x j, FileInfo.set_plan (videoPlan naming animeData (file x) j).1
              (videoPlan naming animeData (file x) j).2)).
  intros (v & -> & Hv)%list_elem_of_fmap.
  apply videoFiles_elem in Hv as [Hl Hv].
  specialize (Hi _ Hl). congruence.
Qed.

(** The subtitle loops. *)
Lemma subtitlePass_cons key members groups files :
  subtitlePass naming animeData ((key, members) :: groups) files
  = subtitlePass naming animeData groups
      (forEachFrom (subtitleBody naming animeData key) members 0%nat files).
Proof. done. Qed.

Lemma subtitlePass_other groups files i :
  i ∉ subtitleIndex <$> mjoin groups.*2 →
  subtitlePass naming animeData groups files !! i = files !! i.
Proof.
  revert files. induction groups as [|[key members] groups IH];
    intros files Hi; [done|].
  rewrite fmap_cons in Hi. cbn [snd mjoin list_join] in Hi.
  rewrite fmap_app in Hi. apply not_elem_of_app in Hi as [Hm Hg].
  rewrite subtitlePass_cons, IH by done.
  by apply (forEachFrom_other subtitleIndex
    (λ x j, FileInfo.set_plan
              (subtitlePlan naming animeData key (file (item x)) j).1
              (subtitlePlan naming animeData key (file (item x)) j).2)).
Qed.

Lemma subtitlePass_hit groups files gi key members k s :
  NoDup (subtitleIndex <$> mjoin groups.*2) →
  groups !! gi = Some (key, members) →
  members !! k = Some s →
  subtitlePass naming animeData groups files !! subtitleIndex s
  = FileInfo.set_plan
      (subtitlePlan naming animeData key (file (item s)) k).1
      (subtitlePlan naming animeData key (file (item s)) k).2
    <$> files !! subtitleIndex s.
Proof.
  revert files gi. induction groups as [|[key' members'] groups IH];
    intros files gi Hnd Hg Hk; [done|].
  rewrite fmap_cons in Hnd. cbn [snd mjoin list_join] in Hnd.
  rewrite fmap_app in Hnd. apply NoDup_app in Hnd as (Hnd1 & Hdisj & Hnd2).
  rewrite subtitlePass_cons.
  destruct gi as [|gi]; simpl in Hg.
  - injection Hg as -> ->.
    rewrite subtitlePass_other.
    + pose proof (forEachFrom_hit subtitleIndex
        (λ x j, FileInfo.set_plan
                  (subtitlePlan naming animeData key (file (item x)) j).1
                  (subtitlePlan naming animeData key (file (item x)) j).2)
        members 0%nat files k s Hnd1 Hk) as H.
      exact H.
    + apply Hdisj. apply list_elem_of_fmap_2. by eapply list_elem_of_lookup_2.
  - rewrite (IH (forEachFrom (subtitleBody naming animeData key') members'
                    0%nat files) gi Hnd2 Hg Hk).
    rewrite (forEachFrom_other subtitleIndex
      (λ x j, FileInfo.set_plan
                (subtitlePlan naming animeData key' (file (item x)) j).1
                (subtitlePlan naming animeData key' (file (item x)) j).2));
      [done|].
    intros Hin. apply (Hdisj _ Hin).
    apply list_elem_of_fmap_2.
    apply list_elem_of_join. exists members. split.
    + by eapply list_elem_of_lookup_2.
    + apply (list_elem_of_fmap_2' snd _ (key, members)); [|done].
      by eapply list_elem_of_lookup_2.
Qed.

(** The groups: keys without repetition, every subtitle in the group of its
    key, each group sorted. *)
Lemma subtitleGroups_inv files G :
  subtitleGroups localeCompare files = Some G →
  NoDup G.*1
  ∧ mjoin G.*2 ≡ₚ subtitleFiles files
  ∧ ∀ key members, (key, members) ∈ G →
      members = sortByName localeCompare subtitleName
                  (filter (λ s, groupKeyOf (suffix s) = key)
                     (subtitleFiles files))
      ∧ members ≠ [].
Proof.
  unfold subtitleGroups.
  destruct (groupReduce (subtitleFiles files) []) as [raw|] eqn:Hred; [|done].
  intros HG. apply (inj Some) in HG. subst G.
  destruct (groupReduce_inv _ _ _ Hred (NoDup_nil_2)) as (H1 & H2 & H3 & H4).
  assert (((λ g, (g.1, sortByName localeCompare subtitleName g.2)) <$> raw).*1
          = raw.*1) as Hkeys.
  { rewrite <- list_fmap_compose. by apply list_fmap_ext. }
  split_and!.
  - by rewrite Hkeys.
  - rewrite <- (right_id_L [] (++) (subtitleFiles files)).
    change [] with (mjoin ([] : list (jsstring * list Suffixed)).*2).
    rewrite <- H2. clear.
    induction raw as [|[k m] raw IH]; [done|].
    rewrite !fmap_cons. cbn [fst snd mjoin list_join].
    fold (mjoin (M:=list) (A:=Suffixed)).
    by rewrite IH, sortByName_perm.
  - intros key members Hin.
    apply (list_elem_of_fmap_1 _ raw) in Hin as ([k m] & [= -> ->] & Hin).
    cbn [fst snd] in *.
    rewrite <- (membersOf_elem _ _ _ H1 Hin), H3. simpl. split; [done|].
    assert (k ∈ raw.*1) as Hk.
    { by apply (list_elem_of_fmap_2' fst _ (k, m)). }
    destruct (H4 k Hk) as [Hk'|Hk']; [by apply elem_of_nil in Hk'|].
    apply list_elem_of_fmap in Hk' as (s & Hs & Hin').
    intros Hnil. apply (f_equal length) in Hnil.
    rewrite sortByName_length in Hnil.
    assert (s ∈ filter (λ s, groupKeyOf (suffix s) = k) (subtitleFiles files))
      as Hf by (apply list_elem_of_filter; split; [by rewrite Hs|done]).
    destruct (filter _ _); [by apply elem_of_nil in Hf|done].
Qed.

Lemma keysAccepted_suffixes files :
  keysAccepted files = true →
  Forall (λ s, inherited (groupKeyOf (suffix s)) = false) (subtitleFiles files).
Proof.
  intros Hk. apply Forall_forall. intros s Hs.
  apply subtitleFiles_elem in Hs as (Hl & Hsub & Hx).
  unfold keysAccepted in Hk. rewrite forallb_forall in Hk.
  specialize (Hk (file (item s))).
  rewrite Hsub in Hk. unfold classify in Hk. rewrite <- Hx in Hk.
  apply negb_true_iff, Hk. apply list_elem_of_In.
  by eapply list_elem_of_lookup_2.
Qed.

Lemma subtitleGroups_accepted files :
  keysAccepted files = true → is_Some (subtitleGroups localeCompare files).
Proof.
  intros Hk. unfold subtitleGroups.
  destruct (groupReduce_Some (subtitleFiles files) []
              (keysAccepted_suffixes _ Hk)) as [raw ->].
  by eexists.
Qed.

Lemma applyMetadata_accepted files :
  keysAccepted files = true →
  is_Some (applyMetadata localeCompare naming animeData files).
Proof.
  intros Hk. unfold applyMetadata.
  destruct (subtitleGroups_accepted _ Hk) as [G ->]. by eexists.
Qed.

Lemma applyMetadata_rejected files :
  keysAccepted files = false →
  applyMetadata localeCompare naming animeData files = None.
Proof.
  intros Hk. unfold applyMetadata, subtitleGroups.
  destruct (groupReduce (subtitleFiles files) []) as [raw|] eqn:Hred; [|done].
  exfalso.
  unfold keysAccepted in Hk. apply not_true_iff_false in Hk. apply Hk.
  apply forallb_forall. intros f Hf%list_elem_of_In.
  apply list_elem_of_lookup_1 in Hf as [i Hi].
  destruct (FileInfo.is_subtitle f) eqn:Hsub; [|done]. simpl.
  apply negb_true_iff.
  destruct (inherited (classify (FileInfo.name f))) eqn:Hinh; [|done].
  exfalso.
  assert (mkSuffixed (mkIndexed f i) (extractSubtitleSuffix (FileInfo.name f))
          ∈ subtitleFiles files) as Hin.
  { apply subtitleFiles_elem. by split_and!. }
  clear Hk Hi Hsub. revert Hin Hred Hinh. generalize (subtitleFiles files).
  generalize ([] : list (jsstring * list Suffixed)).
  intros g l. revert g. induction l as [|it l IH]; intros g Hin.
  - by apply elem_of_nil in Hin.
  - simpl. unfold groupStep.
    destruct (inherited (groupKeyOf (suffix it))) eqn:E; [done|].
    apply elem_of_cons in Hin as [<-|Hin].
    + intros _. simpl in E. unfold classify. congruence.
    + by apply IH.
Qed.

(** A video that is not a subtitle keeps what the video loop wrote. *)
Lemma applyMetadata_video files files' k v :
  applyMetadata localeCompare naming animeData files = Some files' →
  videoFiles localeCompare files !! k = Some v →
  FileInfo.is_subtitle (file v) = false →
  files' !! originalIndex v = Some (plannedVideo naming animeData (file v) k).
Proof.
  unfold applyMetadata.
  destruct (subtitleGroups localeCompare files) as [G|] eqn:HG; [|done].
  intros [= <-] Hk Hsub.
  destruct (subtitleGroups_inv _ _ HG) as (_ & Hperm & _).
  rewrite subtitlePass_other; [by apply videoPass_hit|].
  rewrite Hperm. intros (s & Hi & Hs)%list_elem_of_fmap.
  apply subtitleFiles_elem in Hs as (Hl & Hs & _).
  assert (files !! originalIndex v = Some (file v)) as Hv.
  { by apply videoFiles_elem, list_elem_of_lookup_2 with k. }
  rewrite Hi, Hl in Hv. congruence.
Qed.

(** A subtitle ends with what the loop of its group wrote. *)
Lemma applyMetadata_subtitle files files' G gi key members k s :
  applyMetadata localeCompare naming animeData files = Some files' →
  subtitleGroups localeCompare files = Some G →
  G !! gi = Some (key, members) →
  members !! k = Some s →
  files' !! subtitleIndex s
  = Some (plannedSubtitle naming animeData key (file (item s)) k).
Proof.
  unfold applyMetadata. intros Happ HG Hgi Hk. rewrite HG in Happ.
  injection Happ as <-.
  destruct (subtitleGroups_inv _ _ HG) as (_ & Hperm & _).
  assert (s ∈ subtitleFiles files) as Hs.
  { rewrite <- Hperm. apply list_elem_of_join. exists members. split.
    - by eapply list_elem_of_lookup_2.
    - apply (list_elem_of_fmap_2' snd _ (key, members)); [|done].
      by eapply list_elem_of_lookup_2. }
  apply subtitleFiles_elem in Hs as (Hl & _ & _).
  rewrite (subtitlePass_hit _ _ gi key members k s); [|  |done|done].
  2:{ rewrite Hperm. apply subtitleFiles_NoDup. }
  destruct (FileInfo.is_video (file (item s))) eqn:Hvid.
  - assert (mkIndexed (file (item s)) (subtitleIndex s)
            ∈ videoFiles localeCompare files) as Hv by by apply videoFiles_elem.
    apply list_elem_of_lookup_1 in Hv as [kv Hkv].
    pose proof (videoPass_hit _ _ _ Hkv) as H. simpl in H. rewrite H. simpl.
    unfold plannedVideo, plannedSubtitle. by rewrite set_plan_set_plan.
  - rewrite videoPass_other; [by rewrite Hl|].
    intros f. rewrite Hl. by intros [= <-].
Qed.

(** A file that is neither a video nor a subtitle is not written. *)
Lemma applyMetadata_other files files' i f :
  applyMetadata localeCompare naming animeData files = Some files' →
  files !! i = Some f →
  FileInfo.is_video f = false →
  FileInfo.is_subtitle f = false →
  files' !! i = Some f.
Proof.
  unfold applyMetadata.
  destruct (subtitleGroups localeCompare files) as [G|] eqn:HG; [|done].
  intros [= <-] Hi Hvid Hsub.
  destruct (subtitleGroups_inv _ _ HG) as (_ & Hperm & _).
  rewrite subtitlePass_other.
  - rewrite videoPass_other; [done|]. intros f'. rewrite Hi. by intros [= <-].
  - rewrite Hperm. intros (s & -> & Hs)%list_elem_of_fmap.
    apply subtitleFiles_elem in Hs as (Hl & Hs & _). congruence.
Qed.

Lemma subtitlePass_length groups files :
  length (subtitlePass naming animeData groups files) = length files.
Proof.
  revert files. induction groups as [|[key members] groups IH]; intros files;
    [done|].
  rewrite subtitlePass_cons, IH.
  apply (forEachFrom_length subtitleIndex
    (λ x j, FileInfo.set_plan
              (subtitlePlan naming animeData key (file (item x)) j).1
              (subtitlePlan naming animeData key (file (item x)) j).2)).
Qed.

Lemma applyMetadata_length files files' :
  applyMetadata localeCompare naming animeData files = Some files' →
  length files' = length files.
Proof.
  unfold applyMetadata.
  destruct (subtitleGroups localeCompare files) as [G|]; [|done].
  intros [= <-]. rewrite subtitlePass_length.
  apply (forEachFrom_length originalIndex
    (λ x j, FileInfo.set_plan (videoPlan naming animeData (file x) j).1
              (videoPlan naming animeData (file x) j).2)).
Qed.

End PlannerFacts.

(** ** The suffix classifier *)

Lemma split_nonempty sep s : split sep s ≠ [].
Proof.
  destruct s as [|c r]; simpl; [done|].
  destruct (c =? sep); [done|]. by destruct (split sep r).
Qed.

Lemma split_no_sep sep s : sep ∉ s → split sep s = [s].
Proof.
  induction s as [|c r IH]; [done|].
  intros [Hc Hr]%not_elem_of_cons. simpl.
  destruct (N.eqb_spec c sep) as [->|_]; [done|]. by rewrite IH.
Qed.

Lemma split_app_sep sep a b :
  split sep (a ++ sep :: b) = split sep a ++ split sep b.
Proof.
  induction a as [|c a IH]; simpl.
  - by rewrite N.eqb_refl.
  - destruct (c =? sep); [by rewrite IH|].
    rewrite IH. pose proof (split_nonempty sep a).
    by destruct (split sep a).
Qed.

Lemma classify_two_dots stem seg ext :
  46 ∉ seg → 46 ∉ ext →
  classify (stem ++ 46 :: seg ++ 46 :: ext) = groupKeyOf seg.
Proof.
  intros Hseg Hext. unfold classify, extractSubtitleSuffix.
  rewrite !split_app_sep, (split_no_sep _ seg), (split_no_sep _ ext) by done.
  rewrite !length_app. cbn [length].
  assert (0 < length (split 46 stem))%nat as Hpos.
  { pose proof (split_nonempty 46 stem). destruct (split 46 stem); simpl; [done|lia]. }
  rewrite bool_decide_eq_true_2 by lia.
  replace (length (split 46 stem) + (1 + 1) - 2)%nat
    with (length (split 46 stem) + 0)%nat by lia.
  by rewrite lookup_app_r, Nat.add_comm, Nat.add_sub by lia.
Qed.

(** C4 (as amended): the grouping key of a name with at least two dots is its
    second-to-last dot segment when that segment is not empty, and the
    sentinel "default" when it is empty; a name with no dot or one dot (fewer
    than three segments) has the key "default". *)
Theorem classify_by_segments (stem seg ext : jsstring) :
  46 ∉ seg → 46 ∉ ext →
  classify (stem ++ 46 :: seg ++ 46 :: ext)
    = (if decide (seg = []) then js "default" else seg)
  ∧ classify (seg ++ 46 :: ext) = js "default"
  ∧ classify ext = js "default"
  ∧ classify (js "Show.ass") = js "default"
  ∧ classify (js "Show.chs.ass") = js "chs"
  ∧ classify (js "Show.chs.hi.ass") = js "hi".
Proof.
  intros Hseg Hext. split_and!; try reflexivity.
  - rewrite classify_two_dots by done. by destruct seg.
  - unfold classify, extractSubtitleSuffix.
    by rewrite split_app_sep, !split_no_sep by done.
  - unfold classify, extractSubtitleSuffix. by rewrite split_no_sep by done.
Qed.

Lemma classify_by_segments_witness :
  (46 ∉ js "chs") ∧ (46 ∉ js "ass")
  ∧ classify (js "Show" ++ 46 :: js "chs" ++ 46 :: js "ass") = js "chs".
Proof.
  assert (46 ∉ js "chs") as H1 by (apply (bool_decide_unpack _); by vm_compute).
  assert (46 ∉ js "ass") as H2 by (apply (bool_decide_unpack _); by vm_compute).
  split_and!; [done|done|].
  exact (proj1 (classify_by_segments (js "Show") (js "chs") (js "ass") H1 H2)).
Defined.

(** C4, the claim as stated fails: "Show..ass" splits into three segments,
    the second-to-last one is the empty string, and the key is "default". *)
Lemma classify_empty_segment :
  split 46 (js "Show..ass") = [js "Show"; []; js "ass"]
  ∧ classify (js "Show..ass") = js "default"
  ∧ classify (js "Show..ass") ≠ [].
Proof. by vm_compute. Qed.

(** ** The frame of [applyMetadata] *)

(** C10: a file that is neither a video nor a subtitle is left as it is, in
    every field, by [applyMetadata]. *)
Theorem applyMetadata_frame (localeCompare : jsstring → jsstring → Z)
    (naming : Naming.t) (animeData : AniListResponse.t)
    (files : list FileInfo.t) (i : nat) (f : FileInfo.t) :
  files !! i = Some f →
  FileInfo.is_video f = false →
  FileInfo.is_subtitle f = false →
  filesAfter localeCompare naming animeData files !! i = Some f.
Proof.
  intros Hi Hv Hs. unfold filesAfter.
  destruct (applyMetadata localeCompare naming animeData files) as [files'|]
    eqn:Happ; [|done].
  by eapply applyMetadata_other.
Qed.

Lemma applyMetadata_frame_witness :
  let files := [selected (js "B.mkv") (js "mkv") true false;
                selected (js "notes.txt") (js "txt") false false;
                selected (js "A.ass") (js "ass") false true] in
  filesAfter codeUnitCompare
    (namingWith (js "{title} - {episode}") (js "{title}"))
    (candidate (js "Example")) files !! 1%nat
  = Some (selected (js "notes.txt") (js "txt") false false).
Proof.
  intros files.
  exact (applyMetadata_frame codeUnitCompare _ _ files 1%nat _
           eq_refl eq_refl eq_refl).
Defined.

(** ** The anime folder *)

(** C8, the code at the failing input: without a year the parenthesised
    fragment is removed, but a bare year token stays in the folder name. *)
Theorem animeFolder_bare_year_kept :
  let info := AnimeInfo.mk (js "X") None None None None None None in
  animeFolderName (namingWith [] (js "{title} ({year})")) info = js "X"
  ∧ animeFolderName (namingWith [] (js "{title} {year}")) info = js "X {year}"
  ∧ animeFolderName (namingWith [] (js "{year} {title}")) info = js "{year} X".
Proof. by vm_compute. Qed.

(** ** White-space clean-up *)

Lemma collapseFrom_spaced b s : spaced b (collapseFrom b s).
Proof.
  revert b. induction s as [|c r IH]; intros b; simpl; [done|].
  destruct (isWhiteSpace c) eqn:Hc.
  - destruct b; [apply IH|]. simpl. split; [done|]. apply IH.
  - simpl. rewrite Hc. split; [done|]. apply IH.
Qed.

Lemma spaced_app_l b p t : spaced b (p ++ t) → spaced b p.
Proof.
  revert b. induction p as [|c p IH]; intros b; simpl; [done|].
  intros [H1 H2]. split; [done|]. by eapply IH.
Qed.

Lemma trimStart_split s :
  ∃ p, s = p ++ trimStart s ∧ Forall (λ c, isWhiteSpace c = true) p.
Proof.
  induction s as [|c r (p & Hp & Hall)]; simpl.
  - by exists [].
  - destruct (isWhiteSpace c) eqn:Hc.
    + exists (c :: p). split; [by rewrite Hp at 1|]. by constructor.
    + by exists [].
Qed.

Lemma trimStart_head s c : head (trimStart s) = Some c → isWhiteSpace c = false.
Proof.
  induction s as [|d r IH]; simpl; [done|].
  destruct (isWhiteSpace d) eqn:Hd; [done|]. simpl. congruence.
Qed.

Lemma trimStart_spaced b s : spaced b s → spaced false (trimStart s).
Proof.
  revert b. induction s as [|c r IH]; intros b; simpl; [done|].
  intros [H1 H2]. destruct (isWhiteSpace c) eqn:Hc.
  - by eapply IH.
  - simpl. rewrite Hc. split; [done|]. done.
Qed.

Lemma trimEnd_split s :
  ∃ t, s = trimEnd s ++ t ∧ Forall (λ c, isWhiteSpace c = true) t.
Proof.
  unfold trimEnd. destruct (trimStart_split (rev s)) as (p & Hp & Hall).
  exists (rev p). split.
  - rewrite <- rev_app_distr, <- Hp. by rewrite rev_involutive.
  - apply Forall_forall. intros c Hc. rewrite Forall_forall in Hall.
    apply Hall. apply list_elem_of_In, in_rev.
    by apply list_elem_of_In.
Qed.

Lemma last_rev_head (s : jsstring) : last (rev s) = head s.
Proof.
  destruct s as [|c r]; [done|]. simpl. by rewrite last_snoc.
Qed.

Lemma trim_cleaned s : spaced false s → Cleaned (trim s).
Proof.
  intros Hs. unfold trim.
  pose proof (trimStart_spaced _ _ Hs) as Ht.
  destruct (trimEnd_split (trimStart s)) as (t & Hsplit & _).
  assert (spaced false (trimEnd (trimStart s))) as Hsp.
  { rewrite Hsplit in Ht. by eapply spaced_app_l. }
  split_and!.
  - revert Hsp. generalize false. generalize (trimEnd (trimStart s)).
    intros l. induction l as [|d l IH]; intros b Hl c Hc Hws.
    + by apply elem_of_nil in Hc.
    + destruct Hl as [H1 H2]. apply elem_of_cons in Hc as [->|Hc].
      * by apply H1.
      * by eapply IH.
  - revert Hsp. generalize false. generalize (trimEnd (trimStart s)).
    intros l. induction l as [|d l IH]; intros b Hl i Hi Hi'; [done|].
    destruct Hl as [H1 H2]. destruct i as [|i]; simpl in *.
    + injection Hi as ->. destruct l as [|d' l]; [done|].
      simpl in Hi'. injection Hi' as ->.
      destruct H2 as [H2 _]. by destruct H2.
    + exact (IH _ H2 i Hi Hi').
  - intros c Hc. apply (trimStart_head s c).
    rewrite Hsplit. by destruct (trimEnd (trimStart s)).
  - intros c Hc. unfold trimEnd in Hc. rewrite last_rev_head in Hc.
    by eapply trimStart_head.
Qed.

Lemma fillTemplate_is_cleaned newName info e sn g :
  Cleaned (fillTemplate newName info e sn g).
Proof.
  unfold fillTemplate. apply trim_cleaned. apply collapseFrom_spaced.
Qed.

(** ** Placeholder substitution *)

Lemma startsWith_prefix s p : startsWith s p = true → ∃ t, s = p ++ t.
Proof.
  revert s. induction p as [|c p IH]; intros s; simpl.
  - intros _. by exists s.
  - destruct s as [|d s]; [done|].
    intros [Hc Hp]%andb_true_iff. apply N.eqb_eq in Hc as ->.
    destruct (IH _ Hp) as [t ->]. by exists t.
Qed.

Lemma startsWith_refl p : startsWith p p = true.
Proof. induction p as [|c p IH]; simpl; [done|]. by rewrite N.eqb_refl. Qed.

Lemma findFirst_unfold p s :
  findFirst p s =
    if startsWith s p then Some ([], drop (length p) s)
    else match s with
         | [] => None
         | c :: s' =>
             match findFirst p s' with
             | Some (before, after) => Some (c :: before, after)
             | None => None
             end
         end.
Proof. by destruct s. Qed.

Lemma findFirst_absent p s c :
  head p = Some c → c ∉ s → findFirst p s = None.
Proof.
  destruct p as [|c' p]; [done|]. intros [= ->].
  induction s as [|d s IH]; [done|].
  intros [Hd Hs]%not_elem_of_cons. rewrite findFirst_unfold.
  cbn [startsWith]. destruct (N.eqb_spec c d) as [->|_]; [done|].
  cbn [andb]. by rewrite IH.
Qed.

Lemma replace_miss s p r : findFirst p s = None → replace s p r = s.
Proof. unfold replace. by intros ->. Qed.

Lemma replace_absent s p r c : head p = Some c → c ∉ s → replace s p r = s.
Proof. intros Hp Hc. apply replace_miss. by eapply findFirst_absent. Qed.

Lemma replace_whole p r : replace p p r = getSubstitution p [] [] r.
Proof.
  unfold replace. rewrite findFirst_unfold, startsWith_refl.
  rewrite drop_all. simpl. by rewrite (right_id_L [] (++)).
Qed.

Lemma getSubstitution_plain m b a r : 36 ∉ r → getSubstitution m b a r = r.
Proof.
  induction r as [|c r IH]; [done|].
  intros [Hc Hr]%not_elem_of_cons. simpl.
  destruct (N.eqb_spec c 36) as [->|_]; [done|]. by rewrite IH.
Qed.

Lemma collapseFrom_plain b s :
  Forall (λ c, isWhiteSpace c = false) s → collapseFrom b s = s.
Proof.
  intros Hs. revert b.
  induction Hs as [|c s Hc Hs IH]; intros b; simpl; [done|]. by rewrite Hc, IH.
Qed.

Lemma trim_plain s : Forall (λ c, isWhiteSpace c = false) s → trim s = s.
Proof.
  intros Hs.
  assert (∀ t, Forall (λ c, isWhiteSpace c = false) t → trimStart t = t) as H.
  { intros t [|c t' Hc Ht]; simpl; [done|]. by rewrite Hc. }
  unfold trim, trimEnd. rewrite (H s Hs), H; [apply rev_involutive|].
  apply Forall_forall. intros c Hc%list_elem_of_In%in_rev%list_elem_of_In.
  rewrite Forall_forall in Hs. by apply Hs.
Qed.

Lemma endsWith_absent s t c : c ∉ s → endsWith s (c :: t) = false.
Proof.
  intros Hc. unfold endsWith. apply not_true_iff_false.
  intros [u Hu]%startsWith_prefix. apply Hc.
  apply list_elem_of_In, in_rev. rewrite Hu. simpl.
  apply in_or_app. left. apply in_or_app. right. by left.
Qed.

Lemma uintDigits_numeral d : numeral (uintDigits d).
Proof.
  unfold numeral. induction d; simpl; constructor; (done || by left).
Qed.

Lemma toString_numeral e : numeral (toString e).
Proof.
  unfold toString. destruct (Z.to_int e).
  - apply uintDigits_numeral.
  - constructor; [by right|apply uintDigits_numeral].
Qed.

Lemma zeroPadded_numeral w e : numeral (zeroPadded w e).
Proof.
  unfold zeroPadded. apply Forall_app. split; [|apply toString_numeral].
  apply Forall_replicate. by left.
Qed.

Lemma numeral_absent s c :
  numeral s → isDigit c = false → c ≠ 45 → c ∉ s.
Proof.
  intros Hs Hd Hm Hin. unfold numeral in Hs. rewrite Forall_forall in Hs.
  destruct (Hs _ Hin); congruence.
Qed.

Lemma numeral_no_space s : numeral s → Forall (λ c, isWhiteSpace c = false) s.
Proof.
  intros Hs. eapply Forall_impl; [exact Hs|]. clear Hs.
  intros c [Hc| ->]; [|done].
  unfold isDigit in Hc. apply andb_true_iff in Hc as [H1%N.leb_le H2%N.leb_le].
  unfold isWhiteSpace.
  repeat match goal with
         | |- context [?a <=? ?b] => destruct (N.leb_spec a b); try lia
         | |- context [?a =? ?b] => destruct (N.eqb_spec a b); try lia
         end; done.
Qed.

Lemma startsWith_app p t : startsWith (p ++ t) p = true.
Proof. induction p as [|c p IH]; simpl; [done|]. by rewrite N.eqb_refl. Qed.

(** The first occurrence: a pattern whose first unit does not occur before
    it is replaced where it stands. *)
Lemma replace_at_first pre p post r c :
  head p = Some c → c ∉ pre →
  replace (pre ++ p ++ post) p r
  = pre ++ getSubstitution p pre post r ++ post.
Proof.
  intros Hp Hc. unfold replace.
  assert (findFirst p (pre ++ p ++ post) = Some (pre, post)) as ->; [|done].
  induction pre as [|d pre IH].
  - rewrite findFirst_unfold. simpl. rewrite startsWith_app.
    by rewrite drop_app_length.
  - apply not_elem_of_cons in Hc as [Hd Hc].
    rewrite findFirst_unfold. destruct p as [|c' p]; [done|].
    injection Hp as ->. cbn [app startsWith].
    destruct (N.eqb_spec c d) as [->|_]; [done|].
    cbn [andb]. cbn [app] in IH. by rewrite IH.
Qed.

Lemma replace_numeral_at_first pre p post s :
  head p = Some 123 → 123 ∉ pre → numeral s →
  replace (pre ++ p ++ post) p s = pre ++ s ++ post.
Proof.
  intros Hp Hpre Hs. rewrite (replace_at_first _ _ _ _ 123) by done.
  rewrite getSubstitution_plain; [done|]. by apply numeral_absent.
Qed.

(** A numeral is left alone by the remaining substitutions and the clean-up. *)
Lemma numeral_settled s p r :
  numeral s → head p = Some 123 → replace s p r = s.
Proof.
  intros Hs Hp. apply (replace_absent _ _ _ 123); [done|].
  by apply numeral_absent.
Qed.

Lemma numeral_clean s : numeral s → trim (collapseWhiteSpace s) = s.
Proof.
  intros Hs%numeral_no_space. unfold collapseWhiteSpace.
  by rewrite collapseFrom_plain, trim_plain.
Qed.

Lemma numeral_substituted p s :
  numeral s → getSubstitution p [] [] s = s.
Proof. intros Hs. apply getSubstitution_plain. by apply numeral_absent. Qed.

Lemma fillTemplate_episode info e sn g :
  fillTemplate (js "{episode}") info e sn g = zeroPadded 2 e.
Proof.
  unfold fillTemplate. cbv zeta.
  rewrite (replace_miss (js "{episode}") (js "{title}")) by reflexivity.
  rewrite (replace_miss (js "{episode}") (js "{title_romaji}")) by reflexivity.
  rewrite (replace_miss (js "{episode}") (js "{title_english}")) by reflexivity.
  rewrite replace_whole. fold (zeroPadded 2 e).
  pose proof (zeroPadded_numeral 2 e) as Hn.
  rewrite numeral_substituted by done.
  rewrite !(numeral_settled (zeroPadded 2 e)) by done.
  destruct (truthy_num sn), (truthy_num (AnimeInfo.year info)), (truthy_opt g);
    rewrite !(numeral_settled (zeroPadded 2 e)) by done;
    by apply numeral_clean.
Qed.

Lemma fillTemplate_episode02 info e sn g :
  fillTemplate (js "{episode:02}") info e sn g = zeroPadded 2 e.
Proof.
  unfold fillTemplate. cbv zeta.
  rewrite (replace_miss (js "{episode:02}") (js "{title}")) by reflexivity.
  rewrite (replace_miss (js "{episode:02}") (js "{title_romaji}")) by reflexivity.
  rewrite (replace_miss (js "{episode:02}") (js "{title_english}")) by reflexivity.
  rewrite (replace_miss (js "{episode:02}") (js "{episode}")) by reflexivity.
  rewrite replace_whole. fold (zeroPadded 2 e).
  pose proof (zeroPadded_numeral 2 e) as Hn.
  rewrite numeral_substituted by done.
  rewrite !(numeral_settled (zeroPadded 2 e)) by done.
  destruct (truthy_num sn), (truthy_num (AnimeInfo.year info)), (truthy_opt g);
    rewrite !(numeral_settled (zeroPadded 2 e)) by done;
    by apply numeral_clean.
Qed.

Lemma fillTemplate_episode03 info e sn g :
  fillTemplate (js "{episode:03}") info e sn g = zeroPadded 3 e.
Proof.
  unfold fillTemplate. cbv zeta.
  rewrite (replace_miss (js "{episode:03}") (js "{title}")) by reflexivity.
  rewrite (replace_miss (js "{episode:03}") (js "{title_romaji}")) by reflexivity.
  rewrite (replace_miss (js "{episode:03}") (js "{title_english}")) by reflexivity.
  rewrite (replace_miss (js "{episode:03}") (js "{episode}")) by reflexivity.
  rewrite (replace_miss (js "{episode:03}") (js "{episode:02}")) by reflexivity.
  rewrite replace_whole. fold (zeroPadded 3 e).
  pose proof (zeroPadded_numeral 3 e) as Hn.
  rewrite numeral_substituted by done.
  destruct (truthy_num sn), (truthy_num (AnimeInfo.year info)), (truthy_opt g);
    rewrite !(numeral_settled (zeroPadded 3 e)) by done;
    by apply numeral_clean.
Qed.

Lemma fillTemplate_season info e sn g :
  fillTemplate (js "{season}") info e sn g
  = if truthy_num sn then toString (default 1%Z sn) else js "1".
Proof.
  unfold fillTemplate. cbv zeta.
  rewrite (replace_miss (js "{season}") (js "{title}")) by reflexivity.
  rewrite (replace_miss (js "{season}") (js "{title_romaji}")) by reflexivity.
  rewrite (replace_miss (js "{season}") (js "{title_english}")) by reflexivity.
  rewrite (replace_miss (js "{season}") (js "{episode}")) by reflexivity.
  rewrite (replace_miss (js "{season}") (js "{episode:02}")) by reflexivity.
  rewrite (replace_miss (js "{season}") (js "{episode:03}")) by reflexivity.
  destruct (truthy_num sn).
  - rewrite replace_whole.
    pose proof (toString_numeral (default 1%Z sn)) as Hn.
    rewrite numeral_substituted by done.
    destruct (truthy_num (AnimeInfo.year info)), (truthy_opt g);
      rewrite !(numeral_settled (toString _)) by done;
      by apply numeral_clean.
  - by destruct (truthy_num (AnimeInfo.year info)), (truthy_opt g).
Qed.

(** C3 (as amended): the bare episode placeholder and its 02 form are
    replaced by the episode number written with at least two digits, the 03
    form with at least three digits (zeros in front); the bare season
    placeholder is replaced by the season number as it is, without padding.
    This holds of the substitution steps on any template whose first brace
    opens the placeholder, and of the whole resolution of the placeholder
    alone.  Episode 5 gives "05" and "005"; season 1 gives "1". *)
Theorem numeric_placeholders (info : AnimeInfo.t) (e : Z) (sn : option Z)
    (g : option jsstring) (file_type pre post : jsstring) :
  (123 ∉ pre →
     replace (pre ++ js "{episode}" ++ post) (js "{episode}")
       (padStart (toString e) 2 48)
     = pre ++ zeroPadded 2 e ++ post
     ∧ replace (pre ++ js "{episode:02}" ++ post) (js "{episode:02}")
         (padStart (toString e) 2 48)
       = pre ++ zeroPadded 2 e ++ post
     ∧ replace (pre ++ js "{episode:03}" ++ post) (js "{episode:03}")
         (padStart (toString e) 3 48)
       = pre ++ zeroPadded 3 e ++ post
     ∧ replace (pre ++ js "{season}" ++ post) (js "{season}") (toString e)
       = pre ++ toString e ++ post)
  ∧ fillTemplate (js "{episode}") info e sn g = zeroPadded 2 e
  ∧ fillTemplate (js "{episode:02}") info e sn g = zeroPadded 2 e
  ∧ fillTemplate (js "{episode:03}") info e sn g = zeroPadded 3 e
  ∧ fillTemplate (js "{season}") info e sn g
    = (if truthy_num sn then toString (default 1%Z sn) else js "1")
  ∧ videoNewName (js "{episode}") info e sn g file_type
    = zeroPadded 2 e ++ 46 :: file_type
  ∧ zeroPadded 2 5 = js "05"
  ∧ zeroPadded 3 5 = js "005"
  ∧ zeroPadded 2 12 = js "12"
  ∧ fillTemplate (js "{season}") info e (Some 1%Z) g = js "1"
  ∧ fillTemplate (js "S{season}E{episode}") info 5 (Some 2%Z) None = js "S2E05".
Proof.
  split_and!; try reflexivity.
  - intros Hpre. split_and!.
    + apply replace_numeral_at_first; [done|done|apply zeroPadded_numeral].
    + apply replace_numeral_at_first; [done|done|apply zeroPadded_numeral].
    + apply replace_numeral_at_first; [done|done|apply zeroPadded_numeral].
    + apply replace_numeral_at_first; [done|done|apply toString_numeral].
  - apply fillTemplate_episode.
  - apply fillTemplate_episode02.
  - apply fillTemplate_episode03.
  - apply fillTemplate_season.
  - unfold videoNewName, withExtension. rewrite fillTemplate_episode.
    pose proof (zeroPadded_numeral 2 e) as Hn.
    rewrite numeral_settled by done.
    rewrite endsWith_absent; [done|]. by apply numeral_absent.
  - by rewrite fillTemplate_season.
  - by destruct info as [? ? ? ? ? [[|?|?]|] ?]; vm_compute.
Qed.

Lemma numeric_placeholders_witness :
  (123 ∉ js "Show - E")
  ∧ replace (js "Show - E" ++ js "{episode}" ++ js " [{group}]") (js "{episode}")
      (padStart (toString 5) 2 48)
    = js "Show - E" ++ js "05" ++ js " [{group}]".
Proof.
  assert (123 ∉ js "Show - E") as Hpre
    by (apply (bool_decide_unpack _); by vm_compute).
  split; [exact Hpre|].
  exact (proj1 (proj1 (numeric_placeholders
                         (mkAnimeInfo (candidate (js "X")) 5 None) 5 None None
                         (js "mkv") (js "Show - E") (js " [{group}]")) Hpre)).
Defined.

(** C3, the claim as stated fails: the bare season placeholder of season 1
    resolves to "1", not to the two-digit "01". *)
Lemma season_placeholder_not_padded :
  let info := mkAnimeInfo (candidate (js "X")) 5 (Some 1%Z) in
  fillTemplate (js "{season}") info 5 (Some 1%Z) None = js "1"
  ∧ fillTemplate (js "{season}") info 5 (Some 1%Z) None ≠ zeroPadded 2 1
  ∧ videoNewName (js "{season}") info 5 (Some 1%Z) None (js "mkv") = js "1.mkv".
Proof. by vm_compute. Qed.

(** C2, the code at the failing input.  The white space of every filled
    name is collapsed and the name trimmed, as the claim has it; but where
    the year is absent its placeholder alone is replaced by the empty
    string, and nothing removes the parentheses around it (lines 573-587,
    and 655-669 for a subtitle): "{title} ({year})" with title "X" and no
    year resolves to "X ()", the video is named "X ().mkv" and the subtitle
    "X ().chs.ass".  The folder name built by [processFiles] from the same
    template and the same metadata (lines 793-794) is "X". *)
Theorem absent_year_keeps_parentheses (e : Z) (sn : option Z)
    (g : option jsstring) :
  let info := mkAnimeInfo (candidate (js "X")) e sn in
  (∀ newName animeInfo, Cleaned (fillTemplate newName animeInfo e sn g))
  ∧ AnimeInfo.title info = js "X"
  ∧ AnimeInfo.year info = None
  ∧ fillTemplate (js "{title} ({year})") info e sn g = js "X ()"
  ∧ fillTemplate (js "{title} ({year})") info e sn g ≠ js "X"
  ∧ fillTemplate (js "  {title}   ({year}) ") info e sn g = js "X ()"
  ∧ videoNewName (js "{title} ({year})") info e sn g (js "mkv")
    = js "X ().mkv"
  ∧ subtitleNewName (js "{title} ({year})") (js ".chs") (js "default") info
      e sn g (js "ass")
    = js "X ().chs.ass"
  ∧ animeFolderName (namingWith [] (js "{title} ({year})")) info = js "X".
Proof.
  intros info. split; [intros; apply fillTemplate_is_cleaned|].
  subst info.
  by destruct sn as [[|?|?]|], g as [[|? ?]|]; vm_compute.
Qed.

(** ** Code-unit order is a consistent comparison *)

Lemma codeUnitCompare_consistent : Consistent codeUnitCompare.
Proof.
  split.
  - intros a. induction a as [|c a IH]; intros [|d b]; simpl; try lia.
    destruct (N.ltb_spec c d), (N.ltb_spec d c); try lia. apply IH.
  - intros a. induction a as [|c a IH]; intros [|d b] [|d' b']; simpl; try lia.
    destruct (N.ltb_spec c d), (N.ltb_spec d c), (N.ltb_spec d d'),
      (N.ltb_spec d' d), (N.ltb_spec c d'), (N.ltb_spec d' c);
      try lia. apply IH.
Qed.

Lemma caseBlindCompare_consistent : Consistent caseBlindCompare.
Proof.
  split.
  - intros a b. apply (cmp_flip _ codeUnitCompare_consistent).
  - intros a b c. apply (cmp_trans _ codeUnitCompare_consistent).
Qed.

(** ** Sequencing of the videos *)

Lemma plannedEpisode_video naming animeData f k :
  plannedEpisode
    (FileInfo.set_plan (videoPlan naming animeData f k).1
       (videoPlan naming animeData f k).2 f)
  = Some (Z.of_nat k + 1)%Z.
Proof. unfold plannedEpisode. simpl. f_equal. lia. Qed.


Lemma two_hinted_videos localeCompare naming animeData n1 n2 t1 t2 e1 e2 :
  (localeCompare n1 n2 ≤ 0)%Z →
  ∃ first second,
    applyMetadata localeCompare naming animeData
      [hinted n1 (js "mkv") t1 e1; hinted n2 (js "mkv") t2 e2]
    = Some [first; second]
    ∧ FileInfo.name first = n1 ∧ plannedEpisode first = Some 1%Z
    ∧ FileInfo.name second = n2 ∧ plannedEpisode second = Some 2%Z.
Proof.
  intros Hle.
  set (f1 := hinted n1 (js "mkv") t1 e1).
  set (f2 := hinted n2 (js "mkv") t2 e2).
  assert (videoFiles localeCompare [f1; f2]
          = [mkIndexed f1 0; mkIndexed f2 1]) as Hvid.
  { unfold videoFiles.
    change (filter _ (imap _ [f1; f2])) with [mkIndexed f1 0; mkIndexed f2 1].
    cbn [sortByName foldr insertByName].
    change (videoName (mkIndexed f1 0)) with n1.
    change (videoName (mkIndexed f2 1)) with n2.
    by destruct (Z.leb_spec (localeCompare n1 n2) 0); [|lia]. }
  destruct (applyMetadata_accepted localeCompare naming animeData [f1; f2]
              eq_refl) as [out Hout].
  pose proof (applyMetadata_length _ _ _ _ _ Hout) as Hlen.
  destruct out as [|first [|second [|? ?]]]; try done.
  exists first, second. split; [done|].
  pose proof (applyMetadata_video _ _ _ _ _ 0%nat _ Hout
                (eq_ind_r (λ l, l !! 0%nat = Some _) eq_refl Hvid) eq_refl)
    as H1.
  pose proof (applyMetadata_video _ _ _ _ _ 1%nat _ Hout
                (eq_ind_r (λ l, l !! 1%nat = Some _) eq_refl Hvid) eq_refl)
    as H2.
  simpl in H1, H2. injection H1 as ->. injection H2 as ->. done.
Qed.

Lemma two_hinted_videos_swapped localeCompare naming animeData
    n1 n2 t1 t2 e1 e2 :
  (0 < localeCompare n2 n1)%Z →
  ∃ second first,
    applyMetadata localeCompare naming animeData
      [hinted n2 (js "mkv") t2 e2; hinted n1 (js "mkv") t1 e1]
    = Some [second; first]
    ∧ FileInfo.name first = n1 ∧ plannedEpisode first = Some 1%Z
    ∧ FileInfo.name second = n2 ∧ plannedEpisode second = Some 2%Z.
Proof.
  intros Hgt.
  set (f1 := hinted n1 (js "mkv") t1 e1).
  set (f2 := hinted n2 (js "mkv") t2 e2).
  assert (videoFiles localeCompare [f2; f1]
          = [mkIndexed f1 1; mkIndexed f2 0]) as Hvid.
  { unfold videoFiles.
    change (filter _ (imap _ [f2; f1])) with [mkIndexed f2 0; mkIndexed f1 1].
    cbn [sortByName foldr insertByName].
    change (videoName (mkIndexed f1 1)) with n1.
    change (videoName (mkIndexed f2 0)) with n2.
    by destruct (Z.leb_spec (localeCompare n2 n1) 0); [lia|]. }
  destruct (applyMetadata_accepted localeCompare naming animeData [f2; f1]
              eq_refl) as [out Hout].
  pose proof (applyMetadata_length _ _ _ _ _ Hout) as Hlen.
  destruct out as [|second [|first [|? ?]]]; try done.
  exists second, first. split; [done|].
  pose proof (applyMetadata_video _ _ _ _ _ 0%nat _ Hout
                (eq_ind_r (λ l, l !! 0%nat = Some _) eq_refl Hvid) eq_refl)
    as H1.
  pose proof (applyMetadata_video _ _ _ _ _ 1%nat _ Hout
                (eq_ind_r (λ l, l !! 1%nat = Some _) eq_refl Hvid) eq_refl)
    as H2.
  simpl in H1, H2. injection H1 as ->. injection H2 as ->. done.
Qed.

(** C5 (as amended): on a working set on which the grouping of the
    subtitles does not throw, the videos are ordered by the comparison the
    host makes of their names ([localeCompare], a consistent comparison
    function), and the k-th video of that order (counting from 0) that is
    not flagged as a subtitle as well gets episode k + 1, whatever episode
    its parse hint carries.  Where the host puts "A.mkv" before "B.mkv", the
    working sets [B.mkv, A.mkv] and [A.mkv, B.mkv] (both files hinted with
    episode 7) get A.mkv as episode 1 and B.mkv as episode 2. *)
Theorem video_sequencing (localeCompare : jsstring → jsstring → Z)
    (naming : Naming.t) (animeData : AniListResponse.t)
    (files : list FileInfo.t) :
  Consistent localeCompare →
  keysAccepted files = true →
  ∃ files',
    applyMetadata localeCompare naming animeData files = Some files'
    ∧ (∀ v, v ∈ videoFiles localeCompare files ↔
            files !! originalIndex v = Some (file v)
            ∧ FileInfo.is_video (file v) = true)
    ∧ NoDup (originalIndex <$> videoFiles localeCompare files)
    ∧ StronglySorted
        (λ x y, (localeCompare (FileInfo.name (file x))
                   (FileInfo.name (file y)) ≤ 0)%Z)
        (videoFiles localeCompare files)
    ∧ (∀ k v, videoFiles localeCompare files !! k = Some v →
          FileInfo.is_subtitle (file v) = false →
          ∃ f', files' !! originalIndex v = Some f'
                ∧ FileInfo.path f' = FileInfo.path (file v)
                ∧ plannedEpisode f' = Some (Z.of_nat k + 1)%Z)
    ∧ ((localeCompare (js "A.mkv") (js "B.mkv") < 0)%Z →
       (∃ b a,
          applyMetadata localeCompare naming animeData
            [hinted (js "B.mkv") (js "mkv") (js "B") 7;
             hinted (js "A.mkv") (js "mkv") (js "A") 7]
          = Some [b; a]
          ∧ FileInfo.name a = js "A.mkv" ∧ plannedEpisode a = Some 1%Z
          ∧ FileInfo.name b = js "B.mkv" ∧ plannedEpisode b = Some 2%Z)
       ∧ (∃ a b,
            applyMetadata localeCompare naming animeData
              [hinted (js "A.mkv") (js "mkv") (js "A") 7;
               hinted (js "B.mkv") (js "mkv") (js "B") 7]
            = Some [a; b]
            ∧ FileInfo.name a = js "A.mkv" ∧ plannedEpisode a = Some 1%Z
            ∧ FileInfo.name b = js "B.mkv" ∧ plannedEpisode b = Some 2%Z)).
Proof.
  intros Hcons Hkeys.
  destruct (applyMetadata_accepted localeCompare naming animeData files Hkeys)
    as [files' Happ].
  exists files'. split_and!; [done| | | | |].
  - apply videoFiles_elem.
  - apply videoFiles_NoDup.
  - exact (sortByName_sorted localeCompare videoName Hcons _).
  - intros k v Hk Hsub. eexists. split_and!.
    + by eapply applyMetadata_video.
    + done.
    + apply plannedEpisode_video.
  - intros Hab. split.
    + apply two_hinted_videos_swapped. by apply (cmp_flip _ Hcons).
    + apply two_hinted_videos. lia.
Qed.

Lemma video_sequencing_witness :
  let files := [hinted (js "B.mkv") (js "mkv") (js "B") 7;
                hinted (js "A.mkv") (js "mkv") (js "A") 7] in
  let naming := namingWith (js "{title} - {episode}") (js "{title}") in
  Consistent codeUnitCompare
  ∧ keysAccepted files = true
  ∧ (codeUnitCompare (js "A.mkv") (js "B.mkv") < 0)%Z
  ∧ ∃ b a,
      applyMetadata codeUnitCompare naming (candidate (js "Example")) files
      = Some [b; a]
      ∧ plannedEpisode a = Some 1%Z ∧ plannedEpisode b = Some 2%Z.
Proof.
  intros files naming.
  assert (codeUnitCompare (js "A.mkv") (js "B.mkv") < 0)%Z as Hab by reflexivity.
  split; [exact codeUnitCompare_consistent|]. split; [reflexivity|].
  split; [exact Hab|].
  destruct (video_sequencing codeUnitCompare naming (candidate (js "Example"))
              files codeUnitCompare_consistent eq_refl)
    as (files' & _ & _ & _ & _ & _ & Hex).
  destruct (proj1 (Hex Hab)) as (b & a & H & _ & Ha & _ & Hb).
  exists b, a. by split_and!.
Defined.

(** C5, the claim as stated fails: the order is the one the host makes, not
    the case-sensitive order of the code units.  Under a comparison that
    does not tell the case of the letters apart, "a.mkv" comes before
    "B.mkv" and gets episode 1, where the order of the code units has
    "B.mkv" first.  Nor is every working set numbered by the order of its
    videos: a video that is flagged as a subtitle as well is numbered with
    the subtitles of its group, and beside the subtitle "A.constructor.ass"
    the call ends before any video is numbered. *)
Lemma video_order_is_the_order_of_the_host :
  let files := [hinted (js "B.mkv") (js "mkv") (js "B") 7;
                hinted (js "a.mkv") (js "mkv") (js "a") 7] in
  let naming := namingWith (js "{title} - {episode}") (js "{title}") in
  Consistent caseBlindCompare
  ∧ (codeUnitCompare (js "B.mkv") (js "a.mkv") < 0)%Z
  ∧ (caseBlindCompare (js "a.mkv") (js "B.mkv") < 0)%Z
  ∧ FileInfo.name <$> files = [js "B.mkv"; js "a.mkv"]
  ∧ (fmap (M:=list) plannedEpisode
     <$> applyMetadata caseBlindCompare naming (candidate (js "Example"))
           files)
    = Some [Some 2%Z; Some 1%Z]
  ∧ (fmap (M:=list) FileInfo.new_name
     <$> applyMetadata caseBlindCompare naming (candidate (js "Example"))
           files)
    = Some [Some (js "Example - 02.mkv"); Some (js "Example - 01.mkv")]
  ∧ (fmap (M:=list) plannedEpisode
     <$> applyMetadata codeUnitCompare naming (candidate (js "Example"))
           [selected (js "A.mkv") (js "mkv") true false;
            selected (js "B.mkv") (js "mkv") true true])
    = Some [Some 1%Z; Some 1%Z]
  ∧ applyMetadata codeUnitCompare naming (candidate (js "Example"))
      [selected (js "A.mkv") (js "mkv") true false;
       selected (js "A.constructor.ass") (js "ass") false true]
    = None.
Proof.
  intros files naming.
  split; [exact caseBlindCompare_consistent|]. by vm_compute.
Qed.

(** ** Sequencing of the subtitles *)

Lemma filter_agree {A : Type} (P Q : A → Prop) `{!∀ x, Decision (P x)}
    `{!∀ x, Decision (Q x)} (l : list A) :
  (∀ x, x ∈ l → P x ↔ Q x) → filter P l = filter Q l.
Proof.
  induction l as [|x l IH]; intros Hagree; [done|].
  rewrite !filter_cons, IH by (intros y Hy; apply Hagree; by right).
  pose proof (Hagree x (list_elem_of_here _ _)) as Hx.
  destruct (decide (P x)), (decide (Q x)); tauto || done.
Qed.





(** ** Season and release group *)

Lemma takeWhile_dropWhile p s : takeWhile p s ++ dropWhile p s = s.
Proof.
  induction s as [|c r IH]; simpl; [done|].
  destruct (p c); simpl; [by rewrite IH|done].
Qed.

Lemma takeWhile_Forall p s : Forall (λ c, p c = true) (takeWhile p s).
Proof.
  induction s as [|c r IH]; simpl; [done|].
  destruct (p c) eqn:Hc; by constructor.
Qed.

Lemma dropWhile_head p s c : head (dropWhile p s) = Some c → p c = false.
Proof.
  induction s as [|d r IH]; simpl; [done|].
  destruct (p d) eqn:Hd; [done|]. simpl. congruence.
Qed.

(** What the season pattern captures: a non-empty run of digits right after
    an upper- or lower-case S. *)
Lemma seasonMatch_shape s digits :
  seasonMatch s = Some digits →
  ∃ pre c post,
    s = pre ++ c :: digits ++ post
    ∧ (c = 83 ∨ c = 115)
    ∧ digits ≠ []
    ∧ Forall (λ d, isDigit d = true) digits
    ∧ (∀ d, head post = Some d → isDigit d = false)
    ∧ seasonMatch pre = None.
Proof.
  induction s as [|c r IH]; simpl; [done|].
  destruct (((c =? 83) || (c =? 115))
            && match r with d :: _ => isDigit d | [] => false end) eqn:Hc.
  - intros [= <-]. apply andb_true_iff in Hc as [Hs Hd].
    exists [], c, (dropWhile isDigit r). split_and!.
    + simpl. by rewrite takeWhile_dropWhile.
    + apply orb_true_iff in Hs as [?%N.eqb_eq|?%N.eqb_eq]; auto.
    + destruct r as [|d r']; [done|]. simpl. by rewrite Hd.
    + apply takeWhile_Forall.
    + apply dropWhile_head.
    + done.
  - intros (pre & c' & post & -> & ? & ? & ? & ? & Hpre)%IH.
    exists (c :: pre), c', post. split_and!; try done.
    cbn [seasonMatch]. rewrite Hpre.
    destruct pre as [|d pre']; [by rewrite andb_false_r|].
    simpl in Hc. by rewrite Hc.
Qed.

(** What the group pattern captures: a non-empty text without closing
    bracket between an opening and a closing bracket. *)
Lemma groupMatch_shape s g :
  groupMatch s = Some g →
  ∃ pre post,
    s = pre ++ 91 :: g ++ 93 :: post ∧ g ≠ [] ∧ (93 ∉ g)
    ∧ groupMatch pre = None.
Proof.
  induction s as [|c r IH]; [done|]. cbn [groupMatch].
  destruct (c =? 91) eqn:Hc.
  - destruct (takeWhile notClosing r) as [|t ts] eqn:Ht.
    + intros (pre & post & -> & ? & ? & Hpre)%IH.
      exists (c :: pre), post. split_and!; try done.
      cbn [groupMatch]. rewrite Hc, Hpre.
      destruct pre as [|d pre']; [done|].
      simpl in Ht. simpl. by destruct (notClosing d).
    + destruct (dropWhile notClosing r) as [|x xs] eqn:Hd.
      * intros (pre & post & Hr & ? & ? & Hpre)%IH. exfalso.
        pose proof (takeWhile_Forall notClosing r) as Hall.
        pose proof (takeWhile_dropWhile notClosing r) as Hsplit.
        rewrite Hd, (right_id_L [] (++)) in Hsplit. rewrite Hsplit, Hr in Hall.
        rewrite Forall_forall in Hall.
        assert (notClosing 93 = true) as Hbad; [|done].
        apply Hall. apply elem_of_app. right. right.
        apply elem_of_app. right. left.
      * intros [= <-]. apply N.eqb_eq in Hc as ->.
        exists [], xs. split_and!; try done.
        -- pose proof (dropWhile_head notClosing r x) as Hx.
           rewrite Hd in Hx. specialize (Hx eq_refl).
           unfold notClosing in Hx. apply negb_false_iff, N.eqb_eq in Hx.
           subst x. simpl. f_equal.
           rewrite <- (takeWhile_dropWhile notClosing r) at 1.
           by rewrite Ht, Hd.
        -- intros Hin. pose proof (takeWhile_Forall notClosing r) as Hall.
           rewrite Ht, Forall_forall in Hall. by specialize (Hall _ Hin).
  - intros (pre & post & -> & ? & ? & Hpre)%IH.
    exists (c :: pre), post. split_and!; try done.
    cbn [groupMatch]. by rewrite Hc, Hpre.
Qed.

Lemma techInfo_group f : (techInfo f).1 = assignedGroup f.
Proof. unfold techInfo, assignedGroup. by destruct (FileInfo.parsed f). Qed.

Lemma techInfo_season f :
  (if truthy_num (techInfo f).2 then default 1%Z (techInfo f).2 else 1%Z)
  = assignedSeason f.
Proof.
  unfold techInfo, assignedSeason.
  destruct (FileInfo.parsed f) as [hint|]; simpl.
  - destruct (ParsedFilename.season hint) as [n|]; simpl; [|done].
    by destruct (n =? 0)%Z.
  - destruct (seasonMatch (FileInfo.name f)) as [digits|]; simpl; [|done].
    by destruct (parseInt digits =? 0)%Z.
Qed.

Lemma assignedSeason_nonzero f : assignedSeason f ≠ 0%Z.
Proof.
  unfold assignedSeason.
  repeat case_match; try done; by apply Z.eqb_neq.
Qed.

Lemma season_settled animeData e sn n :
  (if truthy_num sn then default 1%Z sn else 1%Z) = n →
  mkAnimeInfo animeData e sn = mkAnimeInfo animeData e (Some n)
  ∧ ∀ template info g,
      fillTemplate template info e sn g
      = fillTemplate template info e (Some n) g.
Proof.
  intros <-. destruct sn as [[|p|p]|]; done.
Qed.

Lemma videoPlan_policy naming animeData f k :
  let e := Z.of_nat (k + 1) in
  let info := mkAnimeInfo animeData e (Some (assignedSeason f)) in
  videoPlan naming animeData f k
  = (info,
     videoNewName (Naming.fileNameTemplate naming) info e
       (Some (assignedSeason f)) (assignedGroup f) (FileInfo.file_type f)).
Proof.
  intros e info. subst e info. unfold videoPlan, videoNewName.
  destruct (season_settled animeData (Z.of_nat (k + 1)) _ _ (techInfo_season f))
    as [-> ->].
  by rewrite techInfo_group.
Qed.

Lemma subtitlePlan_policy naming animeData key f k :
  let e := Z.of_nat (k + 1) in
  let info := mkAnimeInfo animeData e (Some (assignedSeason f)) in
  subtitlePlan naming animeData key f k
  = (info,
     subtitleNewName (Naming.fileNameTemplate naming)
       (Naming.subtitleSuffix naming) key info e
       (Some (assignedSeason f)) (assignedGroup f) (FileInfo.file_type f)).
Proof.
  intros e info. subst e info. unfold subtitlePlan, subtitleNewName.
  destruct (season_settled animeData (Z.of_nat (k + 1)) _ _ (techInfo_season f))
    as [-> ->].
  by rewrite techInfo_group.
Qed.

(** C7 (as amended): a file that has a parse hint takes season and group
    from the hint (season 1 when the hint has none or zero, no group when the
    hint has none) and its name is not scanned; only a file without any parse
    hint takes the digits after the first S followed by digits as season
    (else 1) and the first non-empty bracketed token as group (else none).
    These are the season stored with the file and the season and group its
    new name is generated from. *)
Theorem season_and_group_fallback (localeCompare : jsstring → jsstring → Z)
    (naming : Naming.t) (animeData : AniListResponse.t)
    (files files' : list FileInfo.t) (i : nat) (f : FileInfo.t) :
  applyMetadata localeCompare naming animeData files = Some files' →
  files !! i = Some f →
  FileInfo.is_video f = true ∨ FileInfo.is_subtitle f = true →
  ∃ k,
    let e := Z.of_nat (k + 1) in
    let info := mkAnimeInfo animeData e (Some (assignedSeason f)) in
    AnimeInfo.season info = Some (assignedSeason f)
    ∧ files' !! i
      = Some (FileInfo.set_plan info
                (if FileInfo.is_subtitle f
                 then subtitleNewName (Naming.fileNameTemplate naming)
                        (Naming.subtitleSuffix naming)
                        (classify (FileInfo.name f)) info e
                        (Some (assignedSeason f)) (assignedGroup f)
                        (FileInfo.file_type f)
                 else videoNewName (Naming.fileNameTemplate naming) info e
                        (Some (assignedSeason f)) (assignedGroup f)
                        (FileInfo.file_type f))
                f)
    ∧ (∀ hint, FileInfo.parsed f = Some hint →
         assignedGroup f = ParsedFilename.group hint
         ∧ (∀ n, ParsedFilename.season hint = Some n → n ≠ 0%Z →
              assignedSeason f = n)
         ∧ (ParsedFilename.season hint = None → assignedSeason f = 1%Z))
    ∧ (FileInfo.parsed f = None →
         assignedGroup f = groupMatch (FileInfo.name f)
         ∧ (∀ digits, seasonMatch (FileInfo.name f) = Some digits →
              parseInt digits ≠ 0%Z → assignedSeason f = parseInt digits)
         ∧ (seasonMatch (FileInfo.name f) = None → assignedSeason f = 1%Z))
    ∧ (∀ digits, seasonMatch (FileInfo.name f) = Some digits →
         ∃ pre c post,
           FileInfo.name f = pre ++ c :: digits ++ post
           ∧ (c = 83 ∨ c = 115)
           ∧ digits ≠ []
           ∧ Forall (λ d, isDigit d = true) digits
           ∧ (∀ d, head post = Some d → isDigit d = false)
           ∧ seasonMatch pre = None)
    ∧ (∀ g, groupMatch (FileInfo.name f) = Some g →
         ∃ pre post,
           FileInfo.name f = pre ++ 91 :: g ++ 93 :: post
           ∧ g ≠ [] ∧ (93 ∉ g) ∧ groupMatch pre = None).
Proof.
  intros Happ Hi Hrole.
  assert (∃ k, files' !! i
               = Some (FileInfo.set_plan
                   (mkAnimeInfo animeData (Z.of_nat (k + 1))
                      (Some (assignedSeason f)))
                   (if FileInfo.is_subtitle f
                    then subtitleNewName (Naming.fileNameTemplate naming)
                           (Naming.subtitleSuffix naming)
                           (classify (FileInfo.name f))
                           (mkAnimeInfo animeData (Z.of_nat (k + 1))
                              (Some (assignedSeason f)))
                           (Z.of_nat (k + 1))
                           (Some (assignedSeason f)) (assignedGroup f)
                           (FileInfo.file_type f)
                    else videoNewName (Naming.fileNameTemplate naming)
                           (mkAnimeInfo animeData (Z.of_nat (k + 1))
                              (Some (assignedSeason f)))
                           (Z.of_nat (k + 1))
                           (Some (assignedSeason f)) (assignedGroup f)
                           (FileInfo.file_type f))
                   f)) as [k Hk].
  { destruct (FileInfo.is_subtitle f) eqn:Hsub.
    - pose proof Happ as Happ'. unfold applyMetadata in Happ'.
      destruct (subtitleGroups localeCompare files) as [G|] eqn:HG; [|done].
      clear Happ'.
      destruct (subtitleGroups_inv _ _ _ HG) as (_ & Hperm & Hgroups).
      set (s := mkSuffixed (mkIndexed f i)
                  (extractSubtitleSuffix (FileInfo.name f))).
      assert (s ∈ subtitleFiles files) as Hs by by apply subtitleFiles_elem.
      rewrite <- Hperm in Hs.
      apply list_elem_of_join in Hs as (members & Hs & Hm).
      apply list_elem_of_fmap in Hm as ([key members'] & -> & Hin).
      simpl in Hs.
      assert (key = classify (FileInfo.name f)) as ->.
      { destruct (Hgroups _ _ Hin) as [Heq _].
        rewrite Heq, sortByName_perm in Hs.
        by apply list_elem_of_filter in Hs as [<- _]. }
      apply list_elem_of_lookup_1 in Hs as [k Hk].
      apply list_elem_of_lookup_1 in Hin as [gi Hgi].
      exists k.
      pose proof (applyMetadata_subtitle _ _ _ _ _ _ _ _ _ _ _ Happ HG Hgi Hk)
        as H.
      unfold plannedSubtitle in H. rewrite subtitlePlan_policy in H. exact H.
    - destruct Hrole as [Hvid|?]; [|done].
      assert (mkIndexed f i ∈ videoFiles localeCompare files) as Hv
        by by apply videoFiles_elem.
      apply list_elem_of_lookup_1 in Hv as [k Hk]. exists k.
      pose proof (applyMetadata_video _ _ _ _ _ _ _ Happ Hk Hsub) as H.
      unfold plannedVideo in H. rewrite videoPlan_policy in H. exact H. }
  exists k. cbv zeta. split_and!.
  - simpl. pose proof (assignedSeason_nonzero f) as Hnz.
    by destruct (assignedSeason f).
  - exact Hk.
  - intros hint Hhint. unfold assignedGroup, assignedSeason. rewrite Hhint.
    split_and!; [done| |by intros ->].
    intros n -> Hn. by apply Z.eqb_neq in Hn as ->.
  - intros Hnone. unfold assignedGroup, assignedSeason. rewrite Hnone.
    split_and!; [done| |by intros ->].
    intros digits -> Hn. by apply Z.eqb_neq in Hn as ->.
  - apply seasonMatch_shape.
  - apply groupMatch_shape.
Qed.

Lemma season_and_group_fallback_witness :
  let files := [selected (js "[Grp] Show S02E01.mkv") (js "mkv") true false] in
  let naming := namingWith (js "{title} S{season} {group}") (js "{title}") in
  ∃ files',
    applyMetadata codeUnitCompare naming (candidate (js "X")) files = Some files'
    ∧ FileInfo.new_name <$> files' = [Some (js "X S2 Grp.mkv")].
Proof.
  intros files naming.
  destruct (applyMetadata_accepted codeUnitCompare naming (candidate (js "X"))
              files eq_refl) as [files' Happ].
  exists files'. split; [exact Happ|].
  destruct (season_and_group_fallback codeUnitCompare naming
              (candidate (js "X")) files files' 0%nat _ Happ eq_refl
              (or_introl eq_refl)) as (k & _ & Hk & _).
  pose proof (applyMetadata_length _ _ _ _ _ Happ) as Hlen.
  destruct files' as [|f' [|? ?]]; try done.
  simpl in Hk. injection Hk as ->.
  pose proof (applyMetadata_video codeUnitCompare naming (candidate (js "X"))
                files _ 0%nat (mkIndexed _ 0%nat) Happ eq_refl eq_refl) as H0.
  simpl in H0. injection H0 as H0. rewrite H0. reflexivity.
Defined.

(** C7, the claim as stated fails: a file whose parse hint has neither
    season nor group is not scanned, although its name has both. *)
Lemma hint_without_season_skips_scan :
  let f := FileInfo.mk (js "/anime/[Grp] Show S02E01.mkv")
             (js "[Grp] Show S02E01.mkv") 0%Z (js "mkv") true false
             (Some (ParsedFilename.mk (js "Show") (Some 1%Z) None None
                      None None None))
             None None in
  let naming := namingWith (js "{title} S{season} {group}") (js "{title}") in
  seasonMatch (FileInfo.name f) = Some (js "02")
  ∧ groupMatch (FileInfo.name f) = Some (js "Grp")
  ∧ (λ f', (FileInfo.new_name f', AnimeInfo.season <$> FileInfo.metadata f'))
      <$> filesAfter codeUnitCompare naming (candidate (js "X")) [f]
    = [(Some (js "X S1.mkv"), Some (Some 1%Z))].
Proof. by vm_compute. Qed.

(** ** Replanning a working set with the same names and roles *)

Lemma filter_fmap_commute {A B : Type} (h : A → B) (P : B → Prop)
    `{!∀ y, Decision (P y)} (l : list A) :
  filter P (h <$> l) = h <$> filter (λ x, P (h x)) l.
Proof.
  induction l as [|x l IH]; [done|].
  rewrite fmap_cons, !filter_cons, IH. by destruct (decide (P (h x))).
Qed.

Section Transfer.

Variable localeCompare : jsstring → jsstring → Z.

Lemma insertByName_fmap {A : Type} (nameOf : A → jsstring) (h : A → A) x l :
  nameOf (h x) = nameOf x →
  Forall (λ y, nameOf (h y) = nameOf y) l →
  insertByName localeCompare nameOf (h x) (h <$> l)
  = h <$> insertByName localeCompare nameOf x l.
Proof.
  intros Hx Hl. induction Hl as [|y l Hy Hl IH]; [done|].
  rewrite fmap_cons. cbn [insertByName]. rewrite Hx, Hy.
  destruct (localeCompare (nameOf x) (nameOf y) <=? 0)%Z; [done|].
  by rewrite IH.
Qed.

Lemma sortByName_fmap {A : Type} (nameOf : A → jsstring) (h : A → A) l :
  Forall (λ y, nameOf (h y) = nameOf y) l →
  sortByName localeCompare nameOf (h <$> l)
  = h <$> sortByName localeCompare nameOf l.
Proof.
  induction 1 as [|x l Hx Hl IH]; [done|].
  rewrite fmap_cons. cbn [sortByName foldr].
  fold (sortByName localeCompare nameOf (h <$> l)).
  fold (sortByName localeCompare nameOf l).
  rewrite IH. apply insertByName_fmap; [done|].
  by rewrite sortByName_perm.
Qed.

Context (files files' : list FileInfo.t).
Hypothesis roles : Forall2 sameRole files files'.

Lemma retarget_indexed :
  imap (λ i f, mkIndexed f i) files'
  = retarget files' <$> imap (λ i f, mkIndexed f i) files.
Proof.
  apply list_eq. intros i.
  rewrite list_lookup_fmap, !list_lookup_imap.
  destruct (files !! i) as [f|] eqn:Hf.
  - destruct (Forall2_lookup_l _ _ _ _ _ roles Hf) as (f' & Hf' & _).
    rewrite Hf'. simpl. unfold retarget. simpl. by rewrite Hf'.
  - apply lookup_ge_None in Hf. rewrite (Forall2_length _ _ _ roles) in Hf.
    apply lookup_ge_None in Hf. by rewrite Hf.
Qed.

Lemma retarget_suffixed :
  imap (λ i f, mkSuffixed (mkIndexed f i)
                 (extractSubtitleSuffix (FileInfo.name f))) files'
  = retargetSuffixed files'
    <$> imap (λ i f, mkSuffixed (mkIndexed f i)
                       (extractSubtitleSuffix (FileInfo.name f))) files.
Proof.
  apply list_eq. intros i.
  rewrite list_lookup_fmap, !list_lookup_imap.
  destruct (files !! i) as [f|] eqn:Hf.
  - destruct (Forall2_lookup_l _ _ _ _ _ roles Hf) as (f' & Hf' & Hn & _).
    rewrite Hf'. simpl. unfold retargetSuffixed, retarget. simpl.
    by rewrite Hf', Hn.
  - apply lookup_ge_None in Hf. rewrite (Forall2_length _ _ _ roles) in Hf.
    apply lookup_ge_None in Hf. by rewrite Hf.
Qed.

Lemma retarget_sameRole v :
  files !! originalIndex v = Some (file v) →
  sameRole (file v) (file (retarget files' v)).
Proof.
  intros Hv. destruct (Forall2_lookup_l _ _ _ _ _ roles Hv) as (f' & Hf' & H).
  unfold retarget. simpl. by rewrite Hf'.
Qed.

Lemma videoFiles_retarget :
  videoFiles localeCompare files'
  = retarget files' <$> videoFiles localeCompare files.
Proof.
  unfold videoFiles. rewrite retarget_indexed, filter_fmap_commute.
  rewrite (filter_agree _ (λ v, FileInfo.is_video (file v) = true)).
  - apply sortByName_fmap. apply Forall_forall. intros v Hv.
    apply list_elem_of_filter in Hv as [_ Hv].
    apply elem_of_lookup_imap in Hv as (i & f & -> & Hf).
    destruct (retarget_sameRole (mkIndexed f i) Hf) as (Hn & _).
    unfold videoName. by rewrite <- Hn.
  - intros v Hv. apply elem_of_lookup_imap in Hv as (i & f & -> & Hf).
    destruct (retarget_sameRole (mkIndexed f i) Hf) as (_ & Hvid & _).
    simpl in *. by rewrite <- Hvid.
Qed.

Lemma subtitleFiles_retarget :
  subtitleFiles files' = retargetSuffixed files' <$> subtitleFiles files.
Proof.
  unfold subtitleFiles. rewrite retarget_suffixed, filter_fmap_commute.
  f_equal. apply filter_agree.
  intros s Hs. apply elem_of_lookup_imap in Hs as (i & f & -> & Hf).
  destruct (retarget_sameRole (mkIndexed f i) Hf) as (_ & _ & Hsub).
  simpl in *. by rewrite <- Hsub.
Qed.

Lemma pushGroup_fmap h key it groups :
  pushGroup key (h it) (mapGroups h groups)
  = mapGroups h (pushGroup key it groups).
Proof.
  unfold mapGroups.
  induction groups as [|[k m] groups IH]; [done|].
  rewrite fmap_cons. cbn [pushGroup fst snd].
  destruct (eqb k key).
  - rewrite fmap_cons. cbn [fst snd]. by rewrite fmap_app.
  - rewrite fmap_cons. cbn [fst snd]. by rewrite IH.
Qed.

Lemma groupReduce_fmap h items groups :
  (∀ x, suffix (h x) = suffix x) →
  groupReduce (h <$> items) (mapGroups h groups)
  = mapGroups h <$> groupReduce items groups.
Proof.
  intros Hh. revert groups.
  induction items as [|it items IH]; intros groups; [done|].
  rewrite fmap_cons. cbn [groupReduce]. unfold groupStep. rewrite Hh.
  destruct (inherited (groupKeyOf (suffix it))); [done|].
  by rewrite pushGroup_fmap, IH.
Qed.

Lemma subtitleGroups_retarget :
  subtitleGroups localeCompare files'
  = mapGroups (retargetSuffixed files') <$> subtitleGroups localeCompare files.
Proof.
  unfold subtitleGroups. rewrite subtitleFiles_retarget.
  change [] with (mapGroups (retargetSuffixed files') []) at 1.
  rewrite groupReduce_fmap by done.
  destruct (groupReduce (subtitleFiles files) []) as [raw|] eqn:Hred; [|done].
  simpl. f_equal.
  destruct (groupReduce_inv _ _ _ Hred NoDup_nil_2) as (_ & Hperm & _).
  assert (Forall (λ g, Forall (λ s, s ∈ subtitleFiles files) g.2) raw) as Hall.
  { apply Forall_forall. intros g Hg. apply Forall_forall. intros s Hs.
    rewrite <- (right_id_L [] (++) (subtitleFiles files)).
    change [] with (mjoin ([] : list (jsstring * list Suffixed)).*2).
    rewrite <- Hperm. apply list_elem_of_join. exists g.2. split; [done|].
    by apply list_elem_of_fmap_2. }
  clear Hred Hperm. unfold mapGroups.
  induction Hall as [|[k m] raw Hm Hall IH]; [done|].
  rewrite !fmap_cons. cbn [fst snd]. rewrite IH. f_equal. f_equal.
  apply sortByName_fmap.
  eapply Forall_impl; [exact Hm|]. intros s Hs. simpl in Hs.
  apply subtitleFiles_elem in Hs as (Hl & _ & _).
  destruct (retarget_sameRole (item s) Hl) as (Hn & _).
  unfold subtitleName. cbn [retargetSuffixed item]. by rewrite <- Hn.
Qed.

End Transfer.

Lemma techInfo_sameInputs f f' : sameInputs f f' → techInfo f = techInfo f'.
Proof.
  intros ((Hn & _ & _) & Hp & _). unfold techInfo. by rewrite Hn, Hp.
Qed.

Lemma videoPlan_sameInputs naming animeData f f' k :
  sameInputs f f' →
  videoPlan naming animeData f k = videoPlan naming animeData f' k.
Proof.
  intros H. unfold videoPlan. rewrite (techInfo_sameInputs _ _ H).
  destruct H as (_ & _ & ->). done.
Qed.

Lemma subtitlePlan_sameInputs naming animeData key f f' k :
  sameInputs f f' →
  subtitlePlan naming animeData key f k = subtitlePlan naming animeData key f' k.
Proof.
  intros H. unfold subtitlePlan. rewrite (techInfo_sameInputs _ _ H).
  destruct H as (_ & _ & ->). done.
Qed.

(** Two working sets with the same names and roles are planned alike: the
    call throws on both or on none, and a file whose inputs are the same in
    both gets the same plan. *)
Lemma replan_transfer localeCompare naming animeData files files' out :
  Forall2 sameRole files files' →
  applyMetadata localeCompare naming animeData files = Some out →
  ∃ out',
    applyMetadata localeCompare naming animeData files' = Some out'
    ∧ ∀ j f f', files !! j = Some f → files' !! j = Some f' →
        sameInputs f f' →
        ∃ plan, out !! j = Some (applyPlan plan f)
                ∧ out' !! j = Some (applyPlan plan f')
                ∧ (plan = None ↔
                   FileInfo.is_video f = false
                   ∧ FileInfo.is_subtitle f = false).
Proof.
  intros Hroles Happ.
  pose proof Happ as Happ0. unfold applyMetadata in Happ0.
  destruct (subtitleGroups localeCompare files) as [G|] eqn:HG; [|done].
  clear Happ0.
  pose proof (subtitleGroups_retarget localeCompare _ _ Hroles) as HG'.
  rewrite HG in HG'. simpl in HG'.
  assert (is_Some (applyMetadata localeCompare naming animeData files'))
    as [out' Happ'].
  { unfold applyMetadata. rewrite HG'. by eexists. }
  exists out'. split; [done|].
  intros j f f' Hf Hf' Hsame.
  destruct (FileInfo.is_subtitle f) eqn:Hsub.
  - destruct (subtitleGroups_inv _ _ _ HG) as (_ & Hperm & _).
    set (s := mkSuffixed (mkIndexed f j)
                (extractSubtitleSuffix (FileInfo.name f))).
    assert (s ∈ subtitleFiles files) as Hs by by apply subtitleFiles_elem.
    rewrite <- Hperm in Hs.
    apply list_elem_of_join in Hs as (members & Hs & Hm).
    apply list_elem_of_fmap in Hm as ([key members'] & -> & Hin).
    simpl in Hs.
    apply list_elem_of_lookup_1 in Hs as [k Hk].
    apply list_elem_of_lookup_1 in Hin as [gi Hgi].
    exists (Some (subtitlePlan naming animeData key f k)).
    split_and!; [| |split; [done|by intros [_ ?]]].
    + exact (applyMetadata_subtitle _ _ _ _ _ _ _ _ _ _ _ Happ HG Hgi Hk).
    + assert (mapGroups (retargetSuffixed files') G !! gi
              = Some (key, retargetSuffixed files' <$> members')) as Hgi'.
      { unfold mapGroups. by rewrite list_lookup_fmap, Hgi. }
      assert ((retargetSuffixed files' <$> members') !! k
              = Some (mkSuffixed (mkIndexed f' j)
                        (extractSubtitleSuffix (FileInfo.name f)))) as Hk'.
      { rewrite list_lookup_fmap, Hk. simpl.
        unfold retargetSuffixed, retarget. simpl. by rewrite Hf'. }
      pose proof (applyMetadata_subtitle _ _ _ _ _ _ _ _ _ _ _
                    Happ' HG' Hgi' Hk') as H.
      cbn [subtitleIndex item originalIndex file] in H.
      unfold plannedSubtitle in H.
      rewrite <- (subtitlePlan_sameInputs _ _ _ _ _ _ Hsame) in H. exact H.
  - destruct (FileInfo.is_video f) eqn:Hvid.
    + assert (mkIndexed f j ∈ videoFiles localeCompare files) as Hv
        by by apply videoFiles_elem.
      apply list_elem_of_lookup_1 in Hv as [k Hk].
      exists (Some (videoPlan naming animeData f k)).
      split_and!; [| |split; [done|by intros [? _]]].
      * exact (applyMetadata_video _ _ _ _ _ _ _ Happ Hk Hsub).
      * assert (videoFiles localeCompare files' !! k
                = Some (mkIndexed f' j)) as Hk'.
        { rewrite (videoFiles_retarget localeCompare _ _ Hroles).
          rewrite list_lookup_fmap, Hk. simpl.
          unfold retarget. simpl. by rewrite Hf'. }
        assert (FileInfo.is_subtitle f' = false) as Hsub'.
        { destruct Hsame as ((_ & _ & <-) & _). done. }
        pose proof (applyMetadata_video _ _ _ _ _ _ _ Happ' Hk' Hsub') as H.
        cbn [originalIndex file] in H.
        unfold plannedVideo in H.
        rewrite <- (videoPlan_sameInputs _ _ _ _ _ Hsame) in H. exact H.
    + exists None. split_and!; [| |done].
      * by eapply applyMetadata_other.
      * destruct Hsame as ((_ & Hv' & Hs') & _).
        eapply applyMetadata_other; [exact Happ'|exact Hf'| |];
          simpl; congruence.
Qed.

(** ** Replanning is idempotent *)

Lemma applyPlan_sameInputs plan f : sameInputs f (applyPlan plan f).
Proof. by destruct plan as [[info n]|], f. Qed.

Lemma sameInputs_refl f : sameInputs f f.
Proof. done. Qed.

Lemma sameRole_refl files : Forall2 sameRole files files.
Proof.
  apply Forall2_same_length_lookup. split; [done|].
  intros i x y Hx Hy. rewrite Hx in Hy. by injection Hy as <-.
Qed.

(** What a call has written is the plan of each file applied to it. *)
Lemma applyMetadata_plans localeCompare naming animeData files out :
  applyMetadata localeCompare naming animeData files = Some out →
  Forall2 sameRole files out
  ∧ ∀ j f, files !! j = Some f →
      ∃ plan, out !! j = Some (applyPlan plan f)
              ∧ (plan = None ↔
                 FileInfo.is_video f = false ∧ FileInfo.is_subtitle f = false).
Proof.
  intros Happ.
  destruct (replan_transfer _ _ _ _ _ _ (sameRole_refl files) Happ)
    as (out0 & Happ0 & Hplans).
  rewrite Happ in Happ0. injection Happ0 as <-.
  assert (∀ j f, files !! j = Some f →
            ∃ plan, out !! j = Some (applyPlan plan f)
                    ∧ (plan = None ↔
                       FileInfo.is_video f = false
                       ∧ FileInfo.is_subtitle f = false)) as H.
  { intros j f Hf.
    destruct (Hplans j f f Hf Hf (sameInputs_refl f)) as (plan & Hp & _ & Hn).
    by exists plan. }
  split; [|done].
  apply Forall2_same_length_lookup. split.
  - symmetry. by eapply applyMetadata_length.
  - intros i f f1 Hf Hf1. destruct (H i f Hf) as (plan & Hp & _).
    rewrite Hf1 in Hp. injection Hp as ->.
    by destruct (applyPlan_sameInputs plan f) as [? _].
Qed.

(** A call does not depend on what an earlier call, made with another
    naming state or another candidate, has written. *)
Lemma applyMetadata_forgets localeCompare naming0 animeData0 naming animeData
    files :
  applyMetadata localeCompare naming animeData
    (filesAfter localeCompare naming0 animeData0 files)
  = applyMetadata localeCompare naming animeData files.
Proof.
  unfold filesAfter.
  destruct (applyMetadata localeCompare naming0 animeData0 files) as [out0|]
    eqn:Happ0; simpl; [|done].
  destruct (applyMetadata_plans _ _ _ _ _ Happ0) as [Hroles Hplans0].
  destruct (applyMetadata localeCompare naming animeData files) as [out|]
    eqn:Happ.
  - destruct (replan_transfer _ _ _ _ _ _ Hroles Happ)
      as (out' & Happ' & Hplans).
    rewrite Happ'. f_equal.
    pose proof (applyMetadata_length _ _ _ _ _ Happ) as Hlen.
    pose proof (applyMetadata_length _ _ _ _ _ Happ') as Hlen'.
    pose proof (applyMetadata_length _ _ _ _ _ Happ0) as Hlen0.
    apply (list_eq_same_length _ _ (length files)); [done|lia|].
    intros j f2 f1 Hj Hf2 Hf1.
    destruct (lookup_lt_is_Some_2 files j Hj) as [f Hf].
    destruct (Hplans0 j f Hf) as (plan0 & Hp0 & Hn0).
    destruct (Hplans j f _ Hf Hp0 (applyPlan_sameInputs plan0 f))
      as (plan & Hp1 & Hp2 & Hn).
    rewrite Hf1 in Hp1. injection Hp1 as ->.
    rewrite Hf2 in Hp2. injection Hp2 as ->.
    destruct plan as [[info n]|].
    + destruct plan0 as [[info0 n0]|]; [apply set_plan_set_plan|done].
    + destruct (proj1 Hn eq_refl) as [Hv Hs].
      by rewrite (proj2 Hn0 (conj Hv Hs)).
  - destruct (applyMetadata localeCompare naming animeData out0) as [out'|]
      eqn:Happ'; [|done].
    assert (Forall2 sameRole out0 files) as Hroles'.
    { apply Forall2_flip. eapply Forall2_impl; [exact Hroles|].
      intros x y (? & ? & ?). by split_and!. }
    destruct (replan_transfer _ _ _ _ _ _ Hroles' Happ') as (out & Hout & _).
    rewrite Happ in Hout. done.
Qed.

(** C1: planning is a function of the working set, the candidate and the
    naming state, and it does not depend on what an earlier plan (made with
    any naming state and candidate) has written into the files.  In
    particular planning again what has just been planned changes nothing:
    the second call returns the same files (or throws exactly when the first
    did), and the rename map built from them is the same. *)
Theorem replanning_is_idempotent (localeCompare : jsstring → jsstring → Z)
    (naming0 naming : Naming.t) (animeData0 animeData : AniListResponse.t)
    (files : list FileInfo.t) :
  applyMetadata localeCompare naming animeData
    (filesAfter localeCompare naming0 animeData0 files)
  = applyMetadata localeCompare naming animeData files
  ∧ filesAfter localeCompare naming animeData
      (filesAfter localeCompare naming0 animeData0 files)
    = filesAfter localeCompare naming animeData files
  ∧ filesAfter localeCompare naming animeData
      (filesAfter localeCompare naming animeData files)
    = filesAfter localeCompare naming animeData files
  ∧ renameMap naming
      (filesAfter localeCompare naming animeData
         (filesAfter localeCompare naming animeData files))
    = renameMap naming (filesAfter localeCompare naming animeData files).
Proof.
  assert (filesAfter localeCompare naming animeData
            (filesAfter localeCompare naming animeData files)
          = filesAfter localeCompare naming animeData files) as Hfix.
  { unfold filesAfter at 1. rewrite applyMetadata_forgets. unfold filesAfter.
    by destruct (applyMetadata localeCompare naming animeData files). }
  split_and!; [apply applyMetadata_forgets| |done|by rewrite Hfix].
  unfold filesAfter at 1. rewrite applyMetadata_forgets.
  unfold filesAfter.
  destruct (applyMetadata localeCompare naming animeData files) as [out|]
    eqn:Happ; [done|]. simpl.
  destruct (applyMetadata localeCompare naming0 animeData0 files) as [out0|]
    eqn:Happ0; [|done]. simpl.
  exfalso.
  destruct (applyMetadata_plans _ _ _ _ _ Happ0) as [Hroles _].
  pose proof (applyMetadata_accepted localeCompare naming animeData files)
    as Hacc.
  pose proof (applyMetadata_rejected localeCompare naming0 animeData0 files)
    as Hrej.
  destruct (keysAccepted files).
  - destruct (Hacc eq_refl) as [? ?]. congruence.
  - specialize (Hrej eq_refl). congruence.
Qed.

(** ** Parse failures *)

Lemma findIndex_path (l : list FileInfo.t) j p :
  NoDup (FileInfo.path <$> l) →
  (FileInfo.path <$> l) !! j = Some p →
  findIndex (λ f, eqb (FileInfo.path f) p) l = Some j.
Proof.
  revert j. induction l as [|f l IH]; intros j Hnd Hj; [done|].
  rewrite fmap_cons in Hnd, Hj. apply NoDup_cons in Hnd as [Hf Hnd].
  cbn [findIndex]. destruct j as [|j]; simpl in Hj.
  - injection Hj as ->. by rewrite (proj2 (eqb_true _ _)).
  - destruct (eqb (FileInfo.path f) p) eqn:E.
    + apply eqb_true in E as <-. exfalso. apply Hf.
      by eapply list_elem_of_lookup_2.
    + by rewrite (IH j).
Qed.

Section Parsing.

Variable parse : nat → jsstring → option ParsedFilename.t.
Variable files : list FileInfo.t.
Hypothesis unique_paths : NoDup (FileInfo.path <$> files).

Lemma indexedVideos_files :
  file <$> indexedVideos files
  = filter (λ f, FileInfo.is_video f = true) files.
Proof.
  unfold indexedVideos.
  assert (files = file <$> imap (λ i f, mkIndexed f i) files) as Hfiles.
  { apply list_eq. intros i. rewrite list_lookup_fmap, list_lookup_imap.
    by destruct (files !! i). }
  rewrite Hfiles at 2. by rewrite filter_fmap_commute.
Qed.

Lemma indexedVideos_elem v :
  v ∈ indexedVideos files ↔
  files !! originalIndex v = Some (file v) ∧ FileInfo.is_video (file v) = true.
Proof.
  unfold indexedVideos.
  rewrite list_elem_of_filter, elem_of_lookup_imap. split.
  - intros [Hv (i & f & -> & Hf)]. done.
  - intros [Hl Hv]. split; [done|].
    exists (originalIndex v), (file v). by destruct v.
Qed.

Lemma indexedVideos_NoDup : NoDup (originalIndex <$> indexedVideos files).
Proof.
  unfold indexedVideos.
  apply NoDup_fmap_filter. rewrite indexed_indices. apply NoDup_seq.
Qed.

Lemma hintOf_path v c f : FileInfo.path (hintOf parse v c f) = FileInfo.path f.
Proof. unfold hintOf. by destruct (parse c (FileInfo.name (file v))). Qed.

Lemma parseLoop_indexed l c s :
  FileInfo.path <$> s = FileInfo.path <$> files →
  Forall (λ v, files !! originalIndex v = Some (file v)) l →
  forEachFrom (parseStep parse) (file <$> l) c s
  = forEachFrom (λ s v c, alter (hintOf parse v c) (originalIndex v) s) l c s.
Proof.
  intros Hs Hl. revert c s Hs.
  induction Hl as [|v l Hv Hl IH]; intros c s Hs; [done|].
  rewrite fmap_cons. cbn [forEachFrom].
  assert (parseStep parse s (file v) c
          = alter (hintOf parse v c) (originalIndex v) s) as ->.
  { unfold parseStep, hintOf.
    destruct (parse c (FileInfo.name (file v))) as [parsed|].
    - rewrite (findIndex_path s (originalIndex v)); [done| |].
      + rewrite Hs. exact unique_paths.
      + by rewrite Hs, list_lookup_fmap, Hv.
    - symmetry. by apply list_alter_id. }
  apply IH. rewrite <- Hs. apply list_eq. intros j.
  rewrite !list_lookup_fmap.
  destruct (decide (j = originalIndex v)) as [->|Hne].
  - rewrite list_lookup_alter_eq. destruct (s !! originalIndex v); [|done].
    simpl. by rewrite hintOf_path.
  - by rewrite list_lookup_alter_ne.
Qed.

Lemma parseFilenames_indexed :
  parseFilenames parse files
  = forEachFrom (λ s v c, alter (hintOf parse v c) (originalIndex v) s)
      (indexedVideos files) 0%nat files.
Proof.
  unfold parseFilenames. rewrite <- indexedVideos_files.
  apply parseLoop_indexed; [done|].
  apply Forall_forall. intros v Hv. by apply indexedVideos_elem in Hv as [? _].
Qed.

(** The file parsed in turn [c] gets the hint of that turn, if any. *)
Lemma parseFilenames_video c v :
  (indexedVideos files) !! c = Some v →
  parseFilenames parse files !! originalIndex v
  = Some (hintOf parse v c (file v)).
Proof.
  intros Hc. rewrite parseFilenames_indexed.
  rewrite (forEachFrom_hit originalIndex (hintOf parse) _ 0%nat files c v
             indexedVideos_NoDup Hc).
  assert (files !! originalIndex v = Some (file v)) as ->; [|done].
  by apply indexedVideos_elem, list_elem_of_lookup_2 with c.
Qed.

(** A file that is not a video is not parsed. *)
Lemma parseFilenames_other j :
  (∀ f, files !! j = Some f → FileInfo.is_video f = false) →
  parseFilenames parse files !! j = files !! j.
Proof.
  intros Hj. rewrite parseFilenames_indexed.
  apply (forEachFrom_other originalIndex (hintOf parse)).
  intros (v & -> & Hv)%list_elem_of_fmap.
  apply indexedVideos_elem in Hv as [Hl Hv].
  specialize (Hj _ Hl). congruence.
Qed.

Lemma parseFilenames_length :
  length (parseFilenames parse files) = length files.
Proof.
  rewrite parseFilenames_indexed.
  apply (forEachFrom_length originalIndex (hintOf parse)).
Qed.

End Parsing.

Lemma set_parsed_sameRole parsed f : sameRole f (FileInfo.set_parsed parsed f).
Proof. by destruct f. Qed.

Lemma sameRole_sym f f' : sameRole f f' → sameRole f' f.
Proof. intros (? & ? & ?). by split_and!. Qed.

(** C9: when the parse of one video is rejected, [parseFilenames] leaves
    that file as it was and goes on; every other file gets the same hint,
    and after planning the same fields, as if the parse had succeeded;
    planning completes in the one case exactly when it does in the other;
    and the file itself, having no hint, is planned from the patterns of its
    name (digits after the first S, first bracketed token).  Paths are the
    unique keys of the working set. *)
Theorem parse_failure_is_local (localeCompare : jsstring → jsstring → Z)
    (naming : Naming.t) (animeData : AniListResponse.t)
    (parse1 parse2 : nat → jsstring → option ParsedFilename.t)
    (files : list FileInfo.t) (i c : nat) (f : FileInfo.t) :
  NoDup (FileInfo.path <$> files) →
  files !! i = Some f →
  filter (λ f, FileInfo.is_video f = true) files !! c = Some f →
  parse1 c (FileInfo.name f) = None →
  (∀ c' name, c' ≠ c → parse1 c' name = parse2 c' name) →
  let parsed1 := parseFilenames parse1 files in
  let parsed2 := parseFilenames parse2 files in
  parsed1 !! i = Some f
  ∧ (∀ j, j ≠ i → parsed1 !! j = parsed2 !! j)
  ∧ (is_Some (applyMetadata localeCompare naming animeData parsed1)
     ↔ is_Some (applyMetadata localeCompare naming animeData parsed2))
  ∧ (∀ j, j ≠ i →
       filesAfter localeCompare naming animeData parsed1 !! j
       = filesAfter localeCompare naming animeData parsed2 !! j)
  ∧ (keysAccepted files = true →
     FileInfo.parsed f = None →
     FileInfo.is_subtitle f = false →
     ∃ out k,
       applyMetadata localeCompare naming animeData parsed1 = Some out
       ∧ let e := Z.of_nat (k + 1) in
         let season :=
           match seasonMatch (FileInfo.name f) with
           | Some digits =>
               if (parseInt digits =? 0)%Z then 1%Z else parseInt digits
           | None => 1%Z
           end in
         let info := mkAnimeInfo animeData e (Some season) in
         out !! i
         = Some (FileInfo.set_plan info
                   (videoNewName (Naming.fileNameTemplate naming) info e
                      (Some season) (groupMatch (FileInfo.name f))
                      (FileInfo.file_type f))
                   f)).
Proof.
  intros Hnd Hi Hc Hfail Hagree parsed1 parsed2.
  (* the item of turn [c] *)
  assert (∃ v, filter (λ v, FileInfo.is_video (file v) = true)
                 (imap (λ i f, mkIndexed f i) files) !! c = Some v
               ∧ file v = f ∧ originalIndex v = i) as (v & Hv & Hvf & Hvi).
  { rewrite <- (indexedVideos_files files) in Hc.
    rewrite list_lookup_fmap in Hc.
    destruct (_ !! c) as [v|] eqn:Hv; [|done]. injection Hc as Hvf.
    exists v. split_and!; [done|done|].
    assert (files !! originalIndex v = Some (file v)) as Hl.
    { by apply (indexedVideos_elem files), list_elem_of_lookup_2 with c. }
    rewrite Hvf in Hl.
    eapply (NoDup_lookup _ _ _ (FileInfo.path f) Hnd);
      by rewrite list_lookup_fmap, ?Hl, ?Hi. }
  assert (FileInfo.is_video f = true) as Hvid.
  { apply list_elem_of_lookup_2 in Hc. by apply list_elem_of_filter in Hc as [? _]. }
  assert (parsed1 !! i = Some f) as H1.
  { unfold parsed1. rewrite <- Hvi.
    rewrite (parseFilenames_video parse1 files Hnd c v Hv).
    unfold hintOf. by rewrite Hvf, Hfail. }
  assert (∀ j, j ≠ i → parsed1 !! j = parsed2 !! j) as H2.
  { intros j Hj. unfold parsed1, parsed2.
    destruct (files !! j) as [g|] eqn:Hg.
    - destruct (FileInfo.is_video g) eqn:Hgv.
      + assert (mkIndexed g j
                ∈ filter (λ v, FileInfo.is_video (file v) = true)
                    (imap (λ i f, mkIndexed f i) files)) as Hin
          by by apply (indexedVideos_elem files).
        apply list_elem_of_lookup_1 in Hin as [c' Hc'].
        assert (c' ≠ c) as Hne.
        { intros ->. rewrite Hv in Hc'. injection Hc' as ->. by simpl in Hvi. }
        pose proof (parseFilenames_video parse1 files Hnd c' _ Hc') as Hp1.
        pose proof (parseFilenames_video parse2 files Hnd c' _ Hc') as Hp2.
        unfold hintOf in Hp1, Hp2. simpl in Hp1, Hp2.
        by rewrite Hp1, Hp2, (Hagree c' _ Hne).
      + rewrite !parseFilenames_other; try done;
          intros g'; rewrite Hg; by intros [= <-].
    - rewrite !parseFilenames_other; try done; intros g'; by rewrite Hg. }
  assert (Forall2 sameRole parsed1 parsed2) as Hroles.
  { apply Forall2_same_length_lookup. split.
    - unfold parsed1, parsed2. by rewrite !parseFilenames_length.
    - intros j x y Hx Hy. destruct (decide (j = i)) as [->|Hj].
      + rewrite H1 in Hx. injection Hx as <-.
        unfold parsed2 in Hy. rewrite <- Hvi in Hy.
        rewrite (parseFilenames_video parse2 files Hnd c v Hv) in Hy.
        injection Hy as <-. unfold hintOf. rewrite Hvf.
        destruct (parse2 c (FileInfo.name f)); [|done].
        apply set_parsed_sameRole.
      + rewrite (H2 j Hj), Hy in Hx. by injection Hx as <-. }
  assert (Forall2 sameRole parsed2 parsed1) as Hroles'.
  { apply Forall2_flip. eapply Forall2_impl; [exact Hroles|].
    intros x y. apply sameRole_sym. }
  assert (is_Some (applyMetadata localeCompare naming animeData parsed1)
          ↔ is_Some (applyMetadata localeCompare naming animeData parsed2))
    as H3.
  { split; intros [out Hout].
    - destruct (replan_transfer _ _ _ _ _ _ Hroles Hout) as (out' & -> & _).
      by eexists.
    - destruct (replan_transfer _ _ _ _ _ _ Hroles' Hout) as (out' & -> & _).
      by eexists. }
  split_and!; [done|done|done| |].
  - intros j Hj. unfold filesAfter.
    destruct (applyMetadata localeCompare naming animeData parsed1)
      as [out1|] eqn:Hout1.
    + destruct (replan_transfer _ _ _ _ _ _ Hroles Hout1)
        as (out2 & Hout2 & Hplans).
      rewrite Hout2. simpl.
      destruct (parsed1 !! j) as [g|] eqn:Hg.
      * destruct (Hplans j g g Hg) as (plan & -> & -> & _);
          [by rewrite <- (H2 j Hj)|done|done].
      * apply lookup_ge_None in Hg.
        rewrite <- (applyMetadata_length _ _ _ _ _ Hout1) in Hg.
        pose proof Hg as Hg'.
        rewrite (applyMetadata_length _ _ _ _ _ Hout1),
          (Forall2_length _ _ _ Hroles),
          <- (applyMetadata_length _ _ _ _ _ Hout2) in Hg'.
        apply lookup_ge_None in Hg, Hg'. by rewrite Hg, Hg'.
    + destruct (applyMetadata localeCompare naming animeData parsed2)
        as [out2|] eqn:Hout2.
      * destruct (proj2 H3 (ex_intro _ out2 eq_refl)) as [? [=]].
      * simpl. by apply H2.
  - intros Hkeys Hnone Hsub.
    assert (Forall2 sameRole files parsed1) as Hroles0.
    { apply Forall2_same_length_lookup. split.
      - unfold parsed1. by rewrite parseFilenames_length.
      - intros j x y Hx Hy. unfold parsed1 in Hy.
        destruct (FileInfo.is_video x) eqn:Hxv.
        + assert (mkIndexed x j
                  ∈ filter (λ v, FileInfo.is_video (file v) = true)
                      (imap (λ i f, mkIndexed f i) files)) as Hin
            by by apply (indexedVideos_elem files).
          apply list_elem_of_lookup_1 in Hin as [c' Hc'].
          pose proof (parseFilenames_video parse1 files Hnd c' _ Hc') as Hp.
          unfold hintOf in Hp. simpl in Hp. rewrite Hp in Hy.
          injection Hy as <-.
          destruct (parse1 c' (FileInfo.name x)); [|done].
          apply set_parsed_sameRole.
        + rewrite (parseFilenames_other parse1 files Hnd j), Hx in Hy.
          * by injection Hy as <-.
          * intros x'. rewrite Hx. by intros [= <-]. }
    destruct (applyMetadata_accepted localeCompare naming animeData files Hkeys)
      as [out0 Hout0].
    destruct (replan_transfer _ _ _ _ _ _ Hroles0 Hout0) as (out & Hout & _).
    assert (mkIndexed f i ∈ videoFiles localeCompare parsed1) as Hin
      by by apply videoFiles_elem.
    apply list_elem_of_lookup_1 in Hin as [k Hk].
    exists out, k. split; [done|].
    pose proof (applyMetadata_video _ _ _ _ _ _ _ Hout Hk Hsub) as H.
    unfold plannedVideo in H. rewrite videoPlan_policy in H.
    unfold assignedSeason, assignedGroup in H. simpl in H.
    rewrite Hnone in H. exact H.
Qed.

Lemma parse_failure_is_local_witness :
  let files := [selected (js "[Grp] A S02.mkv") (js "mkv") true false;
                selected (js "B.mkv") (js "mkv") true false] in
  let hint := ParsedFilename.mk (js "B") (Some 1%Z) (Some 3%Z) None None None
                None in
  let parse1 := λ (c : nat) (_ : jsstring),
                  if decide (c = 0%nat) then None else Some hint in
  let parse2 := λ (c : nat) (_ : jsstring), Some hint in
  let naming := namingWith (js "{title} S{season} {group}") (js "{title}") in
  NoDup (FileInfo.path <$> files)
  ∧ parse1 0%nat (js "[Grp] A S02.mkv") = None
  ∧ (∀ c' name, c' ≠ 0%nat → parse1 c' name = parse2 c' name)
  ∧ parseFilenames parse1 files !! 0%nat
    = Some (selected (js "[Grp] A S02.mkv") (js "mkv") true false)
  ∧ ∃ out,
      applyMetadata codeUnitCompare naming (candidate (js "X"))
        (parseFilenames parse1 files) = Some out
      ∧ (FileInfo.new_name <$> out !! 0%nat) = Some (Some (js "X S2 Grp.mkv")).
Proof.
  intros files hint parse1 parse2 naming.
  assert (NoDup (FileInfo.path <$> files)) as Hnd.
  { apply (bool_decide_unpack _). by vm_compute. }
  assert (∀ c' name, c' ≠ 0%nat → parse1 c' name = parse2 c' name) as Hagree.
  { intros c' name Hc. unfold parse1, parse2. by rewrite decide_False. }
  destruct (parse_failure_is_local codeUnitCompare naming (candidate (js "X"))
              parse1 parse2 files 0%nat 0%nat _
              Hnd eq_refl eq_refl eq_refl Hagree)
    as (H1 & _ & _ & _ & H5).
  split_and!; [exact Hnd|reflexivity|exact Hagree|exact H1|].
  destruct (H5 eq_refl eq_refl eq_refl) as (out & k & Hout & Hplan).
  exists out. split; [exact Hout|].
  rewrite Hplan. reflexivity.
Defined.

(** ** The string primitives on examples *)

Example replace_first_occurrence :
  replace (js "{ext}.{ext}") (js "{ext}") (js "mkv") = js "mkv.{ext}".
Proof. reflexivity. Qed.

Example replace_dollar_patterns :
  replace (js "a{t}b") (js "{t}") (js "x$$y$&z") = js "ax$y{t}zb".
Proof. reflexivity. Qed.

Example split_keeps_empty_segments :
  split 46 (js "Show..ass") = [js "Show"; []; js "ass"].
Proof. reflexivity. Qed.

Example clean_up_example :
  trim (collapseWhiteSpace (js "  a   b  ")) = js "a b".
Proof. reflexivity. Qed.

Example toString_examples :
  toString 105 = js "105" ∧ toString 0 = js "0" ∧ toString (-3) = js "-3".
Proof. by split_and!. Qed.

Example parseInt_examples :
  parseInt (js "02") = 2%Z ∧ parseInt (js "1080") = 1080%Z.
Proof. by split_and!. Qed.

Example season_pattern_examples :
  seasonMatch (js "Show s02e01.mkv") = Some (js "02")
  ∧ seasonMatch (js "Series 3 [1080p].mkv") = None
  ∧ seasonMatch (js "Subs1080.mkv") = Some (js "1080").
Proof. by split_and!. Qed.

Example group_pattern_examples :
  groupMatch (js "[Grp] Show [1080p].mkv") = Some (js "Grp")
  ∧ groupMatch (js "[][x] Show.mkv") = Some (js "x")
  ∧ groupMatch (js "Show [1080p.mkv") = None.
Proof. by split_and!. Qed.

Example inherited_key_throws :
  applyMetadata codeUnitCompare
    (namingWith (js "{title} - {episode}") (js "{title}"))
    (candidate (js "Example"))
    [selected (js "A.mkv") (js "mkv") true false;
     selected (js "A.constructor.ass") (js "ass") false true]
  = None.
Proof. reflexivity. Qed.

Example rename_map_example :
  let naming := namingWith (js "{title} - {episode}") (js "{title} ({year})") in
  renameMap naming
    (filesAfter codeUnitCompare naming (candidate (js "Example"))
       [selected (js "A.mkv") (js "mkv") true false])
  !! js "/anime/A.mkv"
  = Some (js "Example/Season 1/Example - 01.mkv").
Proof. by vm_compute. Qed.

(** * Further properties of the page *)

(** ** The files [applyMetadata] plans *)

Section Planned.
Variable localeCompare : jsstring → jsstring → Z.
Variable naming : Naming.t.
Variable animeData : AniListResponse.t.

(** Every file with a role is written by exactly the loop of its role, the
    subtitle loop winning for a file flagged as both. *)
Lemma applyMetadata_planned files out j f :
  applyMetadata localeCompare naming animeData files = Some out →
  files !! j = Some f →
  (FileInfo.is_subtitle f = true →
     ∃ k, out !! j
          = Some (plannedSubtitle naming animeData
                    (classify (FileInfo.name f)) f k))
  ∧ (FileInfo.is_subtitle f = false → FileInfo.is_video f = true →
     ∃ k, out !! j = Some (plannedVideo naming animeData f k)).
Proof.
  intros Happ Hj. split.
  - intros Hsub.
    pose proof Happ as Happ0. unfold applyMetadata in Happ0.
    destruct (subtitleGroups localeCompare files) as [G|] eqn:HG; [|done].
    clear Happ0.
    destruct (subtitleGroups_inv _ _ _ HG) as (_ & Hperm & Hmem).
    set (s := mkSuffixed (mkIndexed f j)
                (extractSubtitleSuffix (FileInfo.name f))).
    assert (s ∈ subtitleFiles files) as Hs by by apply subtitleFiles_elem.
    rewrite <- Hperm in Hs.
    apply list_elem_of_join in Hs as (members & Hs & Hmembers).
    apply list_elem_of_fmap in Hmembers as ([key members'] & -> & Hg).
    simpl in Hs.
    destruct (Hmem _ _ Hg) as [Hsorted _].
    assert (groupKeyOf (suffix s) = key) as Hkey.
    { rewrite Hsorted, sortByName_perm in Hs.
      by apply list_elem_of_filter in Hs as [? _]. }
    apply list_elem_of_lookup in Hg as [gi Hgi].
    apply list_elem_of_lookup in Hs as [k Hk].
    exists k.
    pose proof (applyMetadata_subtitle _ _ _ _ _ _ _ _ _ _ _ Happ HG Hgi Hk)
      as Hout.
    simpl in Hout. by rewrite <- Hkey in Hout.
  - intros Hsub Hvid.
    assert (mkIndexed f j ∈ videoFiles localeCompare files) as Hv
      by by apply videoFiles_elem.
    apply list_elem_of_lookup in Hv as [k Hk]. exists k.
    by apply (applyMetadata_video _ _ _ _ _ _ _ Happ Hk).
Qed.

End Planned.

(** ** The extension of a planned name *)

Lemma endsWith_app s t : endsWith (s ++ t) t = true.
Proof. unfold endsWith. rewrite rev_app_distr. apply startsWith_app. Qed.

Lemma endsWith_suffix s t : endsWith s t = true → ∃ stem, s = stem ++ t.
Proof.
  unfold endsWith. intros [u Hu]%startsWith_prefix. exists (rev u).
  rewrite <- (rev_involutive s), Hu, rev_app_distr. by rewrite rev_involutive.
Qed.

Lemma withExtension_ends n ft : ∃ stem, withExtension n ft = stem ++ 46 :: ft.
Proof.
  unfold withExtension.
  destruct (endsWith (replace n (js "{ext}") ft) (46 :: ft)) eqn:E.
  - by apply endsWith_suffix.
  - by eexists.
Qed.

Section PlannedShape.
Variable localeCompare : jsstring → jsstring → Z.
Variable naming : Naming.t.
Variable animeData : AniListResponse.t.

(** What a file with a role looks like after [applyMetadata]. *)
Lemma planned_shape files out j f :
  applyMetadata localeCompare naming animeData files = Some out →
  files !! j = Some f →
  hasRole f = true →
  ∃ k stem,
    out !! j
      = Some (FileInfo.set_plan
                (mkAnimeInfo animeData (Z.of_nat (k + 1))
                   (Some (assignedSeason f)))
                (stem ++ 46 :: FileInfo.file_type f) f).
Proof.
  intros Happ Hj Hrole.
  destruct (applyMetadata_planned _ _ _ _ _ _ _ Happ Hj) as [Hsub Hvid].
  destruct (FileInfo.is_subtitle f) eqn:Es.
  - destruct (Hsub eq_refl) as [k Hk].
    unfold plannedSubtitle in Hk. rewrite subtitlePlan_policy in Hk.
    cbn [fst snd] in Hk. unfold subtitleNewName in Hk.
    match type of Hk with
    | context [withExtension ?n ?ft] =>
        destruct (withExtension_ends n ft) as [stem Hstem]
    end.
    rewrite Hstem in Hk. by exists k, stem.
  - unfold hasRole in Hrole. rewrite Es, orb_false_r in Hrole.
    destruct (Hvid eq_refl Hrole) as [k Hk].
    unfold plannedVideo in Hk. rewrite videoPlan_policy in Hk.
    cbn [fst snd] in Hk. unfold videoNewName in Hk.
    match type of Hk with
    | context [withExtension ?n ?ft] =>
        destruct (withExtension_ends n ft) as [stem Hstem]
    end.
    rewrite Hstem in Hk. by exists k, stem.
Qed.

End PlannedShape.

(** ** The rename map *)

Section InsertFold.
Context {A B : Type} (key : A → jsstring) (g : A → option B)
  (v : A → B → jsstring).

Lemma foldl_insert_miss (l : list A) (m0 : gmap jsstring jsstring) p :
  (∀ x, x ∈ l → key x = p → g x = None) →
  foldl (λ m x, match g x with
                | Some n => <[key x := v x n]> m
                | None => m
                end) m0 l !! p
  = m0 !! p.
Proof.
  revert m0. induction l as [|x l IH]; intros m0 Hl; [done|]. simpl.
  rewrite IH.
  - destruct (g x) as [n|] eqn:E; [|done].
    apply lookup_insert_ne. intros Hk.
    specialize (Hl x (list_elem_of_here _ _) Hk). congruence.
  - intros y Hy. apply Hl. by apply list_elem_of_further.
Qed.

Lemma foldl_insert_hit (l : list A) (m0 : gmap jsstring jsstring) j x :
  NoDup (key <$> l) →
  l !! j = Some x →
  foldl (λ m x, match g x with
                | Some n => <[key x := v x n]> m
                | None => m
                end) m0 l !! key x
  = match g x with Some n => Some (v x n) | None => m0 !! key x end.
Proof.
  revert m0 j. induction l as [|y l IH]; intros m0 j Hnd Hj; [done|].
  rewrite fmap_cons in Hnd. apply NoDup_cons in Hnd as [Hy Hnd].
  destruct j as [|j]; simpl in Hj.
  - injection Hj as ->. simpl. rewrite foldl_insert_miss.
    + destruct (g x); [|done]. by rewrite lookup_insert_eq.
    + intros z Hz Hk. exfalso. apply Hy. rewrite <- Hk.
      by apply list_elem_of_fmap_2.
  - simpl. rewrite (IH _ j) by done.
    destruct (g x) as [n|]; [done|].
    destruct (g y) as [n|]; [|done].
    apply lookup_insert_ne. intros Hk. apply Hy. rewrite Hk.
    apply list_elem_of_fmap_2. by eapply list_elem_of_lookup_2.
Qed.

(** An entry is the initial one, or the one of the last element that
    writes its key. *)
Lemma foldl_insert_last (l : list A) (m0 : gmap jsstring jsstring) p t :
  foldl (λ m x, match g x with
                | Some n => <[key x := v x n]> m
                | None => m
                end) m0 l !! p = Some t →
  (m0 !! p = Some t ∧ ∀ x, x ∈ l → key x = p → g x = None)
  ∨ ∃ l1 x l2 n,
      l = l1 ++ x :: l2 ∧ key x = p ∧ g x = Some n ∧ t = v x n
      ∧ ∀ y, y ∈ l2 → key y = p → g y = None.
Proof.
  revert m0. induction l as [|x l IH]; intros m0 H.
  - left. split; [done|]. by intros x ?%elem_of_nil.
  - simpl in H.
    apply IH in H as [[H Hnone]|(l1 & y & l2 & n & -> & ? & ? & ? & ?)].
    + destruct (g x) as [n|] eqn:E.
      * destruct (decide (key x = p)) as [Hk|Hk].
        -- rewrite <- Hk, lookup_insert_eq in H. injection H as <-.
           right. by exists [], x, l, n.
        -- rewrite lookup_insert_ne in H by done. left. split; [done|].
           intros y [->|Hy]%elem_of_cons Hy'; [done|by apply Hnone].
      * left. split; [done|].
        intros y [->|Hy]%elem_of_cons Hy'; [done|by apply Hnone].
    + right. by exists (x :: l1), y, l2, n.
Qed.

End InsertFold.

Lemma renameMap_fold naming files :
  renameMap naming files
  = foldl (λ m f, match plannedName f with
                  | Some n => <[FileInfo.path f := targetOf naming files f n]> m
                  | None => m
                  end) ∅ files.
Proof.
  unfold renameMap, targetOf.
  destruct (list_find _ files) as [[i fileWithMetadata]|] eqn:E; [|done].
  apply list_find_Some in E as (_ & [info Hinfo] & _). by rewrite Hinfo.
Qed.

Lemma plannedName_Some f n :
  plannedName f = Some n ↔ FileInfo.new_name f = Some n ∧ n ≠ [].
Proof.
  unfold plannedName. destruct (FileInfo.new_name f) as [[|c m]|]; simpl.
  - split; [done|]. by intros [[= <-] ?].
  - split; [by intros [= <-]|]. by intros [[= <-] _].
  - split; [done|]. by intros [? _].
Qed.

Lemma targetPath_dir naming info f n :
  ∃ dir, targetPath naming info f n = dir ++ n
         ∧ (dir = [] ∨ last dir = Some 47).
Proof.
  unfold targetPath.
  destruct (Naming.createAnimeFolders naming).
  - match goal with
    | |- ∃ _, ?d ++ 47 :: n = _ ∧ _ => exists (d ++ [47])
    end.
    split; [by rewrite <- (assoc_L (++))|]. right. apply last_snoc.
  - destruct (knownSeason f) as [s|]; [|exists []; by split; [|left]].
    destruct (Naming.organizeBySeasons naming); [|exists []; by split; [|left]].
    exists (seasonFolderName naming s ++ [47]).
    split; [by rewrite <- (assoc_L (++))|]. right. apply last_snoc.
Qed.

Lemma targetOf_dir naming files f n :
  ∃ dir, targetOf naming files f n = dir ++ n
         ∧ (dir = [] ∨ last dir = Some 47).
Proof.
  unfold targetOf.
  destruct (list_find _ files) as [[i g]|]; [|exists []; by split; [|left]].
  destruct (FileInfo.metadata g); [|exists []; by split; [|left]].
  apply targetPath_dir.
Qed.

Section InsertFoldMono.
Context {A B : Type} (key : A → jsstring) (g : A → option B)
  (v : A → B → jsstring).

Lemma foldl_insert_mono (l : list A) (m0 : gmap jsstring jsstring) p :
  is_Some (m0 !! p) →
  is_Some (foldl (λ m x, match g x with
                         | Some n => <[key x := v x n]> m
                         | None => m
                         end) m0 l !! p).
Proof.
  revert m0. induction l as [|x l IH]; intros m0 H; [done|]. simpl.
  apply IH. destruct (g x) as [n|]; [|done].
  destruct (decide (key x = p)) as [<-|Hk].
  - rewrite lookup_insert_eq. by eexists.
  - by rewrite lookup_insert_ne.
Qed.

Lemma foldl_insert_elem (l : list A) (m0 : gmap jsstring jsstring) x :
  x ∈ l → is_Some (g x) →
  is_Some (foldl (λ m x, match g x with
                         | Some n => <[key x := v x n]> m
                         | None => m
                         end) m0 l !! key x).
Proof.
  revert m0. induction l as [|y l IH]; intros m0 Hx [n Hn].
  - by apply elem_of_nil in Hx.
  - apply elem_of_cons in Hx as [<-|Hx]; simpl.
    + apply foldl_insert_mono. rewrite Hn, lookup_insert_eq. by eexists.
    + apply IH; [done|by eexists].
Qed.

End InsertFoldMono.

Lemma targetOf_plain naming files f n :
  Forall (λ g, FileInfo.metadata g = None) files →
  targetOf naming files f n = n.
Proof.
  intros Hall. unfold targetOf.
  destruct (list_find _ files) as [[i g]|] eqn:E; [|done].
  apply list_find_Some in E as (Hi & [info Hinfo] & _).
  rewrite Forall_forall in Hall.
  rewrite (Hall g) in Hinfo; [done|]. by eapply list_elem_of_lookup_2.
Qed.

(** X3: the rename map holds exactly the paths of the files that have a
    non-empty new name.  The target of a path is the one of the last file
    with that path and a non-empty new name: a directory part, empty or
    ending with a slash, followed by the new name.  When no file has
    metadata, the target is the new name alone. *)
Theorem rename_map_entries (naming : Naming.t) (files : list FileInfo.t)
    (p : jsstring) :
  (is_Some (renameMap naming files !! p) ↔
     ∃ f n, f ∈ files ∧ FileInfo.path f = p
            ∧ FileInfo.new_name f = Some n ∧ n ≠ [])
  ∧ (∀ t, renameMap naming files !! p = Some t →
       ∃ before f after n dir,
         files = before ++ f :: after
         ∧ FileInfo.path f = p
         ∧ FileInfo.new_name f = Some n ∧ n ≠ []
         ∧ (∀ g, g ∈ after → FileInfo.path g = p → plannedName g = None)
         ∧ t = dir ++ n ∧ (dir = [] ∨ last dir = Some 47)
         ∧ (Forall (λ g, FileInfo.metadata g = None) files → dir = [])).
Proof.
  assert (∀ t, renameMap naming files !! p = Some t →
       ∃ before f after n dir,
         files = before ++ f :: after
         ∧ FileInfo.path f = p
         ∧ FileInfo.new_name f = Some n ∧ n ≠ []
         ∧ (∀ g, g ∈ after → FileInfo.path g = p → plannedName g = None)
         ∧ t = dir ++ n ∧ (dir = [] ∨ last dir = Some 47)
         ∧ (Forall (λ g, FileInfo.metadata g = None) files → dir = []))
    as Hinv.
  { intros t Ht. rewrite renameMap_fold in Ht.
    apply (foldl_insert_last FileInfo.path plannedName (targetOf naming files))
      in Ht as [[Ht _]|(before & f & after & n & Hsplit & Hp & Hn & -> & Hlast)];
      [done|].
    apply plannedName_Some in Hn as [Hn Hne].
    destruct (targetOf_dir naming files f n) as (dir & Hdir & Hshape).
    exists before, f, after, n, dir. split_and!; try done.
    intros Hplain. rewrite (targetOf_plain _ _ _ _ Hplain) in Hdir.
    apply (f_equal length) in Hdir. rewrite length_app in Hdir.
    destruct dir; [done|simpl in Hdir; lia]. }
  split; [|done]. split.
  - intros [t Ht].
    destruct (Hinv t Ht) as (before & f & after & n & _ & -> & ? & ? & ? & _).
    exists f, n. split_and!; try done.
    apply elem_of_app. right. apply list_elem_of_here.
  - intros (f & n & Hf & <- & Hn & Hne). rewrite renameMap_fold.
    apply (foldl_insert_elem FileInfo.path plannedName
             (targetOf naming files)); [done|].
    exists n. by apply plannedName_Some.
Qed.

(** X1: every video and every subtitle of the working set comes out of
    [applyMetadata] with a new name that ends with a dot and the file's own
    extension; its path is the one it had. *)
Theorem planned_names_carry_extension
    (localeCompare : jsstring → jsstring → Z) (naming : Naming.t)
    (animeData : AniListResponse.t) (files out : list FileInfo.t) (j : nat)
    (f : FileInfo.t) :
  applyMetadata localeCompare naming animeData files = Some out →
  files !! j = Some f →
  hasRole f = true →
  ∃ f' stem,
    out !! j = Some f'
    ∧ FileInfo.path f' = FileInfo.path f
    ∧ FileInfo.new_name f' = Some (stem ++ 46 :: FileInfo.file_type f).
Proof.
  intros Happ Hj Hrole.
  destruct (planned_shape _ _ _ _ _ _ _ Happ Hj Hrole) as (k & stem & Hout).
  eexists _, stem. by split; [exact Hout|].
Qed.

Lemma applyMetadata_paths localeCompare naming animeData files out :
  applyMetadata localeCompare naming animeData files = Some out →
  FileInfo.path <$> out = FileInfo.path <$> files.
Proof.
  intros Happ. destruct (applyMetadata_plans _ _ _ _ _ Happ) as [_ Hplans].
  pose proof (applyMetadata_length _ _ _ _ _ Happ) as Hlen.
  apply list_eq. intros j. rewrite !list_lookup_fmap.
  destruct (files !! j) as [f|] eqn:Hf.
  - destruct (Hplans j f Hf) as (plan & -> & _). simpl.
    by destruct plan as [[? ?]|].
  - apply lookup_ge_None in Hf. rewrite <- Hlen in Hf.
    apply lookup_ge_None in Hf. by rewrite Hf.
Qed.

Lemma knownSeason_planned animeData e n f :
  knownSeason
    (FileInfo.set_plan (mkAnimeInfo animeData e (Some (assignedSeason f))) n f)
  = Some (assignedSeason f).
Proof.
  unfold knownSeason. cbn.
  pose proof (assignedSeason_nonzero f) as Hnz.
  apply Z.eqb_neq in Hnz. rewrite Hnz. simpl. by rewrite Hnz.
Qed.

Lemma targetPath_planned naming animeData e s e' n f :
  targetPath naming (mkAnimeInfo animeData e s)
    (FileInfo.set_plan (mkAnimeInfo animeData e' (Some (assignedSeason f)))
       n f) n
  = plannedFolder naming animeData f ++ n.
Proof.
  unfold targetPath, plannedFolder. rewrite knownSeason_planned.
  change (animeFolderName naming (mkAnimeInfo animeData e s))
    with (animeFolderOf naming animeData).
  destruct (Naming.createAnimeFolders naming),
    (Naming.organizeBySeasons naming); simpl;
    rewrite <- ?(assoc_L (++)); simpl; try done.
Qed.

(** X2: after [applyMetadata], [processFiles] sends every video and every
    subtitle to the anime folder of the candidate (when anime folders are
    created), then the season folder of the season assigned to the file
    (when files are organized by season), then the new name.  A season
    folder is never left out, every planned file having a season. *)
Theorem planned_target_path
    (localeCompare : jsstring → jsstring → Z) (naming : Naming.t)
    (animeData : AniListResponse.t) (files out : list FileInfo.t) (j : nat)
    (f : FileInfo.t) :
  applyMetadata localeCompare naming animeData files = Some out →
  NoDup (FileInfo.path <$> files) →
  (∀ g, g ∈ files → hasRole g = false → FileInfo.metadata g = None) →
  files !! j = Some f →
  hasRole f = true →
  ∃ n, FileInfo.new_name <$> out !! j = Some (Some n)
       ∧ renameMap naming out !! FileInfo.path f
         = Some (plannedFolder naming animeData f ++ n).
Proof.
  intros Happ Hnd Hmeta Hj Hrole.
  destruct (planned_shape _ _ _ _ _ _ _ Happ Hj Hrole) as (k & stem & Hout).
  exists (stem ++ 46 :: FileInfo.file_type f).
  split; [by rewrite Hout|].
  rewrite renameMap_fold.
  rewrite <- (applyMetadata_paths _ _ _ _ _ Happ) in Hnd.
  pose proof (foldl_insert_hit FileInfo.path plannedName
                (targetOf naming out) out ∅ j _ Hnd Hout) as Hhit.
  cbn [FileInfo.path FileInfo.set_plan] in Hhit. rewrite Hhit. clear Hhit.
  assert (plannedName
            (FileInfo.set_plan
               (mkAnimeInfo animeData (Z.of_nat (k + 1))
                  (Some (assignedSeason f)))
               (stem ++ 46 :: FileInfo.file_type f) f)
          = Some (stem ++ 46 :: FileInfo.file_type f)) as ->.
  { apply plannedName_Some. split; [done|]. by destruct stem. }
  f_equal. unfold targetOf.
  destruct (list_find (λ f0, is_Some (FileInfo.metadata f0)) out)
    as [[i g]|] eqn:E.
  - apply list_find_Some in E as (Hi & [info Hinfo] & _).
    destruct (applyMetadata_plans _ _ _ _ _ Happ) as [_ Hplans].
    assert (is_Some (files !! i)) as [g0 Hg0].
    { apply lookup_lt_is_Some.
      rewrite <- (applyMetadata_length _ _ _ _ _ Happ).
      apply lookup_lt_is_Some. by eexists. }
    destruct (hasRole g0) eqn:Hr.
    + destruct (planned_shape _ _ _ _ _ _ _ Happ Hg0 Hr)
        as (k' & stem' & Hout').
      rewrite Hi in Hout'. injection Hout' as ->.
      cbn [FileInfo.metadata FileInfo.set_plan]. apply targetPath_planned.
    + exfalso. destruct (Hplans i g0 Hg0) as (plan & Hp & Hnone).
      assert (plan = None) as ->.
      { apply Hnone. unfold hasRole in Hr. by apply orb_false_iff in Hr. }
      rewrite Hi in Hp. injection Hp as ->. simpl in Hinfo.
      rewrite (Hmeta g0) in Hinfo; [done| |done].
      by eapply list_elem_of_lookup_2.
  - exfalso. apply list_find_None in E.
    rewrite Forall_forall in E. eapply E.
    + by eapply list_elem_of_lookup_2.
    + by eexists.
Qed.

(** ** Manual edits of a new name *)

Lemma sameInputs_set_new_name n f : sameInputs f (set_new_name n f).
Proof. by destruct f. Qed.

Lemma edit_lookup n (i : nat) (files : list FileInfo.t) (j : nat) :
  alter (set_new_name n) i files !! j
  = (if decide (i = j) then set_new_name n else id) <$> files !! j.
Proof.
  destruct (decide (i = j)) as [->|Hij].
  - by rewrite list_lookup_alter_eq.
  - rewrite list_lookup_alter_ne by done. by destruct (files !! j).
Qed.

Lemma edit_sameRole n i files :
  Forall2 sameRole files (alter (set_new_name n) i files).
Proof.
  apply Forall2_same_length_lookup. split; [by rewrite length_alter|].
  intros j g g' Hg. rewrite edit_lookup, Hg. simpl. intros [= <-].
  destruct (decide (i = j)); [|by destruct (sameInputs_refl g)].
  by destruct (sameInputs_set_new_name n g).
Qed.

Lemma sameRole_flip files files' :
  Forall2 sameRole files files' → Forall2 sameRole files' files.
Proof.
  intros H. apply Forall2_flip. eapply Forall2_impl; [exact H|].
  intros ? ?. apply sameRole_sym.
Qed.

(** X5: what a later call of [applyMetadata] makes of a manual edit.  The
    edited name of a video or a subtitle is overwritten: the call gives what
    it would have given without the edit.  The edited name of any other file
    is kept. *)
Theorem replanning_discards_manual_edit
    (localeCompare : jsstring → jsstring → Z) (naming : Naming.t)
    (animeData : AniListResponse.t) (files edited : list FileInfo.t)
    (index : nat) (newName : jsstring) (f : FileInfo.t) :
  editFileName index newName files = Some edited →
  files !! index = Some f →
  applyMetadata localeCompare naming animeData edited
  = if hasRole f then applyMetadata localeCompare naming animeData files
    else alter (set_new_name newName) index
           <$> applyMetadata localeCompare naming animeData files.
Proof.
  unfold editFileName. intros Hed Hf. rewrite Hf in Hed. injection Hed as <-.
  pose proof (edit_sameRole newName index files) as Hroles.
  destruct (applyMetadata localeCompare naming animeData files) as [out|]
    eqn:Happ.
  - destruct (replan_transfer _ _ _ _ _ _ Hroles Happ)
      as (out' & Happ' & Hplans).
    pose proof (applyMetadata_length _ _ _ _ _ Happ) as Hlen.
    pose proof (applyMetadata_length _ _ _ _ _ Happ') as Hlen'.
    rewrite length_alter in Hlen'.
    rewrite Happ'.
    assert (out' = if hasRole f then out
                   else alter (set_new_name newName) index out) as ->;
      [|by destruct (hasRole f)].
    apply list_eq. intros j.
    destruct (files !! j) as [g|] eqn:Hg.
    + pose proof (edit_lookup newName index files j) as Hg'.
      rewrite Hg in Hg'. simpl in Hg'.
      assert (sameInputs g
                ((if decide (index = j) then set_new_name newName else id) g))
        as Hsame.
      { destruct (decide (index = j));
          [apply sameInputs_set_new_name|apply sameInputs_refl]. }
      destruct (Hplans j g _ Hg Hg' Hsame) as (plan & Hout & -> & Hnone).
      destruct (decide (index = j)) as [->|Hij].
      * assert (g = f) as -> by congruence.
        destruct (hasRole f) eqn:Hr.
        -- rewrite Hout. destruct plan as [[info nn]|]; [done|].
           exfalso. destruct Hnone as [Hnone _].
           specialize (Hnone eq_refl) as [Hv Hs].
           unfold hasRole in Hr. by rewrite Hv, Hs in Hr.
        -- rewrite list_lookup_alter_eq, Hout. simpl.
           assert (plan = None) as ->; [|done].
           apply Hnone. unfold hasRole in Hr. by apply orb_false_iff in Hr.
      * simpl. destruct (hasRole f); [done|].
        by rewrite list_lookup_alter_ne.
    + apply lookup_ge_None in Hg.
      rewrite (proj2 (lookup_ge_None out' j)) by lia.
      symmetry. apply lookup_ge_None.
      destruct (hasRole f); rewrite ?length_alter; lia.
  - destruct (applyMetadata localeCompare naming animeData
                (alter (set_new_name newName) index files)) as [out'|]
      eqn:Happ'; [|by destruct (hasRole f)].
    destruct (replan_transfer _ _ _ _ _ _ (sameRole_flip _ _ Hroles) Happ')
      as (out & Hout & _).
    congruence.
Qed.

Lemma targetOf_edit naming n i files g m :
  targetOf naming (alter (set_new_name n) i files) g m
  = targetOf naming files g m.
Proof.
  unfold targetOf.
  assert (∀ l i,
    (match list_find (λ f, is_Some (FileInfo.metadata f))
             (alter (set_new_name n) i l) with
     | Some (_, h) => FileInfo.metadata h
     | None => None
     end)
    = (match list_find (λ f, is_Some (FileInfo.metadata f)) l with
       | Some (_, h) => FileInfo.metadata h
       | None => None
       end)) as H.
  { clear. induction l as [|x l IH]; intros i; [done|].
    destruct i as [|i]; cbn [alter list_alter list_find].
    - change (FileInfo.metadata (set_new_name n x)) with (FileInfo.metadata x).
      destruct (decide (is_Some (FileInfo.metadata x))); [done|].
      simpl. by destruct (list_find _ l) as [[? ?]|].
    - destruct (decide (is_Some (FileInfo.metadata x))); [done|].
      specialize (IH i). simpl.
      destruct (list_find _ (alter (set_new_name n) i l)) as [[? ?]|],
        (list_find _ l) as [[? ?]|]; simpl in *; done. }
  specialize (H files i).
  destruct (list_find _ (alter (set_new_name n) i files)) as [[? h']|],
    (list_find _ files) as [[? h]|]; simpl in *; try done.
  - by rewrite H.
  - by rewrite H.
  - by rewrite <- H.
Qed.

Lemma targetOf_new_name naming files n g m :
  targetOf naming files (set_new_name n g) m = targetOf naming files g m.
Proof. done. Qed.

(** X4: editing the new name of one file changes the rename map at the
    path of that file only: a non-empty name replaces the entry (the folder
    part staying what it was), the empty name removes the entry, so that the
    file is no longer renamed. *)
Theorem rename_map_after_edit (naming : Naming.t)
    (files edited : list FileInfo.t) (index : nat) (newName : jsstring)
    (f : FileInfo.t) :
  NoDup (FileInfo.path <$> files) →
  editFileName index newName files = Some edited →
  files !! index = Some f →
  renameMap naming edited
  = if truthy newName
    then <[FileInfo.path f := targetOf naming files f newName]>
           (renameMap naming files)
    else delete (FileInfo.path f) (renameMap naming files).
Proof.
  unfold editFileName. intros Hnd Hed Hf. rewrite Hf in Hed.
  injection Hed as <-.
  assert (FileInfo.path <$> alter (set_new_name newName) index files
          = FileInfo.path <$> files) as Hpaths.
  { apply list_eq. intros j. rewrite !list_lookup_fmap, edit_lookup.
    destruct (files !! j); [|done]. simpl. by destruct (decide (index = j)). }
  assert (NoDup (FileInfo.path <$> alter (set_new_name newName) index files))
    as Hnd' by by rewrite Hpaths.
  apply map_eq. intros p. rewrite !renameMap_fold.
  assert (alter (set_new_name newName) index files !! index
          = Some (set_new_name newName f)) as Hf'.
  { by rewrite list_lookup_alter_eq, Hf. }
  destruct (decide (p = FileInfo.path f)) as [->|Hp].
  - pose proof (foldl_insert_hit FileInfo.path plannedName
      (targetOf naming (alter (set_new_name newName) index files))
      _ ∅ _ _ Hnd' Hf') as Hhit.
    cbn [FileInfo.path set_new_name] in Hhit. rewrite Hhit.
    destruct newName as [|c r]; cbn [plannedName FileInfo.new_name
      set_new_name truthy].
    + by rewrite lookup_delete_eq.
    + by rewrite lookup_insert_eq, targetOf_edit.
  - rewrite <- (renameMap_fold naming files).
    trans (renameMap naming files !! p).
    2:{ destruct (truthy newName);
          [by rewrite lookup_insert_ne|by rewrite lookup_delete_ne]. }
    rewrite (renameMap_fold naming files).
    destruct (decide (p ∈ FileInfo.path <$> files)) as [Hin|Hout].
    + apply list_elem_of_fmap in Hin as (g & -> & Hg).
      apply list_elem_of_lookup in Hg as [j Hj].
      assert (index ≠ j) as Hij by (intros ->; congruence).
      assert (alter (set_new_name newName) index files !! j = Some g) as Hj'.
      { by rewrite list_lookup_alter_ne. }
      rewrite (foldl_insert_hit FileInfo.path plannedName
                 (targetOf naming (alter (set_new_name newName) index files))
                 _ ∅ _ _ Hnd' Hj').
      rewrite (foldl_insert_hit FileInfo.path plannedName
                 (targetOf naming files) _ ∅ _ _ Hnd Hj).
      destruct (plannedName g); [|done]. by rewrite targetOf_edit.
    + rewrite !foldl_insert_miss; [done| |].
      * intros x Hx <-. exfalso. apply Hout. by apply list_elem_of_fmap_2.
      * intros x Hx <-. exfalso. apply Hout. rewrite <- Hpaths.
        by apply list_elem_of_fmap_2.
Qed.

Lemma rename_map_entries_witness :
  let files := [FileInfo.mk (js "/anime/B.mkv") (js "B.mkv") 0%Z (js "mkv")
                  true false None None (Some (js "Example - 01.mkv"));
                selected (js "notes.txt") (js "txt") false false] in
  let naming := namingWith (js "{title} - {episode}") (js "{title}") in
  renameMap naming files !! js "/anime/B.mkv" = Some (js "Example - 01.mkv")
  ∧ renameMap naming files !! js "/anime/notes.txt" = None.
Proof.
  intros files naming. split; [by vm_compute|].
  destruct (renameMap naming files !! js "/anime/notes.txt") eqn:E; [|done].
  exfalso.
  destruct (proj1 (proj1 (rename_map_entries naming files
                            (js "/anime/notes.txt")))
              (ex_intro _ _ E))
    as (f & n & Hf & Hp & Hn & _).
  apply list_elem_of_In in Hf. simpl in Hf.
  destruct Hf as [<-|[<-|[]]]; done.
Defined.

Lemma planned_names_carry_extension_witness :
  let files := [selected (js "B.mkv") (js "mkv") true false;
                selected (js "notes.txt") (js "txt") false false;
                selected (js "A.chs.ass") (js "ass") false true] in
  let naming := namingWith (js "{title} - {episode}") (js "{title}") in
  let animeData := candidate (js "Example") in
  let out := filesAfter codeUnitCompare naming animeData files in
  applyMetadata codeUnitCompare naming animeData files = Some out
  ∧ ∃ f' stem,
      out !! 2%nat = Some f'
      ∧ FileInfo.path f' = js "/anime/A.chs.ass"
      ∧ FileInfo.new_name f' = Some (stem ++ js ".ass").
Proof.
  intros files naming animeData out.
  assert (applyMetadata codeUnitCompare naming animeData files = Some out)
    as Happ by by vm_compute.
  split; [exact Happ|].
  exact (planned_names_carry_extension codeUnitCompare naming animeData files
           out 2%nat _ Happ eq_refl eq_refl).
Defined.

Lemma planned_target_path_witness :
  let files := [selected (js "B S02.mkv") (js "mkv") true false;
                selected (js "notes.txt") (js "txt") false false;
                selected (js "A.chs.ass") (js "ass") false true] in
  let naming := namingWith (js "{title} - {episode}") (js "{title} ({year})") in
  let animeData :=
    AniListResponse.mk 1%Z
      (AniListResponse.mkTitle (Some (js "Example")) None None)
      None None (Some 2020%Z) None in
  let out := filesAfter codeUnitCompare naming animeData files in
  applyMetadata codeUnitCompare naming animeData files = Some out
  ∧ NoDup (FileInfo.path <$> files)
  ∧ plannedFolder naming animeData
      (selected (js "B S02.mkv") (js "mkv") true false)
    = js "Example (2020)/Season 2/"
  ∧ ∃ n, FileInfo.new_name <$> out !! 0%nat = Some (Some n)
         ∧ renameMap naming out !! js "/anime/B S02.mkv"
           = Some (js "Example (2020)/Season 2/" ++ n).
Proof.
  intros files naming animeData out.
  assert (applyMetadata codeUnitCompare naming animeData files = Some out)
    as Happ by by vm_compute.
  assert (NoDup (FileInfo.path <$> files)) as Hnd.
  { apply (bool_decide_unpack _). by vm_compute. }
  split; [exact Happ|]. split; [exact Hnd|]. split; [by vm_compute|].
  refine (planned_target_path codeUnitCompare naming animeData files
            out 0%nat _ Happ Hnd _ eq_refl eq_refl).
  intros g Hg _. apply list_elem_of_In in Hg. simpl in Hg.
  destruct Hg as [<-|[<-|[<-|[]]]]; reflexivity.
Defined.

Lemma replanning_discards_manual_edit_witness :
  let files := [selected (js "B.mkv") (js "mkv") true false;
                selected (js "notes.txt") (js "txt") false false] in
  let naming := namingWith (js "{title} - {episode}") (js "{title}") in
  let animeData := candidate (js "Example") in
  let edited := alter (set_new_name (js "mine.mkv")) 0%nat files in
  editFileName 0 (js "mine.mkv") files = Some edited
  ∧ applyMetadata codeUnitCompare naming animeData edited
    = applyMetadata codeUnitCompare naming animeData files.
Proof.
  intros files naming animeData edited. split; [reflexivity|].
  exact (replanning_discards_manual_edit codeUnitCompare naming animeData
           files edited 0%nat (js "mine.mkv") _ eq_refl eq_refl).
Defined.

Lemma rename_map_after_edit_witness :
  let files := [FileInfo.mk (js "/anime/B.mkv") (js "B.mkv") 0%Z (js "mkv")
                  true false None None (Some (js "Example - 01.mkv"));
                selected (js "notes.txt") (js "txt") false false] in
  let naming := namingWith (js "{title} - {episode}") (js "{title}") in
  let edited := alter (set_new_name []) 0%nat files in
  NoDup (FileInfo.path <$> files)
  ∧ editFileName 0 [] files = Some edited
  ∧ renameMap naming edited
    = delete (js "/anime/B.mkv") (renameMap naming files).
Proof.
  intros files naming edited.
  assert (NoDup (FileInfo.path <$> files)) as Hnd.
  { apply (bool_decide_unpack _). by vm_compute. }
  split; [exact Hnd|]. split; [reflexivity|].
  exact (rename_map_after_edit naming files edited 0%nat [] _ Hnd eq_refl
           eq_refl).
Defined.

(** ** The path of a selected file *)

Lemma splitWhere_nonempty isSep s : splitWhere isSep s ≠ [].
Proof.
  destruct s as [|c r]; simpl; [done|].
  destruct (isSep c); [done|]. by destruct (splitWhere isSep r).
Qed.

(** Joining the parts with a slash gives the path back, every separator
    written as a slash. *)
Lemma join_splitWhere path :
  join [47] (splitWhere isPathSeparator path) = slashed path.
Proof.
  induction path as [|c r IH]; [done|].
  change (slashed (c :: r))
    with ((if isPathSeparator c then 47 else c) :: slashed r).
  rewrite <- IH. cbn [splitWhere].
  destruct (splitWhere isPathSeparator r) as [|p rest] eqn:Er;
    [by apply splitWhere_nonempty in Er|].
  by destruct (isPathSeparator c).
Qed.

Lemma splitWhere_parts isSep s :
  Forall (λ part, Forall (λ c, isSep c = false) part) (splitWhere isSep s).
Proof.
  induction s as [|c r IH]; simpl; [by repeat constructor|].
  destruct (isSep c) eqn:E; [by constructor|].
  destruct (splitWhere isSep r) as [|p rest]; [by repeat constructor|].
  apply Forall_cons in IH as [Hp Hrest]. by repeat constructor.
Qed.

Lemma join_snoc sep parts p :
  parts ≠ [] → join sep (parts ++ [p]) = join sep parts ++ sep ++ p.
Proof.
  destruct parts as [|q rest]; [done|]. intros _. simpl.
  rewrite fmap_app, join_app. simpl.
  by rewrite (right_id_L [] (++)), <- (assoc_L (++)).
Qed.

(** The last part and what precedes it. *)
Lemma splitWhere_last isSep s :
  ∃ dir, s = dir ++ popOrEmpty (splitWhere isSep s)
         ∧ ((dir = [] ∧ splitWhere isSep s = [s])
            ∨ ((∃ c, last dir = Some c ∧ isSep c = true)
               ∧ ∃ init, init ≠ []
                   ∧ splitWhere isSep s
                     = init ++ [popOrEmpty (splitWhere isSep s)])).
Proof.
  unfold popOrEmpty. induction s as [|c r IH]; [exists []; by split; [|left]|].
  destruct IH as (dir & Hr & Hcase). cbn [splitWhere].
  destruct (isSep c) eqn:E.
  - exists (c :: dir).
    assert (last ([] :: splitWhere isSep r) = last (splitWhere isSep r))
      as ->.
    { destruct (splitWhere isSep r) eqn:Er; [|done].
      by apply splitWhere_nonempty in Er. }
    split; [by rewrite Hr at 1|]. right.
    destruct Hcase as [[-> Hs]|[Hlast (init & Hinit & Hs)]].
    + split; [by exists c|]. exists [[]]. split; [done|].
      rewrite Hs. done.
    + split.
      * destruct Hlast as (d & Hd & Hsep). exists d. split; [|done].
        destruct dir; [done|]. done.
      * exists ([] :: init). split; [done|]. by rewrite Hs at 1.
  - destruct Hcase as [[-> Hs]|[Hlast (init & Hinit & Hs)]].
    + exists []. rewrite Hs. split; [done|]. by left.
    + exists (c :: dir).
      destruct (splitWhere isSep r) as [|seg segs] eqn:Er;
        [by apply splitWhere_nonempty in Er|].
      destruct init as [|seg' init]; [done|].
      injection Hs as -> Hsegs.
      assert (segs ≠ []) as Hne by (rewrite Hsegs; by destruct init).
      assert (last ((c :: seg') :: segs) = last (seg' :: segs)) as Hl.
      { by destruct segs. }
      rewrite Hl. split; [by rewrite Hr at 1|]. right. split.
      * destruct Hlast as (d & Hd & Hsep). exists d. split; [|done].
        destruct dir; [done|]. done.
      * exists ((c :: seg') :: init). split; [done|].
        by rewrite Hsegs at 1.
Qed.

Lemma popOrEmpty_no_separator isSep s :
  Forall (λ c, isSep c = false) (popOrEmpty (splitWhere isSep s)).
Proof.
  unfold popOrEmpty.
  destruct (last (splitWhere isSep s)) as [p|] eqn:E; [|constructor].
  simpl. pose proof (splitWhere_parts isSep s) as H.
  rewrite Forall_forall in H. apply H.
  apply last_Some in E as [init ->]. apply elem_of_app. right.
  apply list_elem_of_here.
Qed.

(** X10: the name [handleFileSelect] gives a selected file is the part of
    the path after its last slash or backslash: the path is a directory part,
    empty or ending with a separator, followed by the name, and the name holds
    no separator. *)
Theorem selected_name_is_last_component (toLowerCase : jsstring → jsstring)
    (path : jsstring) :
  let f := fileOfPath toLowerCase path in
  FileInfo.path f = path
  ∧ Forall (λ c, isPathSeparator c = false) (FileInfo.name f)
  ∧ ∃ dir, path = dir ++ FileInfo.name f
           ∧ (dir = []
              ∨ ∃ c, last dir = Some c ∧ isPathSeparator c = true).
Proof.
  cbn. split; [done|]. split; [apply popOrEmpty_no_separator|].
  destruct (splitWhere_last isPathSeparator path) as (dir & Hp & Hcase).
  exists dir. split; [exact Hp|].
  destruct Hcase as [[-> _]|[Hlast _]]; [by left|by right].
Qed.

(** X11: the source directory [processFiles] hands to the hard-link check.
    For a path with a separator it is the directory part with every backslash
    written as a slash: followed by a slash and the last component it gives
    the path back, up to the separators.  For a path without any separator it
    is the empty string. *)
Theorem source_directory (path : jsstring) :
  (Forall (λ c, isPathSeparator c = false) path →
     sourceDir path = [] ∧ baseName path = path)
  ∧ (Exists (λ c, isPathSeparator c = true) path →
     sourceDir path ++ 47 :: baseName path = slashed path).
Proof.
  unfold sourceDir, baseName.
  destruct (splitWhere_last isPathSeparator path) as (dir & Hp & Hcase).
  split.
  - intros Hplain.
    destruct Hcase as [[-> Hs]|[(c & Hlast & Hsep) _]].
    + rewrite Hs. done.
    + exfalso. rewrite Forall_forall in Hplain.
      assert (c ∈ path) as Hc.
      { rewrite Hp. apply elem_of_app. left.
        apply last_Some in Hlast as [d ->]. apply elem_of_app. right.
        apply list_elem_of_here. }
      specialize (Hplain c Hc). congruence.
  - intros Hsep.
    destruct Hcase as [[-> Hs]|[_ (init & Hinit & Hs)]].
    + exfalso. apply Exists_exists in Hsep as (c & Hc & Hsep).
      pose proof (popOrEmpty_no_separator isPathSeparator path) as H.
      rewrite Hs in H. cbn in H. rewrite Forall_forall in H.
      specialize (H c Hc). congruence.
    + rewrite <- join_splitWhere. rewrite Hs at 1 2.
      rewrite length_app, Nat.add_sub. cbn [length].
      rewrite take_app_length. rewrite Hs at 2.
      by rewrite join_snoc.
Qed.

Lemma source_directory_witness :
  Exists (λ c, isPathSeparator c = true) (js "C:\anime/show\B.mkv")
  ∧ sourceDir (js "C:\anime/show\B.mkv") = js "C:/anime/show"
  ∧ baseName (js "C:\anime/show\B.mkv") = js "B.mkv"
  ∧ sourceDir (js "C:\anime/show\B.mkv") ++ 47 :: baseName (js "C:\anime/show\B.mkv")
    = slashed (js "C:\anime/show\B.mkv")
  ∧ Forall (λ c, isPathSeparator c = false) (js "B.mkv")
  ∧ sourceDir (js "B.mkv") = [].
Proof.
  assert (Exists (λ c, isPathSeparator c = true) (js "C:\anime/show\B.mkv"))
    as Hsep.
  { apply Exists_exists. exists 92. split; [|done].
    apply (bool_decide_unpack _). by vm_compute. }
  assert (Forall (λ c, isPathSeparator c = false) (js "B.mkv")) as Hplain.
  { by repeat constructor. }
  split_and!; [exact Hsep|by vm_compute|by vm_compute| |exact Hplain|].
  - exact (proj2 (source_directory _) Hsep).
  - exact (proj1 (proj1 (source_directory _) Hplain)).
Defined.

(** ** The roles given at intake *)

Lemma roles_exclusive extension :
  bool_decide (extension ∈ videoExtensions)
  && bool_decide (extension ∈ subtitleExtensions) = false.
Proof.
  apply andb_false_iff.
  destruct (bool_decide (extension ∈ videoExtensions)) eqn:Ev; [|by left].
  right. apply bool_decide_eq_true in Ev. apply bool_decide_eq_false.
  unfold videoExtensions in Ev. unfold subtitleExtensions.
  set_unfold. intros Hs.
  destruct Ev as [->|[->|[->|[->|[->|[]]]]]];
    destruct Hs as [?|[?|[?|[]]]]; done.
Qed.

Section IntakeFacts.
Variable toLowerCase : jsstring → jsstring.

Lemma acceptDropped_inv d f :
  acceptDropped toLowerCase d = Some f →
  xorb (FileInfo.is_video f) (FileInfo.is_subtitle f) = true
  ∧ FileInfo.path f ≠ []
  ∧ dropped_path d = Some (FileInfo.path f)
  ∧ FileInfo.name f = dropped_name d
  ∧ FileInfo.size f = dropped_size d
  ∧ FileInfo.file_type f = extensionOf toLowerCase (dropped_name d)
  ∧ FileInfo.is_video f = bool_decide (FileInfo.file_type f ∈ videoExtensions)
  ∧ FileInfo.is_subtitle f
    = bool_decide (FileInfo.file_type f ∈ subtitleExtensions)
  ∧ FileInfo.parsed f = None ∧ FileInfo.metadata f = None
  ∧ FileInfo.new_name f = None.
Proof.
  unfold acceptDropped.
  pose proof (roles_exclusive (extensionOf toLowerCase (dropped_name d)))
    as Hex.
  destruct (bool_decide (_ ∈ videoExtensions)) eqn:Ev,
    (bool_decide (_ ∈ subtitleExtensions)) eqn:Es; try done;
    cbn [orb];
    (destruct (dropped_path d) as [[|c p]|]; cbn; [done| |done]);
    intros [= <-]; cbn; by rewrite ?Ev, ?Es.
Qed.

Lemma acceptDropped_is_Some d :
  is_Some (acceptDropped toLowerCase d) ↔
  (extensionOf toLowerCase (dropped_name d) ∈ videoExtensions
   ∨ extensionOf toLowerCase (dropped_name d) ∈ subtitleExtensions)
  ∧ ∃ p, dropped_path d = Some p ∧ p ≠ [].
Proof.
  unfold acceptDropped.
  set (extension := extensionOf toLowerCase (dropped_name d)).
  assert (bool_decide (extension ∈ videoExtensions)
          || bool_decide (extension ∈ subtitleExtensions) = true
          ↔ extension ∈ videoExtensions ∨ extension ∈ subtitleExtensions)
    as Hrole.
  { by rewrite orb_true_iff, !bool_decide_eq_true. }
  destruct (bool_decide (extension ∈ videoExtensions)
            || bool_decide (extension ∈ subtitleExtensions)).
  - destruct (dropped_path d) as [[|c p]|]; cbn.
    + split; [by intros [? ?]|]. by intros [_ (q & [= <-] & ?)].
    + split; [|by eexists]. intros _. split; [by apply Hrole|by eexists].
    + split; [by intros [? ?]|]. by intros [_ (q & ? & _)].
  - split; [by intros [? ?]|]. intros [Hr _]. by apply Hrole in Hr.
Qed.

End IntakeFacts.

(** X12: [handleFiles] appends, in their order, the dropped files that
    have a supported extension and a path, and nothing else.  Each file it
    appends has exactly one role, given by its lower-cased extension, a
    non-empty path and no plan; [handleFileSelect] appends one file for every
    selected path, in order, with at most one role and no plan. *)
Theorem intake_roles (toLowerCase : jsstring → jsstring)
    (prev : list FileInfo.t) :
  (∀ fileList, ∃ newFiles,
     handleFiles toLowerCase fileList prev = prev ++ newFiles
     ∧ FileInfo.name <$> newFiles
       = dropped_name <$>
           filter (λ d, is_Some (acceptDropped toLowerCase d)) fileList
     ∧ Forall (λ f, xorb (FileInfo.is_video f) (FileInfo.is_subtitle f) = true
                    ∧ FileInfo.path f ≠ []
                    ∧ FileInfo.is_video f
                      = bool_decide (FileInfo.file_type f ∈ videoExtensions)
                    ∧ FileInfo.is_subtitle f
                      = bool_decide
                          (FileInfo.file_type f ∈ subtitleExtensions)
                    ∧ FileInfo.metadata f = None
                    ∧ FileInfo.new_name f = None) newFiles)
  ∧ (∀ d, is_Some (acceptDropped toLowerCase d) ↔
       (extensionOf toLowerCase (dropped_name d) ∈ videoExtensions
        ∨ extensionOf toLowerCase (dropped_name d) ∈ subtitleExtensions)
       ∧ ∃ p, dropped_path d = Some p ∧ p ≠ [])
  ∧ (∀ selected, ∃ newFiles,
       handleFileSelect toLowerCase (Some selected) prev = prev ++ newFiles
       ∧ FileInfo.path <$> newFiles = selected
       ∧ Forall (λ f, FileInfo.is_video f && FileInfo.is_subtitle f = false
                      ∧ FileInfo.size f = 0%Z
                      ∧ FileInfo.metadata f = None
                      ∧ FileInfo.new_name f = None) newFiles).
Proof.
  split; [|split].
  - intros fileList. exists (omap (acceptDropped toLowerCase) fileList).
    split; [|split].
    + unfold handleFiles.
      destruct (omap _ fileList); [by rewrite (right_id_L [] (++))|done].
    + induction fileList as [|d l IH]; [done|]. cbn [omap list_omap].
      rewrite filter_cons.
      destruct (acceptDropped toLowerCase d) as [f|] eqn:E.
      * rewrite decide_True by by eexists. rewrite !fmap_cons.
        f_equal; [|exact IH].
        by destruct (acceptDropped_inv _ _ _ E) as (_ & _ & _ & ? & _).
      * rewrite decide_False; [exact IH|]. by intros [? ?].
    + apply Forall_forall. intros f Hf.
      apply list_elem_of_omap in Hf as (d & _ & Hd).
      destruct (acceptDropped_inv _ _ _ Hd)
        as (? & ? & _ & _ & _ & _ & ? & ? & _ & ? & ?).
      done.
  - apply acceptDropped_is_Some.
  - intros selected. exists (fileOfPath toLowerCase <$> selected).
    split; [|split].
    + unfold handleFileSelect.
      destruct selected; simpl; [by rewrite (right_id_L [] (++))|done].
    + rewrite <- list_fmap_compose. apply list_fmap_id.
    + apply Forall_forall. intros f (p & -> & _)%list_elem_of_fmap.
      cbn. split; [apply roles_exclusive|done].
Qed.

(** ** Removing a file *)

Lemma removeFile_outside (l : list FileInfo.t) k index :
  (index < k)%nat →
  (filter (λ x, x.1 ≠ index) (imap (λ i f, (k + i, f)%nat) l)).*2 = l.
Proof.
  revert k. induction l as [|x l IH]; intros k Hk; [done|].
  cbn [imap]. rewrite filter_cons, decide_True by (simpl; lia).
  rewrite fmap_cons. simpl. f_equal.
  rewrite (imap_ext _ (λ i f, (S k + i, f)%nat)); [|intros; simpl; f_equal; lia].
  apply IH. lia.
Qed.

Lemma removeFile_from (l : list FileInfo.t) k index :
  (filter (λ x, x.1 ≠ (k + index)%nat) (imap (λ i f, (k + i, f)%nat) l)).*2
  = take index l ++ drop (S index) l.
Proof.
  revert k index. induction l as [|x l IH]; intros k index.
  - by destruct index.
  - cbn [imap]. rewrite filter_cons.
    rewrite (imap_ext _ (λ i f, (S k + i, f)%nat)); [|intros; simpl; f_equal; lia].
    destruct index as [|index].
    + rewrite decide_False by (simpl; lia).
      exact (removeFile_outside l (S k) (k + 0) ltac:(lia)).
    + rewrite decide_True by (simpl; lia).
      rewrite fmap_cons. cbn [take drop app snd]. f_equal.
      replace (k + S index)%nat with (S k + index)%nat by lia. apply IH.
Qed.

(** X13: [removeFile] takes out the file at [index] and nothing else, the
    other files keeping their order and their plans; an [index] that is not
    an index of the working set removes nothing. *)
Theorem removeFile_removes_one (index : nat) (prev : list FileInfo.t) :
  removeFile index prev = take index prev ++ drop (S index) prev
  ∧ (∀ f, prev !! index = Some f →
       prev = take index prev ++ f :: drop (S index) prev
       ∧ S (length (removeFile index prev)) = length prev)
  ∧ (prev !! index = None → removeFile index prev = prev).
Proof.
  assert (removeFile index prev = take index prev ++ drop (S index) prev)
    as H.
  { unfold removeFile. apply (removeFile_from prev 0 index). }
  split; [exact H|]. split.
  - intros f Hf. split.
    + symmetry. by apply take_drop_middle.
    + rewrite H, length_app, length_take, length_drop.
      apply lookup_lt_Some in Hf. lia.
  - intros Hnone. apply lookup_ge_None in Hnone. rewrite H.
    rewrite take_ge, drop_ge by lia. apply (right_id_L [] (++)).
Qed.

Lemma removeFile_removes_one_witness :
  let a := selected (js "A.mkv") (js "mkv") true false in
  let b := selected (js "B.mkv") (js "mkv") true false in
  let c := selected (js "C.ass") (js "ass") false true in
  removeFile 1 [a; b; c] = [a; c]
  ∧ removeFile 3 [a; b; c] = [a; b; c].
Proof.
  intros a b c. split.
  - exact (proj1 (removeFile_removes_one 1 [a; b; c])).
  - exact (proj2 (proj2 (removeFile_removes_one 3 [a; b; c])) eq_refl).
Defined.

(** ** The stored configuration *)

Lemma findFirst_prefix p t : findFirst p (p ++ t) = Some ([], t).
Proof.
  rewrite findFirst_unfold, startsWith_app. by rewrite drop_app_length.
Qed.

Lemma replace_prefix_empty p t : replace (p ++ t) p [] = t.
Proof. unfold replace. by rewrite findFirst_prefix. Qed.

Lemma includes_prefix p t : includes (p ++ t) p = true.
Proof. unfold includes. by rewrite findFirst_prefix. Qed.

Lemma stripExtPlaceholder_ext t :
  stripExtPlaceholder (t ++ js "{ext}") = t.
Proof.
  unfold stripExtPlaceholder. rewrite endsWith_app.
  rewrite length_app. simpl. rewrite Nat.add_sub. apply take_app_length.
Qed.

Lemma stripExtPlaceholder_cases s :
  (endsWith s (js "{ext}") = true
   ∧ s = stripExtPlaceholder s ++ js "{ext}")
  ∨ (endsWith s (js "{ext}") = false ∧ stripExtPlaceholder s = s).
Proof.
  destruct (endsWith s (js "{ext}")) eqn:E; [left|right].
  - split; [done|]. destruct (endsWith_suffix _ _ E) as [t ->].
    by rewrite stripExtPlaceholder_ext.
  - split; [done|]. unfold stripExtPlaceholder. by rewrite E.
Qed.

Lemma loadedSubtitleSuffix_saved config naming outputDir :
  loadedSubtitleSuffix (savedConfig config naming outputDir)
  = if endsWith (Naming.fileNameTemplate naming) (js "{ext}")
    then js "{ext}" ++ Naming.subtitleSuffix naming
    else if truthy (Naming.subtitleSuffix naming)
         then Naming.subtitleSuffix naming
         else if truthy (Naming.fileNameTemplate naming) then js ".chs"
              else js "{title_romaji} - S{season}E{episode:02}.chs".
Proof.
  unfold loadedSubtitleSuffix, savedConfig.
  cbn [AppConfig.subtitle_template AppConfig.naming_template].
  destruct naming as [T S ? ? ? ?]. cbn [Naming.fileNameTemplate
    Naming.subtitleSuffix].
  destruct (endsWith T (js "{ext}")) eqn:E.
  - destruct (endsWith_suffix _ _ E) as [t ->].
    rewrite stripExtPlaceholder_ext.
    assert (or_else (Some ((t ++ js "{ext}") ++ S))
              (js "{title_romaji} - S{season}E{episode:02}.chs")
            = t ++ js "{ext}" ++ S) as ->.
    { rewrite <- (assoc_L (++)). unfold or_else. by destruct t. }
    by rewrite includes_prefix, replace_prefix_empty.
  - assert (stripExtPlaceholder T = T) as ->.
    { unfold stripExtPlaceholder. by rewrite E. }
    clear E.
    destruct T as [|c T], S as [|d S]; try reflexivity.
    + change (or_else (Some ((c :: T) ++ []))
                (js "{title_romaji} - S{season}E{episode:02}.chs"))
        with ((c :: T) ++ []).
      by rewrite includes_prefix, replace_prefix_empty.
    + change (or_else (Some ((c :: T) ++ d :: S))
                (js "{title_romaji} - S{season}E{episode:02}.chs"))
        with ((c :: T) ++ d :: S).
      by rewrite includes_prefix, replace_prefix_empty.
Qed.

(** X17: the subtitle suffix the page shows after its settings were stored
    and loaded again (the backend giving the stored configuration back).
    The suffix comes back as it was when it is not empty and the file-name
    template does not end with the extension placeholder.  After a template
    that ends with the extension placeholder, the placeholder comes back in
    front of the suffix.  An empty suffix comes back as ".chs". *)
Theorem subtitle_suffix_after_reload (config : AppConfig.t)
    (naming : Naming.t) (outputDir : option jsstring) :
  loadedSubtitleSuffix (savedConfig config naming outputDir)
  = if endsWith (Naming.fileNameTemplate naming) (js "{ext}")
    then js "{ext}" ++ Naming.subtitleSuffix naming
    else if truthy (Naming.subtitleSuffix naming)
         then Naming.subtitleSuffix naming
         else if truthy (Naming.fileNameTemplate naming) then js ".chs"
              else js "{title_romaji} - S{season}E{episode:02}.chs".
Proof. apply loadedSubtitleSuffix_saved. Qed.

(** X18: storing the settings and loading them again gives the naming
    state back, when the file-name template does not end with the extension
    placeholder, the subtitle suffix and the season-folder template are not
    empty, and the stored flag of the anime folders is the one of the page
    (that flag is not written by [saveCurrentSettings]). *)
Theorem settings_round_trip (config : AppConfig.t) (naming : Naming.t)
    (outputDir : option jsstring) :
  endsWith (Naming.fileNameTemplate naming) (js "{ext}") = false →
  Naming.subtitleSuffix naming ≠ [] →
  Naming.seasonFolderTemplate naming ≠ [] →
  AppConfig.create_anime_folders config
  = Some (Naming.createAnimeFolders naming) →
  loadConfig (savedConfig config naming outputDir) = naming.
Proof.
  intros Hext Hsfx Hseason Hflag. unfold loadConfig.
  rewrite loadedSubtitleSuffix_saved, Hext.
  unfold savedConfig. cbn. rewrite Hflag.
  destruct naming as [T S F SF o c]. cbn in *.
  destruct S; [done|]. destruct SF; [done|]. by destruct c.
Qed.

Lemma settings_round_trip_witness :
  let naming := namingWith (js "{title_romaji} - S{season}E{episode:02}")
                  (js "{title_romaji} ({year})") in
  let config := AppConfig.mk (js "/out") [] None [] [] false (Some true)
                  true true true false 4%Z (js "info") in
  loadConfig (savedConfig config naming None) = naming.
Proof.
  intros naming config.
  exact (settings_round_trip config naming None eq_refl
           ltac:(discriminate) ltac:(discriminate) eq_refl).
Defined.

Lemma findFirst_Some p s before after :
  findFirst p s = Some (before, after) → s = before ++ p ++ after.
Proof.
  revert before. induction s as [|c s IH]; intros before;
    rewrite findFirst_unfold.
  - destruct (startsWith [] p) eqn:E; [|done].
    intros [= <- <-]. apply startsWith_prefix in E as [t Ht].
    symmetry in Ht. apply app_eq_nil in Ht as [-> ->]. done.
  - destruct (startsWith (c :: s) p) eqn:E.
    + intros [= <- <-]. apply startsWith_prefix in E as [t Ht].
      rewrite Ht at 2. by rewrite drop_app_length.
    + destruct (findFirst p s) as [[b a]|]; [|done].
      intros [= <- <-]. by rewrite (IH b).
Qed.

Lemma includes_elem s p c : includes s p = true → c ∈ p → c ∈ s.
Proof.
  unfold includes. destruct (findFirst p s) as [[b a]|] eqn:E; [|done].
  intros _ Hc. rewrite (findFirst_Some _ _ _ _ E).
  apply elem_of_app. right. apply elem_of_app. by left.
Qed.

(** X19: what an edit of the file-name template stores.  The stored
    subtitle template is built from the template as it was before the edit
    (the old template followed by the suffix), the stored naming template is
    the new one.  When the configuration is loaded again (the backend giving
    it back as stored), the new template is taken without a trailing
    [{ext}]: its base.  If the old template is that base followed by some
    text (the edit deleted the end of the template, or only added or
    removed a trailing [{ext}]), the suffix comes back as that text followed
    by the old suffix; when that is empty it comes back as ".chs", and as
    the whole default subtitle template when the old template was empty as
    well.  If the base holds a character that neither the old template nor
    the suffix holds, and these two are not both empty, the suffix comes
    back as ".chs". *)
Theorem template_edit_changes_suffix (config : AppConfig.t)
    (naming : Naming.t) (outputDir : option jsstring)
    (template : jsstring) :
  let base := stripExtPlaceholder template in
  let old := Naming.fileNameTemplate naming in
  let suffix := Naming.subtitleSuffix naming in
  let loaded :=
    loadedSubtitleSuffix
      (savedAfterTemplateEdit config naming outputDir template) in
  ((endsWith template (js "{ext}") = true ∧ template = base ++ js "{ext}")
   ∨ (endsWith template (js "{ext}") = false ∧ base = template))
  ∧ (∀ deleted,
       old = base ++ deleted →
       loaded
       = if truthy (deleted ++ suffix) then deleted ++ suffix
         else if truthy old then js ".chs"
         else js "{title_romaji} - S{season}E{episode:02}.chs")
  ∧ (∀ c,
       c ∈ base →
       c ∉ old ++ suffix →
       old ++ suffix ≠ [] →
       loaded = js ".chs").
Proof.
  intros base old suffix loaded.
  split; [apply stripExtPlaceholder_cases|].
  subst loaded.
  unfold loadedSubtitleSuffix, savedAfterTemplateEdit, savedConfig.
  cbn [AppConfig.subtitle_template AppConfig.naming_template].
  fold base. subst old suffix.
  destruct naming as [T S ? ? ? ?]. cbn [Naming.fileNameTemplate
    Naming.subtitleSuffix] in *.
  split.
  - intros deleted ->.
    destruct (truthy (deleted ++ S)) eqn:Hd.
    + assert (or_else (Some ((base ++ deleted) ++ S))
                (js "{title_romaji} - S{season}E{episode:02}.chs")
              = base ++ deleted ++ S) as ->.
      { unfold or_else. rewrite <- (assoc_L (++)).
        destruct base; [|done]. cbn [app]. by rewrite Hd. }
      rewrite includes_prefix, replace_prefix_empty. by rewrite Hd.
    + destruct deleted; [|done]. destruct S; [|done].
      rewrite !app_nil_r. destruct base as [|c base'] eqn:Hb.
      * by vm_compute.
      * assert (or_else (Some (c :: base'))
                  (js "{title_romaji} - S{season}E{episode:02}.chs")
                = (c :: base') ++ []) as ->.
        { by rewrite app_nil_r. }
        by rewrite includes_prefix, replace_prefix_empty.
  - intros c Hc Hfresh Hne.
    assert (or_else (Some (T ++ S))
              (js "{title_romaji} - S{season}E{episode:02}.chs")
            = T ++ S) as ->.
    { unfold or_else. by destruct (T ++ S). }
    destruct (includes (T ++ S) base) eqn:E; [|done].
    exfalso. apply Hfresh. by apply (includes_elem _ base).
Qed.

Lemma template_edit_changes_suffix_witness :
  let config := AppConfig.mk (js "/out") [] None [] [] false (Some true)
                  true true true false 4%Z (js "info") in
  let state old :=
    Naming.mk old (js ".sc")
      (js "{title}") (js "Season {season}") true true in
  loadedSubtitleSuffix
    (savedAfterTemplateEdit config (state (js "{title} - {episode}")) None
       (js "{title} - "))
  = js "{episode}.sc"
  ∧ loadedSubtitleSuffix
      (savedAfterTemplateEdit config (state (js "{title}")) None
         (js "{title}{ext}"))
    = js ".sc"
  ∧ loadedSubtitleSuffix
      (savedAfterTemplateEdit config (state (js "X.{ext}!")) None
         (js "X.{ext}"))
    = js "{ext}!.sc"
  ∧ loadedSubtitleSuffix
      (savedAfterTemplateEdit config (state (js "{title} - {episode}")) None
         (js "{title} - {episode}!.{ext}"))
    = js ".chs".
Proof.
  intros config state. split; [|split; [|split]].
  - exact (proj1 (proj2 (template_edit_changes_suffix config
                           (state (js "{title} - {episode}")) None
                           (js "{title} - ")))
             (js "{episode}") eq_refl).
  - exact (proj1 (proj2 (template_edit_changes_suffix config
                           (state (js "{title}")) None
                           (js "{title}{ext}")))
             [] eq_refl).
  - exact (proj1 (proj2 (template_edit_changes_suffix config
                           (state (js "X.{ext}!")) None
                           (js "X.{ext}")))
             (js "{ext}!") eq_refl).
  - refine (proj2 (proj2 (template_edit_changes_suffix config
                           (state (js "{title} - {episode}")) None
                           (js "{title} - {episode}!.{ext}")))
             33 _ _ _).
    + apply (bool_decide_unpack _). by vm_compute.
    + apply (bool_decide_unpack _). by vm_compute.
    + discriminate.
Defined.

(** ** The search started by [parseFilenames] *)

Lemma findIndex_elem pred (l : list FileInfo.t) f :
  f ∈ l → pred f = true → is_Some (findIndex pred l).
Proof.
  induction l as [|g l IH]; intros Hf Hp; [by apply elem_of_nil in Hf|].
  cbn [findIndex]. destruct (pred g) eqn:E; [by eexists|].
  apply elem_of_cons in Hf as [->|Hf]; [congruence|].
  destruct (IH Hf Hp) as [i ->]. by eexists.
Qed.

Lemma findIndex_known_path (l : list FileInfo.t) p :
  p ∈ FileInfo.path <$> l →
  is_Some (findIndex (λ f, eqb (FileInfo.path f) p) l).
Proof.
  intros (f & -> & Hf)%list_elem_of_fmap.
  apply (findIndex_elem _ l f); [done|]. by apply eqb_true.
Qed.

Lemma findIndex_lt pred (l : list FileInfo.t) i :
  findIndex pred l = Some i → (i < length l)%nat.
Proof.
  revert i. induction l as [|g l IH]; intros i; [done|].
  cbn [findIndex]. destruct (pred g); [intros [= <-]; simpl; lia|].
  destruct (findIndex pred l) as [j|]; [|done].
  intros [= <-]. specialize (IH j eq_refl). simpl. lia.
Qed.

Lemma set_parsed_paths parsed i (l : list FileInfo.t) :
  FileInfo.path <$> alter (FileInfo.set_parsed parsed) i l
  = FileInfo.path <$> l.
Proof.
  apply list_eq. intros j. rewrite !list_lookup_fmap.
  destruct (decide (i = j)) as [->|Hij].
  - rewrite list_lookup_alter_eq. by destruct (l !! j).
  - by rewrite list_lookup_alter_ne.
Qed.

(** The loop on its whole state: the array is the one of [parseStep], the
    counter counts the accepted parses, the title is the first non-empty
    one. *)
Lemma parseTurn_loop parse videos i updatedFiles parsedCount first :
  (∀ v, v ∈ videos → FileInfo.path v ∈ FileInfo.path <$> updatedFiles) →
  forEachFrom (parseTurn parse) videos i (updatedFiles, parsedCount, first)
  = (forEachFrom (parseStep parse) videos i updatedFiles,
     (parsedCount + length (parsedTitles parse videos i))%nat,
     if truthy first then first
     else default []
            (head (filter (λ t, t ≠ []) (parsedTitles parse videos i)))).
Proof.
  revert i updatedFiles parsedCount first.
  induction videos as [|v videos IH];
    intros i updatedFiles parsedCount first Hpaths.
  - cbn. rewrite Nat.add_0_r. by destruct first.
  - cbn [forEachFrom parsedTitles]. unfold parseTurn at 2, parseStep at 2.
    destruct (parse i (FileInfo.name v)) as [parsed|] eqn:Ep.
    + destruct (findIndex_known_path updatedFiles (FileInfo.path v))
        as [fileIndex Hidx].
      { apply Hpaths, list_elem_of_here. }
      rewrite Hidx. rewrite IH.
      * f_equal; [f_equal; simpl; lia|].
        rewrite filter_cons.
        destruct first as [|c first]; cbn [truthy negb andb]; [|done].
        destruct (ParsedFilename.anime_title parsed) as [|c t] eqn:Et;
          cbn [truthy].
        -- by rewrite decide_False by (intros H; by apply H).
        -- by rewrite decide_True.
      * intros w Hw. rewrite set_parsed_paths.
        by apply Hpaths, list_elem_of_further.
    + rewrite IH; [done|].
      intros w Hw. by apply Hpaths, list_elem_of_further.
Qed.

(** X14: [parseFilenames] starts the metadata search with the title of the
    first video, in the order of the working set, whose name the backend
    parses with a non-empty title; rejected parses and empty titles are passed
    over, and no search is started when no video gives a title.  The array
    the loop hands to [setFiles] is the one of the loop over the files
    alone. *)
Theorem search_uses_first_parsed_title
    (parse : nat → jsstring → option ParsedFilename.t)
    (files : list FileInfo.t) :
  (parseRun parse files).1.1 = parseFilenames parse files
  ∧ searchedTitle parse files
    = head (filter (λ t, t ≠ [])
              (parsedTitles parse
                 (filter (λ f, FileInfo.is_video f = true) files) 0)).
Proof.
  unfold searchedTitle, parseRun. rewrite parseTurn_loop.
  - split; [done|]. cbn [truthy fst snd].
    set (titles := parsedTitles parse _ 0).
    destruct (filter (λ t, t ≠ []) titles) as [|t ts] eqn:E;
      cbn [head default truthy].
    + by rewrite andb_false_r.
    + assert (t ∈ filter (λ t, t ≠ []) titles) as Ht
        by (rewrite E; apply list_elem_of_here).
      apply list_elem_of_filter in Ht as [Hne Ht].
      destruct t as [|c t]; [done|]. cbn [truthy]. rewrite andb_true_r.
      rewrite bool_decide_eq_true_2; [done|].
      destruct titles; [by apply elem_of_nil in Ht|]. simpl. lia.
  - intros v Hv. apply list_elem_of_filter in Hv as [_ Hv].
    by apply list_elem_of_fmap_2.
Qed.

(** ** Handlers that plan again *)

Lemma filesAfter_forgets localeCompare naming0 animeData0 naming animeData
    files :
  filesAfter localeCompare naming animeData
    (filesAfter localeCompare naming0 animeData0 files)
  = filesAfter localeCompare naming animeData files.
Proof.
  unfold filesAfter at 1. rewrite applyMetadata_forgets.
  unfold filesAfter.
  destruct (applyMetadata localeCompare naming animeData files) as [out|]
    eqn:Happ; [done|]. simpl.
  destruct (applyMetadata localeCompare naming0 animeData0 files) as [out0|]
    eqn:Happ0; [|done]. simpl.
  exfalso.
  pose proof (applyMetadata_accepted localeCompare naming animeData files)
    as Hacc.
  pose proof (applyMetadata_rejected localeCompare naming0 animeData0 files)
    as Hrej.
  destruct (keysAccepted files).
  - destruct (Hacc eq_refl) as [? ?]. congruence.
  - specialize (Hrej eq_refl). congruence.
Qed.

(** X16: an edit of the file-name template plans the files again with the
    template as it was before the edit.  After one edit the files carry the
    names of the old template; after a second edit they carry the names of
    the first edit's template; choosing the candidate again after an edit
    gives the names of the edited template. *)
Theorem template_edit_plans_with_previous_template
    (localeCompare : jsstring → jsstring → Z) (st : Page.t) (animeId : Z)
    (selected : AniListResponse.t) (t1 t2 : jsstring) :
  Page.selectedAnimeId st = Some animeId →
  findAnime (Page.animeSearchResults st) animeId = Some selected →
  Page.files (updateFileNameTemplate localeCompare t1 st)
  = filesAfter localeCompare (Page.naming st) selected (Page.files st)
  ∧ Page.naming (updateFileNameTemplate localeCompare t1 st)
    = setFileNameTemplate t1 (Page.naming st)
  ∧ Page.files (updateFileNameTemplate localeCompare t2
                  (updateFileNameTemplate localeCompare t1 st))
    = filesAfter localeCompare (setFileNameTemplate t1 (Page.naming st))
        selected (Page.files st)
  ∧ Page.files (selectAnimeMetadata localeCompare animeId
                  (updateFileNameTemplate localeCompare t1 st))
    = filesAfter localeCompare (setFileNameTemplate t1 (Page.naming st))
        selected (Page.files st).
Proof.
  intros Hid Hsel.
  assert (Page.files (updateFileNameTemplate localeCompare t1 st)
          = filesAfter localeCompare (Page.naming st) selected (Page.files st))
    as H1.
  { unfold updateFileNameTemplate. cbn. by rewrite Hid, Hsel. }
  split_and!; [exact H1|done| |].
  - unfold updateFileNameTemplate at 1.
    cbn [Page.files Page.selectedAnimeId Page.animeSearchResults Page.naming].
    cbn [updateFileNameTemplate Page.selectedAnimeId Page.animeSearchResults
         Page.naming].
    rewrite Hid, Hsel, H1. apply filesAfter_forgets.
  - unfold selectAnimeMetadata.
    cbn [updateFileNameTemplate Page.selectedAnimeId Page.animeSearchResults
         Page.naming].
    rewrite Hsel. cbn [Page.files].
    change (match Page.selectedAnimeId st with
            | Some animeId0 => _
            | None => _
            end)
      with (Page.files (updateFileNameTemplate localeCompare t1 st)).
    rewrite H1. apply filesAfter_forgets.
Qed.

Lemma template_edit_plans_with_previous_template_witness :
  let naming := namingWith (js "{title} - {episode}") (js "{title}") in
  let st := Page.mk naming [selected (js "B.mkv") (js "mkv") true false]
              (Some 1%Z) [candidate (js "Example")] in
  FileInfo.new_name
    <$> Page.files
          (updateFileNameTemplate codeUnitCompare (js "{title} E{episode}") st)
  = [Some (js "Example - 01.mkv")]
  ∧ FileInfo.new_name
      <$> Page.files
            (updateFileNameTemplate codeUnitCompare (js "{title}")
               (updateFileNameTemplate codeUnitCompare
                  (js "{title} E{episode}") st))
    = [Some (js "Example E01.mkv")].
Proof.
  intros naming st.
  destruct (template_edit_plans_with_previous_template codeUnitCompare st
              1%Z (candidate (js "Example")) (js "{title} E{episode}")
              (js "{title}") eq_refl eq_refl)
    as (H1 & _ & H2 & _).
  rewrite H1, H2. split; reflexivity.
Defined.

(** ** [truncateText] *)

(** X20: [truncateText] leaves a text of at most [maxLength] units as it
    is; a longer text is cut to its first [maxLength] units followed by three
    dots, so the result is three units longer than [maxLength] (and can be
    longer than the text was).  Truncating twice is truncating once. *)
Theorem truncateText_properties (text : jsstring) (maxLength : Z) :
  truncateText (truncateText text maxLength) maxLength
  = truncateText text maxLength
  ∧ ((Z.of_nat (length text) ≤ maxLength)%Z →
     truncateText text maxLength = text)
  ∧ ((0 ≤ maxLength < Z.of_nat (length text))%Z →
     truncateText text maxLength
     = take (Z.to_nat maxLength) text ++ js "..."
     ∧ Z.of_nat (length (truncateText text maxLength)) = (maxLength + 3)%Z)
  ∧ ((maxLength < 0)%Z → truncateText text maxLength = js "...").
Proof.
  unfold truncateText.
  destruct (Z.leb_spec (Z.of_nat (length text)) maxLength) as [Hle|Hgt].
  - rewrite (proj2 (Z.leb_le _ _) Hle).
    split_and!; [done|done|lia|lia].
  - assert (length (take (Z.to_nat maxLength) text ++ js "...")
            = (Z.to_nat maxLength + 3)%nat) as Hlen.
    { rewrite length_app, length_take. simpl. lia. }
    split_and!.
    + rewrite Hlen.
      destruct (Z.leb_spec (Z.of_nat (Z.to_nat maxLength + 3)) maxLength)
        as [Hle'|_]; [lia|].
      rewrite take_app_le by (rewrite length_take; lia).
      by rewrite take_take, Nat.min_id.
    + lia.
    + intros [H0 _]. split; [done|]. rewrite Hlen. lia.
    + intros Hneg. by rewrite (Z2Nat.nonpos maxLength) by lia.
Qed.

Lemma truncateText_properties_witness :
  truncateText (js "abcd") 3 = js "abc..."
  ∧ Z.of_nat (length (truncateText (js "abcd") 3)) = 6%Z
  ∧ truncateText (js "abc") 3 = js "abc"
  ∧ truncateText (js "abc") (-1) = js "...".
Proof.
  destruct (truncateText_properties (js "abcd") 3) as (_ & _ & H & _).
  destruct (H ltac:(simpl; lia)) as [H1 H2].
  split; [exact H1|]. split; [exact H2|]. split.
  - apply (truncateText_properties (js "abc") 3). simpl. lia.
  - apply (truncateText_properties (js "abc") (-1)). lia.
Defined.

(** ** The manual search *)

Lemma trimStart_all_white s :
  Forall (λ c, isWhiteSpace c = true) s → trimStart s = [].
Proof.
  induction 1 as [|c s Hc Hs IH]; simpl; [done|]. by rewrite Hc.
Qed.

(** X15: [handleManualSearch] refuses an input that is empty or made of
    white space only; for any other input it searches for the input without
    the white space at its two ends, a text that is not empty and neither
    begins nor ends with white space. *)
Theorem manual_search_query (input : jsstring) :
  (manualSearchQuery input = None ↔
     Forall (λ c, isWhiteSpace c = true) input)
  ∧ ∀ query, manualSearchQuery input = Some query →
      query ≠ []
      ∧ (∃ before after,
           input = before ++ query ++ after
           ∧ Forall (λ c, isWhiteSpace c = true) before
           ∧ Forall (λ c, isWhiteSpace c = true) after)
      ∧ (∀ c, head query = Some c → isWhiteSpace c = false)
      ∧ (∀ c, last query = Some c → isWhiteSpace c = false).
Proof.
  unfold manualSearchQuery.
  destruct (trimStart_split input) as (before & Hb & Hbefore).
  destruct (trimEnd_split (trimStart input)) as (after & Ha & Hafter).
  fold (trim input) in Ha.
  assert (∀ c, head (trim input) = Some c → isWhiteSpace c = false) as Hhead.
  { intros c Hc. apply (trimStart_head input c).
    rewrite Ha. by destruct (trim input). }
  assert (∀ c, last (trim input) = Some c → isWhiteSpace c = false) as Hlast.
  { intros c Hc. unfold trim, trimEnd in Hc. rewrite last_rev_head in Hc.
    by eapply trimStart_head. }
  split.
  - destruct (trim input) as [|c q] eqn:E; cbn [truthy].
    + split; [intros _|done]. rewrite Hb, Ha.
      apply Forall_app. split; [done|]. by apply Forall_app.
    + split; [done|]. intros Hall. exfalso.
      unfold trim in E. rewrite (trimStart_all_white _ Hall) in E.
      done.
  - intros query Hq.
    destruct (trim input) as [|c q] eqn:E; cbn [truthy] in Hq; [done|].
    injection Hq as <-. split_and!; [done| |done|done].
    exists before, after. split_and!; [|done|done].
    by rewrite Hb at 1; rewrite Ha.
Qed.

(** ** The season folder *)

Lemma findFirst_after_plain p pre s c :
  head p = Some c → c ∉ pre →
  findFirst p (pre ++ s)
  = (λ ba : jsstring * jsstring, (pre ++ ba.1, ba.2)) <$> findFirst p s.
Proof.
  intros Hp Hc. induction pre as [|d pre IH].
  - simpl. by destruct (findFirst p s) as [[? ?]|].
  - apply not_elem_of_cons in Hc as [Hd Hc].
    rewrite findFirst_unfold. destruct p as [|c' p]; [done|].
    injection Hp as ->. cbn [app startsWith].
    destruct (N.eqb_spec c d) as [->|_]; [done|].
    cbn [andb]. rewrite (IH Hc).
    by destruct (findFirst (c :: p) s) as [[? ?]|].
Qed.

Lemma replace_miss_after_plain p pre s r c :
  head p = Some c → c ∉ pre → findFirst p s = None →
  replace (pre ++ s) p r = pre ++ s.
Proof.
  intros Hp Hc Hs. apply replace_miss.
  by rewrite (findFirst_after_plain p pre s c), Hs.
Qed.

(** X9: the season folder.  In a season-folder template whose only brace
    opens the season placeholder, the bare placeholder is replaced by the
    season number as it is, the 02 and 03 forms by the number written with at
    least two and three digits. *)
Theorem season_folder_placeholders (naming : Naming.t) (season : Z)
    (pre post : jsstring) :
  123 ∉ pre → 123 ∉ post →
  seasonFolderName
    (setSeasonFolderTemplate (pre ++ js "{season}" ++ post) naming) season
  = pre ++ toString season ++ post
  ∧ seasonFolderName
      (setSeasonFolderTemplate (pre ++ js "{season:02}" ++ post) naming)
      season
    = pre ++ zeroPadded 2 season ++ post
  ∧ seasonFolderName
      (setSeasonFolderTemplate (pre ++ js "{season:03}" ++ post) naming)
      season
    = pre ++ zeroPadded 3 season ++ post.
Proof.
  intros Hpre Hpost.
  assert (∀ s, numeral s → 123 ∉ pre ++ s ++ post) as Hplain.
  { intros s Hs [H|[H|H]%elem_of_app]%elem_of_app; [done| |done].
    by apply (numeral_absent s 123 Hs). }
  unfold seasonFolderName, setSeasonFolderTemplate.
  cbn [Naming.seasonFolderTemplate].
  change (padStart (toString season) 2 48) with (zeroPadded 2 season).
  change (padStart (toString season) 3 48) with (zeroPadded 3 season).
  split_and!.
  - rewrite (replace_numeral_at_first pre (js "{season}") post)
      by (done || apply toString_numeral).
    rewrite (replace_absent (pre ++ toString season ++ post)
               (js "{season:02}") _ 123)
      by (done || apply Hplain, toString_numeral).
    rewrite (replace_absent (pre ++ toString season ++ post)
               (js "{season:03}") _ 123)
      by (done || apply Hplain, toString_numeral).
    done.
  - rewrite (replace_miss_after_plain (js "{season}") pre _ _ 123);
      [|done|done|].
    2:{ rewrite findFirst_unfold. cbn [app js startsWith N_of_ascii].
        simpl. by rewrite (findFirst_absent _ post 123). }
    rewrite (replace_numeral_at_first pre (js "{season:02}") post)
      by (done || apply zeroPadded_numeral).
    rewrite (replace_absent (pre ++ zeroPadded 2 season ++ post)
               (js "{season:03}") _ 123)
      by (done || apply Hplain, zeroPadded_numeral).
    done.
  - rewrite (replace_miss_after_plain (js "{season}") pre _ _ 123);
      [|done|done|].
    2:{ rewrite findFirst_unfold. cbn [app js startsWith N_of_ascii].
        simpl. by rewrite (findFirst_absent _ post 123). }
    rewrite (replace_miss_after_plain (js "{season:02}") pre _ _ 123);
      [|done|done|].
    2:{ rewrite findFirst_unfold. cbn [app js startsWith N_of_ascii].
        simpl. by rewrite (findFirst_absent _ post 123). }
    rewrite (replace_numeral_at_first pre (js "{season:03}") post)
      by (done || apply zeroPadded_numeral).
    done.
Qed.

Lemma season_folder_placeholders_witness :
  let naming := namingWith [] [] in
  (123 ∉ js "Season ") ∧ (123 ∉ @nil N)
  ∧ seasonFolderName
      (setSeasonFolderTemplate (js "Season {season}") naming) 2
    = js "Season 2"
  ∧ seasonFolderName
      (setSeasonFolderTemplate (js "Season {season:02}") naming) 2
    = js "Season 02"
  ∧ seasonFolderName
      (setSeasonFolderTemplate (js "Season {season:03}") naming) 2
    = js "Season 002".
Proof.
  intros naming.
  assert (123 ∉ js "Season ") as Hpre.
  { apply (bool_decide_unpack _). by vm_compute. }
  assert (123 ∉ @nil N) as Hpost by apply not_elem_of_nil.
  split; [exact Hpre|]. split; [exact Hpost|].
  destruct (season_folder_placeholders naming 2 (js "Season ") []
              Hpre Hpost) as (H1 & H2 & H3).
  split_and!; [exact H1|exact H2|exact H3].
Defined.

Lemma manual_search_query_witness :
  manualSearchQuery (js "  Fate Zero ") = Some (js "Fate Zero")
  ∧ manualSearchQuery (js "   ") = None.
Proof.
  split; [reflexivity|].
  apply (proj1 (manual_search_query (js "   "))).
  by repeat constructor.
Defined.

(** ** The extension placeholder in subtitle names *)

Lemma includes_false s p : includes s p = false → findFirst p s = None.
Proof. unfold includes. by destruct (findFirst p s). Qed.

(** Without the extension placeholder in the filled name, the key of the
    group has no part in the name of a subtitle. *)
Lemma subtitleNewName_without_ext template sfx key info e sn g ft :
  includes (fillTemplate (template ++ sfx) info e sn g) (js "{ext}") = false →
  subtitleNewName template sfx key info e sn g ft
  = withExtension (fillTemplate (template ++ sfx) info e sn g) ft.
Proof.
  intros H%includes_false. unfold subtitleNewName.
  destruct (truthy key && negb (eqb key (js "default"))); [|done].
  by rewrite replace_miss.
Qed.

(** X6: when the filled name of a subtitle holds no extension placeholder
    (as with the templates the page starts with), the key of its group is not
    part of its new name: the k-th subtitles of two groups get the same new
    name, if they agree on extension, season and release group. *)
Theorem subtitle_groups_share_names
    (localeCompare : jsstring → jsstring → Z) (naming : Naming.t)
    (animeData : AniListResponse.t) (files out : list FileInfo.t)
    (G : list (jsstring * list Suffixed)) (gi1 gi2 : nat)
    (key1 key2 : jsstring) (members1 members2 : list Suffixed) (k : nat)
    (s1 s2 : Suffixed) :
  applyMetadata localeCompare naming animeData files = Some out →
  subtitleGroups localeCompare files = Some G →
  G !! gi1 = Some (key1, members1) →
  G !! gi2 = Some (key2, members2) →
  members1 !! k = Some s1 →
  members2 !! k = Some s2 →
  FileInfo.file_type (file (item s1)) = FileInfo.file_type (file (item s2)) →
  assignedSeason (file (item s1)) = assignedSeason (file (item s2)) →
  assignedGroup (file (item s1)) = assignedGroup (file (item s2)) →
  includes
    (fillTemplate
       (Naming.fileNameTemplate naming ++ Naming.subtitleSuffix naming)
       (mkAnimeInfo animeData (Z.of_nat (k + 1))
          (Some (assignedSeason (file (item s1)))))
       (Z.of_nat (k + 1)) (Some (assignedSeason (file (item s1))))
       (assignedGroup (file (item s1))))
    (js "{ext}") = false →
  ∃ n, FileInfo.new_name <$> out !! subtitleIndex s1 = Some (Some n)
       ∧ FileInfo.new_name <$> out !! subtitleIndex s2 = Some (Some n).
Proof.
  intros Happ HG Hg1 Hg2 Hk1 Hk2 Hft Hseason Hgroup Hext.
  rewrite (applyMetadata_subtitle _ _ _ _ _ _ _ _ _ _ _ Happ HG Hg1 Hk1).
  rewrite (applyMetadata_subtitle _ _ _ _ _ _ _ _ _ _ _ Happ HG Hg2 Hk2).
  unfold plannedSubtitle. rewrite !subtitlePlan_policy.
  cbn [fst snd fmap option_fmap option_map FileInfo.new_name
       FileInfo.set_plan].
  eexists. split; [reflexivity|].
  rewrite <- Hft, <- Hseason, <- Hgroup.
  by rewrite !subtitleNewName_without_ext.
Qed.

Lemma subtitle_groups_share_names_witness :
  let files := [selected (js "A.chs.ass") (js "ass") false true;
                selected (js "A.cht.ass") (js "ass") false true] in
  let naming := namingWith (js "{title} - {episode}") (js "{title}") in
  let animeData := candidate (js "Example") in
  let out := filesAfter codeUnitCompare naming animeData files in
  applyMetadata codeUnitCompare naming animeData files = Some out
  ∧ FileInfo.new_name <$> out
    = [Some (js "Example - 01.chs.ass"); Some (js "Example - 01.chs.ass")]
  ∧ renameMap naming out
    = {[ js "/anime/A.chs.ass" := js "Example/Season 1/Example - 01.chs.ass";
         js "/anime/A.cht.ass" := js "Example/Season 1/Example - 01.chs.ass" ]}
  ∧ ∃ n, FileInfo.new_name <$> out !! 0%nat = Some (Some n)
         ∧ FileInfo.new_name <$> out !! 1%nat = Some (Some n).
Proof.
  intros files naming animeData out.
  assert (applyMetadata codeUnitCompare naming animeData files = Some out)
    as Happ by by vm_compute.
  split; [exact Happ|]. split; [by vm_compute|]. split; [by vm_compute|].
  refine (subtitle_groups_share_names codeUnitCompare naming animeData files
            out _ 0 1 (js "chs") (js "cht") _ _ 0
            (mkSuffixed (mkIndexed (selected (js "A.chs.ass") (js "ass")
                                      false true) 0) (js "chs"))
            (mkSuffixed (mkIndexed (selected (js "A.cht.ass") (js "ass")
                                      false true) 1) (js "cht"))
            Happ _ _ _ _ _ eq_refl eq_refl eq_refl _);
    by vm_compute.
Defined.

(** X7: the extension placeholder in the name of a subtitle.  Assume that
    the filled name reads [a{ext}b] with no opening brace in [a], that the
    extension of the file holds no dollar sign, and that the key of the
    group holds neither a dollar sign nor an opening brace (key and
    extension are handed to [String.prototype.replace] as replacement text,
    in which dollar patterns are special, and [{ext}] is looked up again
    after the key has been inserted).  Then the new name is [a], then the
    key of the group and a dot (for a group other than the default one),
    then the extension, then [b]; the dot and the extension are appended
    once more unless this already ends with them.  After a template that
    ends with the placeholder, every non-empty subtitle suffix [b] therefore
    ends up between two copies of the extension.  The example
    [dollar_key_in_subtitle_name] below shows a key with a dollar pattern,
    for which this shape fails. *)
Theorem ext_placeholder_in_subtitle_names (template sfx key : jsstring)
    (info : AnimeInfo.t) (e : Z) (sn : option Z) (g : option jsstring)
    (ft a b : jsstring) :
  fillTemplate (template ++ sfx) info e sn g = a ++ js "{ext}" ++ b →
  123 ∉ a → 36 ∉ ft → 36 ∉ key → 123 ∉ key →
  let body :=
    a ++ (if truthy key && negb (eqb key (js "default"))
          then key ++ [46] else [])
      ++ ft ++ b in
  subtitleNewName template sfx key info e sn g ft
  = if endsWith body (46 :: ft) then body else body ++ 46 :: ft.
Proof.
  intros Hfill Ha Hft Hkey Hkey' body. subst body.
  unfold subtitleNewName. rewrite Hfill.
  destruct (truthy key && negb (eqb key (js "default"))).
  - rewrite (replace_at_first a (js "{ext}") b _ 123) by done.
    rewrite getSubstitution_plain.
    2:{ intros [H|H]%elem_of_app; [done|].
        apply list_elem_of_In in H. simpl in H.
        destruct H as [H|[H|[H|[H|[H|[H|[]]]]]]]; done. }
    unfold withExtension.
    replace (a ++ (key ++ js ".{ext}") ++ b)
      with ((a ++ key ++ [46]) ++ js "{ext}" ++ b)
      by (by rewrite <- !(assoc_L (++))).
    rewrite (replace_at_first (a ++ key ++ [46]) (js "{ext}") b _ 123).
    + rewrite getSubstitution_plain by done.
      by rewrite <- !(assoc_L (++)).
    + done.
    + intros [H|[H|H]%elem_of_app]%elem_of_app; [done|done|].
      apply list_elem_of_In in H. simpl in H. by destruct H as [H|[]].
  - unfold withExtension.
    rewrite (replace_at_first a (js "{ext}") b _ 123) by done.
    by rewrite getSubstitution_plain.
Qed.

Lemma ext_placeholder_in_subtitle_names_witness :
  let info := mkAnimeInfo (candidate (js "Example")) 1 None in
  fillTemplate (js "{title} - {episode}.{ext}" ++ js ".chs") info 1 None None
  = js "Example - 01." ++ js "{ext}" ++ js ".chs"
  ∧ subtitleNewName (js "{title} - {episode}.{ext}") (js ".chs")
      (js "default") info 1 None None (js "ass")
    = js "Example - 01.ass.chs.ass"
  ∧ subtitleNewName (js "{title} - {episode}.{ext}") (js ".chs")
      (js "cht") info 1 None None (js "ass")
    = js "Example - 01.cht.ass.chs.ass".
Proof.
  intros info.
  assert (fillTemplate (js "{title} - {episode}.{ext}" ++ js ".chs") info 1
            None None
          = js "Example - 01." ++ js "{ext}" ++ js ".chs") as Hfill
    by by vm_compute.
  assert (∀ (c : N) (s : jsstring), bool_decide (c ∈ s) = false → c ∉ s) as Hnot.
  { intros c s H. by apply bool_decide_eq_false in H. }
  split; [exact Hfill|]. split.
  - rewrite (ext_placeholder_in_subtitle_names _ _ (js "default") info 1 None
               None (js "ass") _ _ Hfill); [by vm_compute|..];
      by apply Hnot; vm_compute.
  - rewrite (ext_placeholder_in_subtitle_names _ _ (js "cht") info 1 None
               None (js "ass") _ _ Hfill); [by vm_compute|..];
      by apply Hnot; vm_compute.
Defined.

(** A key that is a dollar pattern: the subtitle [x.$&.ass] belongs to the
    group [$&], which [replace] reads as the matched text, so that the
    placeholder is doubled and one copy of it stays in the name. *)
Example dollar_key_in_subtitle_name :
  let info := mkAnimeInfo (candidate (js "Example")) 1 None in
  extractSubtitleSuffix (js "x.$&.ass") = js "$&"
  ∧ subtitleNewName (js "{title}.{ext}") (js ".chs") (js "$&") info 1 None
      None (js "ass")
    = js "Example.ass.{ext}.chs.ass".
Proof. by vm_compute. Qed.

(** ** Path separators in titles *)

Lemma getSubstitution_keeps_slash m b a r :
  47 ∈ r → 47 ∈ getSubstitution m b a r.
Proof.
  assert (∀ n r, (length r ≤ n)%nat →
            47 ∈ r → 47 ∈ getSubstitution m b a r) as H;
    [|by apply (H (length r))].
  clear r. induction n as [|n IH]; intros r Hlen Hin.
  { destruct r; [by apply elem_of_nil in Hin|simpl in Hlen; lia]. }
  destruct r as [|c r]; [by apply elem_of_nil in Hin|].
  simpl in Hlen. cbn [getSubstitution].
  destruct (N.eqb_spec c 36) as [->|Hc].
  - apply elem_of_cons in Hin as [?|Hin]; [done|].
    destruct r as [|d r]; [by apply elem_of_nil in Hin|].
    simpl in Hlen.
    assert (47 ∈ r → 47 ∈ getSubstitution m b a r) as IHr
      by (apply IH; lia).
    assert (47 ∈ d :: r → 47 ∈ getSubstitution m b a (d :: r)) as IHdr
      by (apply IH; simpl; lia).
    destruct (N.eqb_spec d 36) as [->|?];
      [apply elem_of_cons in Hin as [?|Hin]; [done|];
       apply elem_of_cons; right; by apply IHr|].
    destruct (N.eqb_spec d 38) as [->|?];
      [apply elem_of_cons in Hin as [?|Hin]; [done|];
       apply elem_of_app; right; by apply IHr|].
    destruct (N.eqb_spec d 96) as [->|?];
      [apply elem_of_cons in Hin as [?|Hin]; [done|];
       apply elem_of_app; right; by apply IHr|].
    destruct (N.eqb_spec d 39) as [->|?];
      [apply elem_of_cons in Hin as [?|Hin]; [done|];
       apply elem_of_app; right; by apply IHr|].
    apply elem_of_cons. right. by apply IHdr.
  - apply elem_of_cons in Hin as [<-|Hin]; [apply list_elem_of_here|].
    apply elem_of_cons. right. apply IH; [lia|done].
Qed.

Lemma replace_keeps s p r c : c ∈ s → c ∉ p → c ∈ replace s p r.
Proof.
  intros Hs Hp. unfold replace.
  destruct (findFirst p s) as [[b a]|] eqn:E; [|done].
  rewrite (findFirst_Some _ _ _ _ E) in Hs.
  apply elem_of_app in Hs as [Hs|[Hs|Hs]%elem_of_app]; [|done|].
  - apply elem_of_app. by left.
  - apply elem_of_app. right. apply elem_of_app. by right.
Qed.

Lemma replace_brings_slash s p r :
  includes s p = true → 47 ∈ r → 47 ∈ replace s p r.
Proof.
  unfold includes, replace.
  destruct (findFirst p s) as [[b a]|]; [|done]. intros _ Hr.
  apply elem_of_app. right. apply elem_of_app. left.
  by apply getSubstitution_keeps_slash.
Qed.

Lemma collapseFrom_keeps b s c :
  c ∈ s → isWhiteSpace c = false → c ∈ collapseFrom b s.
Proof.
  intros Hs Hc. revert b. induction s as [|d s IH]; intros b;
    [by apply elem_of_nil in Hs|].
  cbn [collapseFrom]. apply elem_of_cons in Hs as [<-|Hs].
  - rewrite Hc. apply list_elem_of_here.
  - destruct (isWhiteSpace d); [destruct b|];
      [by apply IH|apply elem_of_cons; right; by apply IH
      |apply elem_of_cons; right; by apply IH].
Qed.

Lemma trimStart_keeps s c :
  c ∈ s → isWhiteSpace c = false → c ∈ trimStart s.
Proof.
  intros Hs Hc. destruct (trimStart_split s) as (p & Hp & Hall).
  rewrite Hp in Hs. apply elem_of_app in Hs as [Hs|Hs]; [|done].
  rewrite Forall_forall in Hall. specialize (Hall c Hs). congruence.
Qed.

Lemma trim_keeps s c : c ∈ s → isWhiteSpace c = false → c ∈ trim s.
Proof.
  intros Hs Hc. unfold trim.
  destruct (trimEnd_split (trimStart s)) as (t & Ht & Hall).
  pose proof (trimStart_keeps s c Hs Hc) as H.
  rewrite Ht in H. apply elem_of_app in H as [H|H]; [done|].
  rewrite Forall_forall in Hall. specialize (Hall c H). congruence.
Qed.

Lemma includes_app s t p : includes s p = true → includes (s ++ t) p = true.
Proof.
  unfold includes.
  assert (is_Some (findFirst p s) → is_Some (findFirst p (s ++ t))) as H.
  { induction s as [|c s IH].
    - rewrite findFirst_unfold. destruct (startsWith [] p) eqn:E;
        [|by intros [? ?]].
      intros _. apply startsWith_prefix in E as [u Hu].
      symmetry in Hu. apply app_eq_nil in Hu as [-> _].
      rewrite findFirst_unfold. simpl. by eexists.
    - rewrite (findFirst_unfold p (c :: s)),
        (findFirst_unfold p ((c :: s) ++ t)).
      destruct (startsWith (c :: s) p) eqn:E.
      + intros _. apply startsWith_prefix in E as [u Hu]. rewrite Hu.
        rewrite <- (assoc_L (++)), startsWith_app. by eexists.
      + destruct (startsWith ((c :: s) ++ t) p); [by eexists|].
        cbn [app]. destruct (findFirst p s) as [[? ?]|]; [|by intros [? ?]].
        intros _. destruct IH as [[? ?] ->]; by eexists. }
  destruct (findFirst p s); [|done]. intros _.
  by destruct H as [? ->].
Qed.

(** The substitutions and the clean-up keep a slash, and bring one in with
    the romaji title. *)
Lemma fillTemplate_slash template animeData e sn sn' g r :
  AniListResponse.romaji (AniListResponse.title animeData) = Some r →
  47 ∈ r →
  includes template (js "{title}") = true
  ∨ includes template (js "{title_romaji}") = true →
  47 ∈ fillTemplate template (mkAnimeInfo animeData e sn') e sn g.
Proof.
  intros Hr Hslash Hinc.
  assert (r ≠ []) as Hne by (intros ->; by apply elem_of_nil in Hslash).
  assert (displayTitle animeData = r) as Htitle.
  { unfold displayTitle. rewrite Hr. unfold or_else at 1. by destruct r. }
  assert (∀ (c : N) (s : jsstring), bool_decide (c ∈ s) = false → c ∉ s)
    as Hnot.
  { intros c s H. by apply bool_decide_eq_false in H. }
  unfold fillTemplate. cbv zeta.
  cbn [AnimeInfo.title AnimeInfo.title_romaji AnimeInfo.title_english
       AnimeInfo.year mkAnimeInfo].
  rewrite Htitle, Hr.
  assert (or_else (Some r) r = r) as -> by (unfold or_else; by destruct r).
  apply trim_keeps; [|done]. apply collapseFrom_keeps; [|done].
  set (n2 := replace (replace template (js "{title}") r)
               (js "{title_romaji}") r).
  assert (47 ∈ n2) as H2.
  { subst n2. destruct (includes template (js "{title}")) eqn:E.
    - apply replace_keeps; [|by apply Hnot].
      by apply replace_brings_slash.
    - destruct Hinc as [?|Hinc]; [done|].
      rewrite (replace_miss template) by (unfold includes in E; by destruct (findFirst (js "{title}") template)).
      by apply replace_brings_slash. }
  clearbody n2.
  repeat match goal with
         | |- 47 ∈ (if ?b then _ else _) => destruct b
         | |- 47 ∈ replace _ _ _ => apply replace_keeps; [|by apply Hnot]
         end; done.
Qed.

Lemma withExtension_keeps n ft c :
  c ∈ n → c ∉ js "{ext}" → c ∈ withExtension n ft.
Proof.
  intros Hn Hc. unfold withExtension.
  pose proof (replace_keeps n (js "{ext}") ft c Hn Hc) as H.
  destruct (endsWith _ _); [done|]. apply elem_of_app. by left.
Qed.

(** X8: nothing takes a slash out of a title.  When the romaji title of
    the candidate holds a slash and the file-name template holds the title
    placeholder or the romaji-title placeholder, the new name of every video
    and every subtitle holds a slash, which the target path then reads as a
    further folder. *)
Theorem title_slash_reaches_new_names
    (localeCompare : jsstring → jsstring → Z) (naming : Naming.t)
    (animeData : AniListResponse.t) (files out : list FileInfo.t) (j : nat)
    (f : FileInfo.t) (r : jsstring) :
  AniListResponse.romaji (AniListResponse.title animeData) = Some r →
  47 ∈ r →
  includes (Naming.fileNameTemplate naming) (js "{title}") = true
  ∨ includes (Naming.fileNameTemplate naming) (js "{title_romaji}") = true →
  applyMetadata localeCompare naming animeData files = Some out →
  files !! j = Some f →
  hasRole f = true →
  ∃ n, FileInfo.new_name <$> out !! j = Some (Some n) ∧ 47 ∈ n.
Proof.
  intros Hr Hslash Hinc Happ Hj Hrole.
  assert (47 ∉ js "{ext}") as Hext.
  { apply (bool_decide_unpack _). by vm_compute. }
  destruct (applyMetadata_planned _ _ _ _ _ _ _ Happ Hj) as [Hsub Hvid].
  destruct (FileInfo.is_subtitle f) eqn:Es.
  - destruct (Hsub eq_refl) as [k ->]. eexists. split; [reflexivity|].
    cbn [plannedSubtitle subtitlePlan snd]. unfold subtitleNewName.
    apply withExtension_keeps; [|done].
    assert (47 ∈ fillTemplate
                   (Naming.fileNameTemplate naming
                    ++ Naming.subtitleSuffix naming)
                   (mkAnimeInfo animeData (Z.of_nat (k + 1)) (techInfo f).2)
                   (Z.of_nat (k + 1)) (techInfo f).2 (techInfo f).1) as H.
    { apply (fillTemplate_slash _ _ _ _ _ _ r Hr Hslash).
      destruct Hinc as [H|H]; [left|right]; by apply includes_app. }
    destruct (truthy _ && negb _); [|done]. by apply replace_keeps.
  - unfold hasRole in Hrole. rewrite Es, orb_false_r in Hrole.
    destruct (Hvid eq_refl Hrole) as [k ->]. eexists. split; [reflexivity|].
    cbn [plannedVideo videoPlan snd]. unfold videoNewName.
    apply withExtension_keeps; [|done].
    by apply (fillTemplate_slash _ _ _ _ _ _ r Hr Hslash).
Qed.

Lemma title_slash_reaches_new_names_witness :
  let files := [selected (js "B.mkv") (js "mkv") true false] in
  let naming := namingWith (js "{title_romaji} - {episode}")
                  (js "{title_romaji}") in
  let animeData := candidate (js "Fate/Zero") in
  let out := filesAfter codeUnitCompare naming animeData files in
  applyMetadata codeUnitCompare naming animeData files = Some out
  ∧ FileInfo.new_name <$> out = [Some (js "Fate/Zero - 01.mkv")]
  ∧ renameMap naming out
    = {[ js "/anime/B.mkv" := js "Fate/Zero/Season 1/Fate/Zero - 01.mkv" ]}
  ∧ ∃ n, FileInfo.new_name <$> out !! 0%nat = Some (Some n) ∧ 47 ∈ n.
Proof.
  intros files naming animeData out.
  assert (applyMetadata codeUnitCompare naming animeData files = Some out)
    as Happ by by vm_compute.
  split; [exact Happ|]. split; [by vm_compute|]. split; [by vm_compute|].
  refine (title_slash_reaches_new_names codeUnitCompare naming animeData
            files out 0%nat _ (js "Fate/Zero") eq_refl _ (or_intror eq_refl)
            Happ eq_refl eq_refl).
  apply (bool_decide_unpack _). by vm_compute.
Defined.

(** ** What the loops write *)

(** X21: [applyMetadata] writes the plan and nothing else: the working set
    keeps its length and its order, and every file keeps its path, name,
    size, extension, roles and parse hint. *)
Theorem applyMetadata_writes_plan_only
    (localeCompare : jsstring → jsstring → Z) (naming : Naming.t)
    (animeData : AniListResponse.t) (files : list FileInfo.t) :
  Forall2 samePlanless files
    (filesAfter localeCompare naming animeData files).
Proof.
  unfold filesAfter.
  destruct (applyMetadata localeCompare naming animeData files) as [out|]
    eqn:Happ; simpl.
  - destruct (applyMetadata_plans _ _ _ _ _ Happ) as [Hroles Hplans].
    apply Forall2_same_length_lookup. split; [by eapply Forall2_length|].
    intros j f f' Hf Hf'. destruct (Hplans j f Hf) as (plan & Hp & _).
    rewrite Hf' in Hp. injection Hp as ->.
    by destruct plan as [[? ?]|].
  - apply Forall2_same_length_lookup. split; [done|].
    intros j f f' Hf Hf'. rewrite Hf in Hf'. by injection Hf' as <-.
Qed.

Lemma sameUnparsed_refl f : sameUnparsed f f.
Proof. done. Qed.

Lemma parseStep_sameUnparsed parse files s video i :
  Forall2 sameUnparsed files s →
  Forall2 sameUnparsed files (parseStep parse s video i).
Proof.
  intros H. unfold parseStep.
  destruct (parse i (FileInfo.name video)) as [parsed|]; [|done].
  destruct (findIndex _ s) as [fileIndex|]; [|done].
  apply Forall2_same_length_lookup. split.
  - rewrite length_alter. by eapply Forall2_length.
  - intros j f f' Hf Hf'.
    destruct (decide (fileIndex = j)) as [->|Hne].
    + rewrite list_lookup_alter_eq in Hf'.
      destruct (s !! j) as [g|] eqn:Hg; [|done].
      simpl in Hf'. injection Hf' as <-.
      pose proof (Forall2_lookup_lr _ _ _ _ _ _ H Hf Hg) as Hfg.
      by destruct g.
    + rewrite list_lookup_alter_ne in Hf' by done.
      by eapply Forall2_lookup_lr.
Qed.

(** X22: [parseFilenames] writes parse hints and nothing else, whatever
    the backend answers and also when paths repeat: the working set keeps its
    length and its order, and every file keeps all its other fields. *)
Theorem parseFilenames_writes_hints_only
    (parse : nat → jsstring → option ParsedFilename.t)
    (files : list FileInfo.t) :
  Forall2 sameUnparsed files (parseFilenames parse files).
Proof.
  unfold parseFilenames.
  assert (∀ videos i s, Forall2 sameUnparsed files s →
            Forall2 sameUnparsed files
              (forEachFrom (parseStep parse) videos i s)) as H.
  { induction videos as [|v videos IH]; intros i s Hs; [done|].
    cbn [forEachFrom]. apply IH. by apply parseStep_sameUnparsed. }
  apply H. apply Forall2_same_length_lookup. split; [done|].
  intros j f f' Hf Hf'. rewrite Hf in Hf'. by injection Hf' as <-.
Qed.

(** X23: [applyMetadata] throws exactly when some subtitle of the working
    set is grouped under a property name that every object inherits (a file
    named like [x.constructor.ass]); the page then keeps the working set as
    it was, no file being written. *)
Theorem applyMetadata_throws_iff
    (localeCompare : jsstring → jsstring → Z) (naming : Naming.t)
    (animeData : AniListResponse.t) (files : list FileInfo.t) :
  (applyMetadata localeCompare naming animeData files = None ↔
     ∃ f, f ∈ files ∧ FileInfo.is_subtitle f = true
          ∧ classify (FileInfo.name f) ∈ objectPrototypeKeys)
  ∧ (applyMetadata localeCompare naming animeData files = None →
     filesAfter localeCompare naming animeData files = files).
Proof.
  assert (keysAccepted files = false ↔
          ∃ f, f ∈ files ∧ FileInfo.is_subtitle f = true
               ∧ classify (FileInfo.name f) ∈ objectPrototypeKeys) as Hkeys.
  { unfold keysAccepted. rewrite <- not_true_iff_false, forallb_forall.
    split.
    - intros Hn.
      destruct (decide (Exists (λ f, FileInfo.is_subtitle f = true
                  ∧ classify (FileInfo.name f) ∈ objectPrototypeKeys) files))
        as [Hex|Hnex].
      + apply Exists_exists in Hex as (f & Hf & Hs & Hk). by exists f.
      + exfalso. apply Hn. intros f Hf%list_elem_of_In.
        apply negb_true_iff, andb_false_iff.
        destruct (FileInfo.is_subtitle f) eqn:Es; [right|by left].
        unfold inherited. apply bool_decide_eq_false. intros Hk.
        apply Hnex, Exists_exists. by exists f.
    - intros (f & Hf & Hs & Hk) Hall.
      specialize (Hall f (proj1 (list_elem_of_In _ _) Hf)).
      apply negb_true_iff, andb_false_iff in Hall as [Hall|Hall];
        [congruence|].
      unfold inherited in Hall. by apply bool_decide_eq_false in Hall. }
  split.
  - rewrite <- Hkeys. split.
    + intros Hnone. destruct (keysAccepted files) eqn:E; [|done].
      destruct (applyMetadata_accepted localeCompare naming animeData files E)
        as [out Hout].
      congruence.
    + apply applyMetadata_rejected.
  - intros Hnone. unfold filesAfter. by rewrite Hnone.
Qed.

(** ** The name of a subtitle and the name of its video *)

Lemma startsWith_app_plain T S p :
  last p = Some 125 → 125 ∉ S →
  startsWith (T ++ S) p = startsWith T p.
Proof.
  revert T. induction p as [|c p IH]; intros T Hlast HS; [done|].
  destruct T as [|d T].
  - simpl. destruct (startsWith S (c :: p)) eqn:E; [|by destruct S].
    exfalso. apply startsWith_prefix in E as [u ->]. apply HS.
    apply elem_of_app. left. apply last_Some in Hlast as [q ->].
    apply elem_of_app. right. apply list_elem_of_here.
  - cbn [app startsWith]. destruct p as [|c' p]; [done|].
    rewrite IH; [done| |done]. by rewrite last_cons_cons in Hlast.
Qed.

Lemma findFirst_app_plain T S p :
  head p = Some 123 → last p = Some 125 → 123 ∉ S → 125 ∉ S →
  findFirst p (T ++ S)
  = (λ ba : jsstring * jsstring, (ba.1, ba.2 ++ S)) <$> findFirst p T.
Proof.
  intros Hhead Hlast H1 H2. induction T as [|d T IH].
  - simpl app. rewrite (findFirst_absent p S 123) by done.
    rewrite findFirst_unfold. by destruct p.
  - rewrite (findFirst_unfold p ((d :: T) ++ S)),
      (findFirst_unfold p (d :: T)).
    rewrite startsWith_app_plain by done.
    destruct (startsWith (d :: T) p) eqn:E.
    + simpl. f_equal. f_equal.
      apply startsWith_prefix in E as [u Hu].
      change (d :: T ++ S) with ((d :: T) ++ S). rewrite Hu.
      rewrite <- (assoc_L (++) p u S). by rewrite !drop_app_length.
    + cbn [app]. rewrite IH.
      by destruct (findFirst p T) as [[? ?]|].
Qed.

Lemma replace_app_plain T S p r :
  head p = Some 123 → last p = Some 125 → 123 ∉ S → 125 ∉ S → 36 ∉ r →
  replace (T ++ S) p r = replace T p r ++ S.
Proof.
  intros Hhead Hlast H1 H2 Hr. unfold replace.
  rewrite findFirst_app_plain by done.
  destruct (findFirst p T) as [[b a]|]; [|done]. simpl.
  rewrite !getSubstitution_plain by done.
  by rewrite <- !(assoc_L (++)).
Qed.

Lemma collapseFrom_app_plain b T S :
  Forall (λ c, isWhiteSpace c = false) S →
  collapseFrom b (T ++ S) = collapseFrom b T ++ S.
Proof.
  intros HS. revert b. induction T as [|c T IH]; intros b.
  - by apply collapseFrom_plain.
  - cbn [app collapseFrom]. rewrite !IH.
    by destruct (isWhiteSpace c), b.
Qed.

Lemma trimStart_app_plain T c S :
  isWhiteSpace c = false → trimStart (T ++ c :: S) = trimStart T ++ c :: S.
Proof.
  intros Hc. induction T as [|d T IH]; simpl; [by rewrite Hc|].
  by destruct (isWhiteSpace d).
Qed.

Lemma trimEnd_app_plain T S c :
  last S = Some c → isWhiteSpace c = false → trimEnd (T ++ S) = T ++ S.
Proof.
  intros Hlast Hc. unfold trimEnd.
  apply last_Some in Hlast as [S' ->].
  assert (rev (T ++ S' ++ [c]) = c :: rev (T ++ S')) as ->.
  { by rewrite (assoc_L (++)), rev_app_distr. }
  cbn [trimStart]. rewrite Hc.
  change (c :: rev (T ++ S')) with ([c] ++ rev (T ++ S')).
  rewrite rev_app_distr, rev_involutive. simpl.
  by rewrite <- (assoc_L (++)).
Qed.

(** A collapsed text ends with at most one space. *)
Lemma spaced_trimEnd b s :
  spaced b s → s = trimEnd s ∨ s = trimEnd s ++ [32].
Proof.
  intros Hs. destruct (trimEnd_split s) as (t & Hsplit & Hall).
  assert (∀ b p t, spaced b (p ++ t) → ∃ b', spaced b' t) as Hsuffix.
  { clear. intros b p. revert b. induction p as [|c p IH]; intros b t H.
    - by exists b.
    - destruct H as [_ H]. by eapply IH. }
  rewrite Hsplit in Hs. destruct (Hsuffix _ _ _ Hs) as [b' Ht].
  destruct t as [|c t]; [left; by rewrite (right_id_L [] (++)) in Hsplit|].
  right. apply Forall_cons in Hall as [Hc Hall]. destruct Ht as [Hc' Ht].
  destruct (Hc' Hc) as [-> _].
  destruct t as [|d t]; [done|]. exfalso.
  apply Forall_cons in Hall as [Hd _]. destruct Ht as [Hd' _].
  rewrite Hc in Hd'. by destruct (Hd' Hd).
Qed.

Lemma or_else_dollarFree (o : option jsstring) (d : jsstring) :
  36 ∉ default [] o → 36 ∉ d → 36 ∉ or_else o d.
Proof.
  intros Ho Hd. unfold or_else. destruct o as [s|]; [|done].
  simpl in Ho. by destruct (truthy s).
Qed.

Lemma numeral_dollarFree s : numeral s → 36 ∉ s.
Proof. intros Hs. by apply (numeral_absent s 36 Hs). Qed.

(** The filled name of a subtitle is the filled name of the video template
    followed by at most one space and the subtitle suffix. *)
Lemma fillTemplate_suffix template sfx info e sn g :
  sfx ≠ [] → plainSuffix sfx → dollarFree info g →
  ∃ pad, (pad = [] ∨ pad = [32])
         ∧ fillTemplate (template ++ sfx) info e sn g
           = fillTemplate template info e sn g ++ pad ++ sfx.
Proof.
  intros Hne Hplain (Ht & Hr & He & Hg).
  assert (123 ∉ sfx) as H1.
  { intros Hin. unfold plainSuffix in Hplain. rewrite Forall_forall in Hplain.
    by destruct (Hplain _ Hin) as [? _]. }
  assert (125 ∉ sfx) as H2.
  { intros Hin. unfold plainSuffix in Hplain. rewrite Forall_forall in Hplain.
    by destruct (Hplain _ Hin) as (_ & ? & _). }
  assert (Forall (λ c, isWhiteSpace c = false) sfx) as Hws.
  { eapply Forall_impl; [exact Hplain|]. by intros c (_ & _ & ?). }
  assert (∀ X p r, head p = Some 123 → last p = Some 125 → 36 ∉ r →
            replace (X ++ sfx) p r = replace X p r ++ sfx) as Hrep.
  { intros X p r ? ? ?. by apply replace_app_plain. }
  unfold fillTemplate. cbv zeta.
  pose proof (or_else_dollarFree (AnimeInfo.title_romaji info)
                (AnimeInfo.title info) Hr Ht) as Hr'.
  pose proof (or_else_dollarFree (AnimeInfo.title_english info)
                (AnimeInfo.title info) He Ht) as He'.
  rewrite (Hrep template (js "{title}")) by done.
  rewrite (Hrep _ (js "{title_romaji}")) by done.
  rewrite (Hrep _ (js "{title_english}")) by done.
  rewrite (Hrep _ (js "{episode}"))
    by (done || apply numeral_dollarFree, (zeroPadded_numeral 2)).
  rewrite (Hrep _ (js "{episode:02}"))
    by (done || apply numeral_dollarFree, (zeroPadded_numeral 2)).
  rewrite (Hrep _ (js "{episode:03}"))
    by (done || apply numeral_dollarFree, (zeroPadded_numeral 3)).
  set (n6 := replace _ (js "{episode:03}") _).
  assert ((if truthy_num sn
           then replace (n6 ++ sfx) (js "{season}")
                  (toString (default 1%Z sn))
           else replace (n6 ++ sfx) (js "{season}") (js "1"))
          = (if truthy_num sn
             then replace n6 (js "{season}") (toString (default 1%Z sn))
             else replace n6 (js "{season}") (js "1")) ++ sfx) as ->.
  { destruct (truthy_num sn); apply Hrep; try done.
    - apply numeral_dollarFree, toString_numeral.
    - apply (bool_decide_unpack _). by vm_compute. }
  set (n7 := if truthy_num sn then _ else _).
  assert ((if truthy_num (AnimeInfo.year info)
           then replace (n7 ++ sfx) (js "{year}")
                  (toString (default 0%Z (AnimeInfo.year info)))
           else replace (n7 ++ sfx) (js "{year}") [])
          = (if truthy_num (AnimeInfo.year info)
             then replace n7 (js "{year}")
                    (toString (default 0%Z (AnimeInfo.year info)))
             else replace n7 (js "{year}") []) ++ sfx) as ->.
  { destruct (truthy_num (AnimeInfo.year info)); apply Hrep; try done.
    - apply numeral_dollarFree, toString_numeral.
    - apply not_elem_of_nil. }
  set (n8 := if truthy_num (AnimeInfo.year info) then _ else _).
  assert ((if truthy_opt g
           then replace (n8 ++ sfx) (js "{group}") (default [] g)
           else replace (n8 ++ sfx) (js "{group}") [])
          = (if truthy_opt g
             then replace n8 (js "{group}") (default [] g)
             else replace n8 (js "{group}") []) ++ sfx) as ->.
  { destruct (truthy_opt g); apply Hrep; try done. apply not_elem_of_nil. }
  set (raw := if truthy_opt g then _ else _).
  unfold collapseWhiteSpace. rewrite collapseFrom_app_plain by done.
  set (Y := collapseFrom false raw).
  destruct sfx as [|c sfx']; [done|].
  apply Forall_cons in Hws as [Hc Hws'].
  unfold trim. rewrite trimStart_app_plain by done.
  assert (∃ d, last (c :: sfx') = Some d ∧ isWhiteSpace d = false)
    as (d & Hd & Hdws).
  { destruct (last (c :: sfx')) as [d|] eqn:E; [|by apply last_None in E].
    exists d. split; [done|].
    assert (d ∈ c :: sfx') as Hin.
    { apply last_Some in E as [q ->]. apply elem_of_app. right.
      apply list_elem_of_here. }
    apply elem_of_cons in Hin as [->|Hin]; [done|].
    rewrite Forall_forall in Hws'. by apply Hws'. }
  rewrite (trimEnd_app_plain _ _ d) by done.
  assert (spaced false (trimStart Y)) as Hsp.
  { eapply trimStart_spaced. apply collapseFrom_spaced. }
  destruct (spaced_trimEnd _ _ Hsp) as [Heq|Heq].
  - exists []. split; [by left|]. simpl. by rewrite <- Heq.
  - exists [32]. split; [by right|]. rewrite Heq at 1.
    by rewrite <- (assoc_L (++)).
Qed.

(** X24: the name of a subtitle and the name of the video of the same
    episode.  For a subtitle suffix without braces and white space (as
    ".chs"), titles and group without a dollar sign, and a filled video name
    without the extension placeholder: the video is named with the filled
    template and its extension, the subtitle with the same filled template,
    at most one space, the subtitle suffix and its extension. *)
Theorem subtitle_name_extends_video_name (template sfx key : jsstring)
    (info : AnimeInfo.t) (e : Z) (sn : option Z) (g : option jsstring)
    (videoType subtitleType : jsstring) :
  sfx ≠ [] → plainSuffix sfx → dollarFree info g →
  includes (fillTemplate template info e sn g) (js "{ext}") = false →
  ∃ pad,
    (pad = [] ∨ pad = [32])
    ∧ videoNewName template info e sn g videoType
      = (let stem := fillTemplate template info e sn g in
         if endsWith stem (46 :: videoType) then stem
         else stem ++ 46 :: videoType)
    ∧ subtitleNewName template sfx key info e sn g subtitleType
      = (let name := fillTemplate template info e sn g ++ pad ++ sfx in
         if endsWith name (46 :: subtitleType) then name
         else name ++ 46 :: subtitleType).
Proof.
  intros Hne Hplain Hdollar Hext.
  destruct (fillTemplate_suffix template sfx info e sn g Hne Hplain Hdollar)
    as (pad & Hpad & Hfill).
  exists pad. split; [done|].
  apply includes_false in Hext.
  assert (findFirst (js "{ext}")
            (fillTemplate template info e sn g ++ pad ++ sfx) = None)
    as Hext'.
  { rewrite findFirst_app_plain, Hext; [done|done|done| |].
    - unfold plainSuffix in Hplain. rewrite Forall_forall in Hplain.
      intros [Hin|Hin]%elem_of_app.
      + destruct Hpad as [->| ->]; [by apply elem_of_nil in Hin|].
        by apply list_elem_of_singleton in Hin.
      + by destruct (Hplain _ Hin) as [? _].
    - unfold plainSuffix in Hplain. rewrite Forall_forall in Hplain.
      intros [Hin|Hin]%elem_of_app.
      + destruct Hpad as [->| ->]; [by apply elem_of_nil in Hin|].
        by apply list_elem_of_singleton in Hin.
      + by destruct (Hplain _ Hin) as (_ & ? & _). }
  split.
  - unfold videoNewName, withExtension. cbv zeta.
    by rewrite (replace_miss _ (js "{ext}")).
  - unfold subtitleNewName, withExtension. cbv zeta. rewrite Hfill.
    set (name := fillTemplate template info e sn g ++ pad ++ sfx) in *.
    rewrite (replace_miss name (js "{ext}") (key ++ js ".{ext}")) by done.
    assert ((if truthy key && negb (eqb key (js "default"))
             then name else name) = name) as ->
      by by destruct (truthy key && negb (eqb key (js "default"))).
    by rewrite (replace_miss name (js "{ext}")).
Qed.

Lemma subtitle_name_extends_video_name_witness :
  let info := mkAnimeInfo (candidate (js "Example")) 3 None in
  let template := js "{title} - S{season}E{episode:02}" in
  videoNewName template info 3 None None (js "mkv")
  = js "Example - S1E03.mkv"
  ∧ subtitleNewName template (js ".chs") (js "cht") info 3 None None
      (js "ass")
    = js "Example - S1E03.chs.ass".
Proof.
  intros info template.
  destruct (subtitle_name_extends_video_name template (js ".chs") (js "cht")
              info 3 None None (js "mkv") (js "ass"))
    as (pad & Hpad & Hv & Hs).
  - discriminate.
  - by repeat constructor.
  - repeat split; apply (bool_decide_unpack _); by vm_compute.
  - by vm_compute.
  - split; [by rewrite Hv|]. rewrite Hs.
    by destruct Hpad as [->| ->]; vm_compute.
Defined.

(** X25: after a search, the first edit of the file-name template changes
    no name: the files are planned again with the first result of the search
    and the template the search used, which gives the names they already
    have.  The candidate found again by its id is the first result, also when
    a later result has the same id. *)
Theorem first_template_edit_changes_no_name
    (localeCompare : jsstring → jsstring → Z) (st : Page.t)
    (first : AniListResponse.t) (others : list AniListResponse.t)
    (template : jsstring) :
  let searched :=
    searchAnimeMetadata localeCompare (first :: others) st in
  findAnime (Page.animeSearchResults searched) (AniListResponse.id first)
  = Some first
  ∧ Page.files searched
    = filesAfter localeCompare (Page.naming st) first (Page.files st)
  ∧ Page.files (updateFileNameTemplate localeCompare template searched)
    = Page.files searched
  ∧ Page.naming (updateFileNameTemplate localeCompare template searched)
    = setFileNameTemplate template (Page.naming st).
Proof.
  cbn zeta.
  assert (findAnime (first :: others) (AniListResponse.id first)
          = Some first) as Hfind.
  { unfold findAnime. cbn [list_find]. by rewrite decide_True. }
  split_and!; [exact Hfind|done| |done].
  unfold updateFileNameTemplate.
  cbn [searchAnimeMetadata Page.files Page.selectedAnimeId
       Page.animeSearchResults Page.naming].
  rewrite Hfind. apply filesAfter_forgets.
Qed.

(** ** Files without a role at the end of the working set *)

Section Appended.
Context {A B : Type} (idx : A → nat) (g : A → nat → B → B).

Lemma forEachFrom_app (l : list A) k0 (s t : list B) :
  Forall (λ x, (idx x < length s)%nat) l →
  forEachFrom (λ s x k, alter (g x k) (idx x) s) l k0 (s ++ t)
  = forEachFrom (λ s x k, alter (g x k) (idx x) s) l k0 s ++ t.
Proof.
  revert k0 s. induction l as [|x l IH]; intros k0 s Hl; [done|].
  apply Forall_cons in Hl as [Hx Hl]. cbn [forEachFrom].
  rewrite alter_app_l by done. apply IH.
  by rewrite length_alter.
Qed.

End Appended.

Lemma filter_none {A : Type} (P : A → Prop) `{!∀ x, Decision (P x)}
    (l : list A) :
  Forall (λ x, ¬ P x) l → filter P l = [].
Proof.
  induction 1 as [|x l Hx Hl IH]; [done|].
  by rewrite filter_cons, decide_False.
Qed.

Section AppendedFiles.
Variable localeCompare : jsstring → jsstring → Z.
Variable naming : Naming.t.
Variable animeData : AniListResponse.t.

Lemma videoFiles_app prev news :
  Forall (λ f, hasRole f = false) news →
  videoFiles localeCompare (prev ++ news) = videoFiles localeCompare prev.
Proof.
  intros Hnews. unfold videoFiles. rewrite imap_app, filter_app.
  assert (filter (λ v, FileInfo.is_video (file v) = true)
            (imap (λ n f, mkIndexed f (length prev + n)) news) = []) as ->;
    [|by rewrite (right_id_L [] (++))].
  apply filter_none. apply Forall_forall.
  intros v (i & f & -> & Hf)%elem_of_lookup_imap. simpl.
  rewrite Forall_forall in Hnews.
  specialize (Hnews f (list_elem_of_lookup_2 _ _ _ Hf)).
  unfold hasRole in Hnews. apply orb_false_iff in Hnews as [-> _]. done.
Qed.

Lemma subtitleFiles_app prev news :
  Forall (λ f, hasRole f = false) news →
  subtitleFiles (prev ++ news) = subtitleFiles prev.
Proof.
  intros Hnews. unfold subtitleFiles. rewrite imap_app, filter_app.
  assert (filter (λ s, FileInfo.is_subtitle (file (item s)) = true)
            (imap (λ n f, mkSuffixed (mkIndexed f (length prev + n))
                            (extractSubtitleSuffix (FileInfo.name f))) news)
          = []) as ->;
    [|by rewrite (right_id_L [] (++))].
  apply filter_none. apply Forall_forall.
  intros s (i & f & -> & Hf)%elem_of_lookup_imap. simpl.
  rewrite Forall_forall in Hnews.
  specialize (Hnews f (list_elem_of_lookup_2 _ _ _ Hf)).
  unfold hasRole in Hnews. apply orb_false_iff in Hnews as [_ ->]. done.
Qed.

Lemma subtitlePass_app groups (s t : list FileInfo.t) :
  Forall (λ x, (subtitleIndex x < length s)%nat) (mjoin groups.*2) →
  subtitlePass naming animeData groups (s ++ t)
  = subtitlePass naming animeData groups s ++ t.
Proof.
  revert s. induction groups as [|[key members] groups IH]; intros s Hidx;
    [done|].
  rewrite fmap_cons in Hidx. cbn [snd mjoin list_join] in Hidx.
  apply Forall_app in Hidx as [Hm Hrest].
  rewrite !subtitlePass_cons.
  pose proof (forEachFrom_app subtitleIndex
    (λ x j, FileInfo.set_plan
              (subtitlePlan naming animeData key (file (item x)) j).1
              (subtitlePlan naming animeData key (file (item x)) j).2)
    members 0%nat s t Hm) as Happ.
  etrans; [|apply IH].
  - f_equal. exact Happ.
  - eapply Forall_impl; [exact Hrest|]. intros x Hx. simpl.
    by rewrite (forEachFrom_length subtitleIndex
      (λ x j, FileInfo.set_plan
                (subtitlePlan naming animeData key (file (item x)) j).1
                (subtitlePlan naming animeData key (file (item x)) j).2)).
Qed.

End AppendedFiles.

(** X26: files that are neither videos nor subtitles, appended to the
    working set (as [handleFileSelect] appends the files of unsupported
    types), have no part in the plan: [applyMetadata] gives the files before
    them what it gives them without the appended files, and leaves the
    appended files as they are. *)
Theorem appended_roleless_files_do_not_change_the_plan
    (localeCompare : jsstring → jsstring → Z) (naming : Naming.t)
    (animeData : AniListResponse.t) (prev news : list FileInfo.t) :
  Forall (λ f, hasRole f = false) news →
  applyMetadata localeCompare naming animeData (prev ++ news)
  = (λ out, out ++ news)
      <$> applyMetadata localeCompare naming animeData prev.
Proof.
  intros Hnews. unfold applyMetadata, subtitleGroups.
  rewrite videoFiles_app, subtitleFiles_app by done.
  destruct (groupReduce (subtitleFiles prev) []) as [raw|] eqn:Hraw;
    [|done].
  cbn [fmap option_fmap option_map]. f_equal.
  pose proof (forEachFrom_app originalIndex
    (λ x j, FileInfo.set_plan (videoPlan naming animeData (file x) j).1
              (videoPlan naming animeData (file x) j).2)
    (videoFiles localeCompare prev) 0%nat prev news) as Hvideo.
  etrans; [|apply subtitlePass_app].
  - f_equal. apply Hvideo. apply Forall_forall. intros v Hv.
    apply videoFiles_elem in Hv as [Hl _]. by eapply lookup_lt_Some.
  - assert (subtitleGroups localeCompare prev
            = Some ((λ g, (g.1, sortByName localeCompare subtitleName g.2))
                      <$> raw)) as HG.
    { unfold subtitleGroups. by rewrite Hraw. }
    destruct (subtitleGroups_inv _ _ _ HG) as (_ & Hperm & _).
    rewrite Hperm. apply Forall_forall. intros s Hs.
    apply subtitleFiles_elem in Hs as (Hl & _).
    rewrite (forEachFrom_length originalIndex
      (λ x j, FileInfo.set_plan (videoPlan naming animeData (file x) j).1
                (videoPlan naming animeData (file x) j).2)).
    by eapply lookup_lt_Some.
Qed.

Lemma appended_roleless_files_do_not_change_the_plan_witness :
  let prev := [selected (js "B.mkv") (js "mkv") true false;
               selected (js "A.chs.ass") (js "ass") false true] in
  let news := [selected (js "notes.txt") (js "txt") false false] in
  let naming := namingWith (js "{title} - {episode}") (js "{title}") in
  let animeData := candidate (js "Example") in
  Forall (λ f, hasRole f = false) news
  ∧ applyMetadata codeUnitCompare naming animeData (prev ++ news)
    = (λ out, out ++ news)
        <$> applyMetadata codeUnitCompare naming animeData prev.
Proof.
  intros prev news naming animeData.
  assert (Forall (λ f, hasRole f = false) news) as Hnews
    by by repeat constructor.
  split; [exact Hnews|].
  exact (appended_roleless_files_do_not_change_the_plan codeUnitCompare
           naming animeData prev news Hnews).
Defined.
